(** * pdf2md: task lifecycle, caching and artifact store

    A shallow embedding of the Python sources

    - [app/storage/local.py]      (artifact store on the local file system)
    - [app/services/converter.py] (Docling adapter, title and hash extraction)
    - [app/services/cache.py]     (SQLite registry: [tasks] and [cache] tables)
    - [app/models/schemas.py]     (response models)
    - [app/api/routes.py]         (HTTP handlers and the background conversion)
    - [app/main.py]               (start-up and the viewer page)

    together with the properties of the design document that are checked
    against them.  Bytes and text are modelled as [string], a sequence of
    8-bit characters; text is held in its UTF-8 encoding.  SQL tables are
    finite maps keyed by their primary / unique key, the storage volume is
    a finite map from canonical paths to nodes, and the asynchronous
    conversion is a job that advances one awaited slice at a time. *)

From Stdlib Require Import ZArith Ascii String List Bool Lia.
From stdpp Require Import base option list strings gmap fin_maps.

#[local] Open Scope stdpp_scope.
#[local] Arguments String.append : simpl nomatch.
#[local] Arguments Ascii.eqb : simpl never.

(** ** Python [str] helpers *)

Module Str.

Fixpoint take (n : nat) (s : string) : string :=
  match n, s with
  | S k, String c r => String c (take k r)
  | _, _ => ""
  end.

Fixpoint drop (n : nat) (s : string) : string :=
  match n, s with
  | S k, String _ r => drop k r
  | _, _ => s
  end.

(** [c in s] *)
Fixpoint mem (c : ascii) (s : string) : bool :=
  match s with
  | "" => false
  | String a r => if Ascii.eqb a c then true else mem c r
  end.

(** [s.startswith(p)] *)
Fixpoint startswith (p s : string) : bool :=
  match p, s with
  | "", _ => true
  | String a p', String b s' => Ascii.eqb a b && startswith p' s'
  | String _ _, "" => false
  end.

(** [s.endswith(p)] *)
Definition endswith (p s : string) : bool :=
  String.eqb (drop (String.length s - String.length p) s) p
  && (String.length p <=? String.length s).

(** [sub in s] *)
Fixpoint contains (sub s : string) : bool :=
  startswith sub s
  || match s with
     | "" => false
     | String _ r => contains sub r
     end.

(** [s.split(sep)] for a one-character separator: the pieces between
    the separators, empty pieces kept; never the empty list. *)
Fixpoint split (sep : ascii) (s : string) : list string :=
  match s with
  | "" => [""]
  | String a r =>
      if Ascii.eqb a sep then "" :: split sep r
      else match split sep r with
           | piece :: pieces => String a piece :: pieces
           | [] => [String a ""]
           end
  end.

(** ASCII case folding, the part of [str.lower] that can produce or
    destroy the characters of [".pdf"] and of the image suffixes. *)
Definition lower_ascii (c : ascii) : ascii :=
  let n := nat_of_ascii c in
  if (65 <=? n) && (n <=? 90) then ascii_of_nat (n + 32) else c.

Fixpoint lower (s : string) : string :=
  match s with
  | "" => ""
  | String c r => String (lower_ascii c) (lower r)
  end.

(** The UTF-8 encoding of a code point below U+10000. *)
Definition utf8 (cp : N) : string :=
  let byte n := String (ascii_of_N n) in
  if (cp <? 128)%N then byte cp ""
  else if (cp <? 2048)%N
  then byte (192 + cp / 64)%N (byte (128 + cp mod 64)%N "")
  else byte (224 + cp / 4096)%N
         (byte (128 + cp / 64 mod 64)%N (byte (128 + cp mod 64)%N "")).

(** The white space of Python's default [str.strip()]: the code points
    for which [str.isspace()] holds. *)
Definition whitespace : list string :=
  map utf8
    [ 0x09; 0x0a; 0x0b; 0x0c; 0x0d; 0x1c; 0x1d; 0x1e; 0x1f; 0x20; 0x85; 0xa0;
      0x1680; 0x2000; 0x2001; 0x2002; 0x2003; 0x2004; 0x2005; 0x2006; 0x2007;
      0x2008; 0x2009; 0x200a; 0x2028; 0x2029; 0x202f; 0x205f; 0x3000 ]%N.

(** Text put together from the strings of [pieces]. *)
Inductive made_of (pieces : list string) : string → Prop :=
| made_of_nil : made_of pieces ""
| made_of_cons w s : w ∈ pieces → made_of pieces s → made_of pieces (w +:+ s).

(** Text that is white space only. *)
Definition blank : string → Prop := made_of whitespace.

(** What follows the first character of [s], if that is one of
    [spaces]. *)
Definition after_space (spaces : list string) (s : string) : option string :=
  (λ w, drop (String.length w) s) <$> List.find (λ w, startswith w s) spaces.

(** [s] without the [spaces] it begins with; [n] bounds their number. *)
Fixpoint lstrip_from (spaces : list string) (n : nat) (s : string) : string :=
  match n with
  | O => s
  | S k =>
      match after_space spaces s with
      | Some r => lstrip_from spaces k r
      | None => s
      end
  end.

Definition lstrip (s : string) : string :=
  lstrip_from whitespace (String.length s) s.

Definition rstrip (s : string) : string :=
  String.rev
    (lstrip_from (map String.rev whitespace) (String.length s) (String.rev s)).

(** [s.strip()] *)
Definition strip (s : string) : string := rstrip (lstrip s).

End Str.

(** ** Python [re]: the fragment used by the two substitutions

    Both patterns of the program are sequences of literal characters,
    greedy repetitions of a negated one-character class ([[^c]+] and
    [[^c]*]) and capture groups that do not nest.  The matcher below is
    the usual backtracking one: a greedy repetition first takes the
    longest run and gives characters back one at a time until the rest of
    the pattern matches. *)

Module Re.

Inductive item :=
| Lit (c : ascii)              (* a literal character *)
| RepNot (c : ascii) (min : nat) (* [^c]{min,}, greedy *)
| GOpen                        (* ( *)
| GClose.                      (* ) *)

Definition pattern := list item.

Fixpoint lits (s : string) : pattern :=
  match s with
  | "" => []
  | String c r => Lit c :: lits r
  end.

(** Length of the longest prefix of [s] without the character [c]. *)
Fixpoint run (c : ascii) (s : string) : nat :=
  match s with
  | "" => 0
  | String a r => if Ascii.eqb a c then 0 else S (run c r)
  end.

(** Try the counts [n], [n-1], ..., [min] in this order. *)
Fixpoint try_down {X} (f : nat → option X) (min n : nat) : option X :=
  if n <? min then None
  else match f n with
       | Some x => Some x
       | None => match n with
                 | 0 => None
                 | S k => try_down f min k
                 end
       end.

(** [match_here p s opened caps]: match [p] at the start of [s];
    [opened] is the input at the last open parenthesis, [caps] the
    groups closed so far.  Returns the groups and the unread input. *)
Fixpoint match_here (p : pattern) (s : string)
    (opened : option string) (caps : list string)
    : option (list string * string) :=
  match p with
  | [] => Some (caps, s)
  | Lit c :: p' =>
      match s with
      | String a r => if Ascii.eqb a c then match_here p' r opened caps else None
      | "" => None
      end
  | RepNot c min :: p' =>
      try_down (λ k, match_here p' (Str.drop k s) opened caps) min (run c s)
  | GOpen :: p' => match_here p' s (Some s) caps
  | GClose :: p' =>
      match opened with
      | Some s0 =>
          match_here p' s None
            (caps ++ [Str.take (String.length s0 - String.length s) s0])
      | None => None
      end
  end.

Definition match_at (p : pattern) (s : string) : option (list string * string) :=
  match_here p s None [].

(** [re.sub(p, repl, s)]: scan left to right; at a match emit the
    replacement and resume after it, otherwise copy one character.
    [skip] counts the characters of the last match still to be passed
    over.  An empty match emits the replacement and copies the
    character, as [re.sub] does. *)
Fixpoint sub_from (p : pattern) (repl : list string → string)
    (skip : nat) (s : string) : string :=
  match s with
  | "" =>
      match skip, match_at p "" with
      | 0, Some (caps, _) => repl caps
      | _, _ => ""
      end
  | String c r =>
      match skip with
      | S k => sub_from p repl k r
      | 0 =>
          match match_at p s with
          | Some (caps, rest) =>
              match String.length s - String.length rest with
              | 0 => repl caps +:+ String c (sub_from p repl 0 r)
              | S k => repl caps +:+ sub_from p repl k r
              end
          | None => String c (sub_from p repl 0 r)
          end
      end
  end.

Definition sub (p : pattern) (repl : list string → string) (s : string) : string :=
  sub_from p repl 0 s.

(** No match of [p] starts inside [pre] when the text is [pre +:+ x]. *)
Fixpoint unmatched (p : pattern) (pre x : string) : bool :=
  match pre with
  | "" => true
  | String _ r =>
      match match_at p (pre +:+ x) with
      | None => unmatched p r x
      | Some _ => false
      end
  end.

End Re.

(** ** [app/services/converter.py]: rewriting of the engine's image paths *)

(** The pattern "\]\(([^)]+/output_artifacts/[^)]+)\)". *)
Definition artifact_ref_pattern : Re.pattern :=
  Re.lits "](" ++ [Re.GOpen; Re.RepNot ")" 1] ++ Re.lits "/output_artifacts/"
  ++ [Re.RepNot ")" 1; Re.GClose; Re.Lit ")"].

(** The inner function [replace_image_path] of [convert_pdf_to_markdown]. *)
Definition replace_image_path (task_id : string) (groups : list string) : string :=
  let full_path := nth 0 groups "" in
  let filename := List.last (Str.split "/" full_path) "" in
  "](/api/images/" +:+ task_id +:+ "/" +:+ filename +:+ ")".

Definition rewrite_image_paths (task_id md_content : string) : string :=
  Re.sub artifact_ref_pattern (replace_image_path task_id) md_content.

(** A text cut at its references into the engine's artifact directory:
    each one is given by the text before it, the directory part and the
    part after [/output_artifacts/], and stands for
    [<before>](<directory>/output_artifacts/<name>)]. *)
Definition artifact_ref := (string * string * string)%type.

Definition ref_target (r : artifact_ref) : string :=
  r.1.2 +:+ "/output_artifacts/" +:+ r.2.

Fixpoint refs_text (refs : list artifact_ref) (tail : string) : string :=
  match refs with
  | [] => tail
  | r :: rest => r.1.1 +:+ "](" +:+ ref_target r +:+ String ")" (refs_text rest tail)
  end.

(** The references are the matches of the pattern, leftmost first: no
    match starts in the text before a reference or in the tail, and the
    two parts of a reference are non-empty and free of [)]. *)
Fixpoint refs_leftmost (refs : list artifact_ref) (tail : string) : Prop :=
  match refs with
  | [] => Re.unmatched artifact_ref_pattern tail "" = true
  | r :: rest =>
      Re.unmatched artifact_ref_pattern r.1.1
        ("](" +:+ ref_target r +:+ String ")" (refs_text rest tail)) = true
      ∧ r.1.2 ≠ "" ∧ r.2 ≠ ""
      ∧ Str.mem ")" r.1.2 = false ∧ Str.mem ")" r.2 = false
      ∧ refs_leftmost rest tail
  end.

(** The final path segment of a reference. *)
Definition ref_filename (r : artifact_ref) : string :=
  List.last (Str.split "/" (ref_target r)) "".

(** The same text with every reference in the form
    [](/api/images/<task_id>/<filename>)]. *)
Fixpoint refs_served (task_id : string) (refs : list artifact_ref) (tail : string)
    : string :=
  match refs with
  | [] => tail
  | r :: rest =>
      r.1.1 +:+ "](/api/images/" +:+ task_id +:+ "/" +:+ ref_filename r +:+ ")"
      +:+ refs_served task_id rest tail
  end.

(** ** [hashlib.sha256] (FIPS 180-4)

    32-bit words are integers in [0, 2^32); every addition is reduced
    modulo [2^32]. *)

Module Sha256.

#[local] Open Scope Z_scope.

Definition w32 (x : Z) : Z := x mod 2 ^ 32.
Definition add32 (x y : Z) : Z := w32 (x + y).
Definition rotr (n x : Z) : Z :=
  Z.lor (Z.shiftr x n) (w32 (Z.shiftl x (32 - n))).

Definition Ch (x y z : Z) : Z := Z.lxor (Z.land x y) (Z.land (w32 (Z.lnot x)) z).
Definition Maj (x y z : Z) : Z :=
  Z.lxor (Z.lxor (Z.land x y) (Z.land x z)) (Z.land y z).
Definition Sigma0 (x : Z) : Z := Z.lxor (Z.lxor (rotr 2 x) (rotr 13 x)) (rotr 22 x).
Definition Sigma1 (x : Z) : Z := Z.lxor (Z.lxor (rotr 6 x) (rotr 11 x)) (rotr 25 x).
Definition sigma0 (x : Z) : Z := Z.lxor (Z.lxor (rotr 7 x) (rotr 18 x)) (Z.shiftr x 3).
Definition sigma1 (x : Z) : Z := Z.lxor (Z.lxor (rotr 17 x) (rotr 19 x)) (Z.shiftr x 10).

(** The round constants and the initial chaining value are the first
    32 bits of the fractional parts of the cube roots of the first 64
    primes and of the square roots of the first 8. *)
Definition is_prime (n : Z) : bool :=
  (1 <? n) && forallb (λ d, negb (n mod d =? 0))
                      (map Z.of_nat (seq 2 (Z.to_nat n - 2))).

Definition primes : list Z :=
  List.filter is_prime (map Z.of_nat (seq 2 310)).

(** The integer [deg]-th root of [n], found bit by bit below [2^k]. *)
Fixpoint int_root (k : nat) (deg n r : Z) : Z :=
  match k with
  | O => r
  | S j =>
      let c := r + 2 ^ Z.of_nat j in
      int_root j deg n (if c ^ deg <=? n then c else r)
  end.

Definition frac_root (deg p : Z) : Z :=
  w32 (int_root 40 deg (p * 2 ^ (32 * deg)) 0).

Definition K : list Z := Eval vm_compute in map (frac_root 3) primes.

(** The eight working variables / the chaining value. *)
Record regs := Regs { ra : Z; rb : Z; rc : Z; rd : Z; re : Z; rf : Z; rg : Z; rh : Z }.

Definition H0 : regs :=
  Eval vm_compute in
  let h i := frac_root 2 (nth i primes 0) in
  Regs (h 0%nat) (h 1%nat) (h 2%nat) (h 3%nat) (h 4%nat) (h 5%nat) (h 6%nat) (h 7%nat).

Definition bytes_of_string (s : string) : list Z :=
  map (λ c, Z.of_nat (nat_of_ascii c)) (list_ascii_of_string s).

(** Big-endian bytes of [x], [n] of them. *)
Fixpoint be_bytes (n : nat) (x : Z) : list Z :=
  match n with
  | O => []
  | S k => be_bytes k (x / 256) ++ [x mod 256]
  end.

(** Message, then [0x80], then zeros up to 56 modulo 64, then the bit
    length on 64 bits. *)
Definition pad (msg : list Z) : list Z :=
  let l := Z.of_nat (length msg) in
  let zeros := Z.to_nat ((55 - l) mod 64) in
  msg ++ [0x80] ++ repeat 0 zeros ++ be_bytes 8 ((8 * l) mod 2 ^ 64).

Fixpoint words_of_bytes (n : nat) (bs : list Z) : list Z :=
  match n with
  | O => []
  | S k =>
      match bs with
      | b0 :: b1 :: b2 :: b3 :: r =>
          (((b0 * 256 + b1) * 256 + b2) * 256 + b3) :: words_of_bytes k r
      | _ => []
      end
  end.

(** [W_t = sigma1 W_(t-2) + W_(t-7) + sigma0 W_(t-15) + W_(t-16)];
    the schedule is kept newest word first. *)
Fixpoint extend (n : nat) (rev_w : list Z) : list Z :=
  match n with
  | O => rev_w
  | S k =>
      let w i := nth i rev_w 0 in
      extend k (add32 (add32 (sigma1 (w 1%nat)) (w 6%nat))
                      (add32 (sigma0 (w 14%nat)) (w 15%nat)) :: rev_w)
  end.

Definition schedule (block : list Z) : list Z :=
  rev (extend 48 (rev (words_of_bytes 16 block))).

Definition round (r : regs) (kw : Z * Z) : regs :=
  let t1 := add32 (add32 (add32 (rh r) (Sigma1 (re r))) (Ch (re r) (rf r) (rg r)))
                  (add32 (fst kw) (snd kw)) in
  let t2 := add32 (Sigma0 (ra r)) (Maj (ra r) (rb r) (rc r)) in
  Regs (add32 t1 t2) (ra r) (rb r) (rc r) (add32 (rd r) t1) (re r) (rf r) (rg r).

Definition compress (h : regs) (block : list Z) : regs :=
  let r := fold_left round (combine K (schedule block)) h in
  Regs (add32 (ra h) (ra r)) (add32 (rb h) (rb r)) (add32 (rc h) (rc r))
       (add32 (rd h) (rd r)) (add32 (re h) (re r)) (add32 (rf h) (rf r))
       (add32 (rg h) (rg r)) (add32 (rh h) (rh r)).

Fixpoint blocks (n : nat) (h : regs) (bs : list Z) : regs :=
  match n with
  | O => h
  | S k => blocks k (compress h (firstn 64 bs)) (skipn 64 bs)
  end.

(** The 32 bytes of the digest. *)
Definition digest (msg : string) : list Z :=
  let p := pad (bytes_of_string msg) in
  let h := blocks (length p / 64) H0 p in
  flat_map (be_bytes 4) [ra h; rb h; rc h; rd h; re h; rf h; rg h; rh h].

Definition hex_digit (n : Z) : ascii :=
  nth (Z.to_nat n) (list_ascii_of_string "0123456789abcdef") "0"%char.

Fixpoint hex (bs : list Z) : string :=
  match bs with
  | [] => ""
  | b :: r => String (hex_digit (b / 16)) (String (hex_digit (b mod 16)) (hex r))
  end.

(** [hashlib.sha256(msg).hexdigest()] *)
Definition hexdigest (msg : string) : string := hex (digest msg).



End Sha256.

(** [get_pdf_hash]: [hashlib.sha256(pdf_bytes).hexdigest()[:16]]. *)
Definition get_pdf_hash (pdf_bytes : string) : string :=
  Str.take 16 (Sha256.hexdigest pdf_bytes).

(** ** [pathlib] and the storage volume

    Every path of the program is built from the absolute [STORAGE_DIR],
    so a path is the list of its components below the root.  As in
    [pathlib], joining keeps [".."] components: they are resolved by the
    operating system when the path is used. *)

Inductive exn :=
| FileNotFoundError
| NotADirectoryError
| IsADirectoryError
| FileExistsError
| IntegrityError
| ExternalError (msg : string).

Definition result (A : Type) : Type := exn + A.

Module Fs.

Definition path := list string.

(** Components of a string: split at ["/"], empty and ["."] components
    dropped. *)
Definition parts (s : string) : path :=
  filter (λ x, x ≠ "" ∧ x ≠ ".") (Str.split "/" s).

(** A file name proper: one component that is neither empty nor
    ["."] nor [".."]. *)
Definition plain_component (s : string) : Prop :=
  s ≠ "" ∧ s ≠ "." ∧ s ≠ ".." ∧ Str.mem "/" s = false.

(** [p / s]: an absolute right operand replaces the left one. *)
Definition join (p : path) (s : string) : path :=
  if Str.startswith "/" s then parts s else p ++ parts s.

(** [p.name] *)
Definition name (p : path) : string := List.last p "".

(** [str.rfind(".")] as the length of the part before the last dot. *)
Definition rfind_dot (s : string) : option nat :=
  match Str.split "." s with
  | [] | [_] => None
  | pieces => Some (String.length s - String.length (List.last pieces "") - 1)
  end.

(** [p.suffix]: the last dot and what follows it, unless the dot is the
    first or the last character of the name. *)
Definition suffix (p : path) : string :=
  let n := name p in
  match rfind_dot n with
  | Some i => if (0 <? i) && (i <? String.length n - 1) then Str.drop i n else ""
  | None => ""
  end.

Inductive node :=
| File (content : string)
| Dir.

(** A volume maps the canonical location of every file and directory
    below the root to its node; the root itself is a directory.
    Symbolic links are not modelled. *)
Abbreviation volume := (gmap (list string) node).

Definition node_at (fs : volume) (loc : list string) : option node :=
  match loc with
  | [] => Some Dir
  | _ => fs !! loc
  end.

(** One component of path resolution: [".."] is the parent (the root
    is its own parent). *)
Definition enter (loc : list string) (seg : string) : list string :=
  if decide (seg = "..") then removelast loc else loc ++ [seg].

(** Resolution of the components [segs] from the location [loc]: every
    location a component is looked up in must be a directory. *)
Fixpoint walk (fs : volume) (loc : list string) (segs : path) : option (list string) :=
  match segs with
  | [] => Some loc
  | seg :: rest =>
      match node_at fs loc with
      | Some Dir => walk fs (enter loc seg) rest
      | _ => None
      end
  end.

(** [os.stat]: the canonical location and the node, if the path
    resolves. *)
Definition stat (fs : volume) (p : path) : option (list string * node) :=
  loc ← walk fs [] p;
  n ← node_at fs loc;
  Some (loc, n).

(** [p.exists()] *)
Definition exists_ (fs : volume) (p : path) : bool :=
  bool_decide (is_Some (stat fs p)).

(** [p.is_file()] *)
Definition is_file (fs : volume) (p : path) : bool :=
  match stat fs p with
  | Some (_, File _) => true
  | _ => false
  end.

(** [p.read_text()].  The text is returned as it is stored: the
    translation of carriage returns into line feeds that Python does on
    reading is not modelled. *)
Definition read_text (fs : volume) (p : path) : result string :=
  match stat fs p with
  | Some (_, File content) => inr content
  | Some (_, Dir) => inl IsADirectoryError
  | None => inl FileNotFoundError
  end.

(** The error of a resolution that fails: a component looked up in a
    regular file gives [ENOTDIR], a missing component [ENOENT]. *)
Fixpoint walk_error (fs : volume) (loc : list string) (segs : path) : exn :=
  match segs with
  | [] => FileNotFoundError
  | seg :: rest =>
      match node_at fs loc with
      | Some Dir => walk_error fs (enter loc seg) rest
      | Some (File _) => NotADirectoryError
      | None => FileNotFoundError
      end
  end.

(** [p.write_text(content)]: the parent must resolve to a directory;
    the file is created or replaced. *)
Definition write_text (fs : volume) (p : path) (content : string) : result volume :=
  match p with
  | [] => inl IsADirectoryError
  | _ =>
      match stat fs (removelast p) with
      | Some (parent, Dir) =>
          let loc := enter parent (List.last p "") in
          match node_at fs loc with
          | Some Dir => inl IsADirectoryError
          | _ => inr (<[loc := File content]> fs)
          end
      | Some (_, File _) => inl NotADirectoryError
      | None => inl (walk_error fs [] (removelast p))
      end
  end.

(** [p.mkdir(parents=True, exist_ok=True)] *)
Fixpoint mkdir_from (fs : volume) (loc : list string) (segs : path) : result volume :=
  match segs with
  | [] => inr fs
  | seg :: rest =>
      let loc' := enter loc seg in
      match node_at fs loc' with
      | Some Dir => mkdir_from fs loc' rest
      | Some (File _) =>
          inl (match rest with [] => FileExistsError | _ => NotADirectoryError end)
      | None => mkdir_from (<[loc' := Dir]> fs) loc' rest
      end
  end.

Definition mkdir_parents (fs : volume) (p : path) : result volume :=
  mkdir_from fs [] p.

(** [p.iterdir()] for a directory at the canonical location [loc]: the
    entries one component below it, with their names. *)
Definition entries (fs : volume) (loc : list string) : list (string * node) :=
  omap (λ kv, match decide (removelast kv.1 = loc ∧ kv.1 ≠ []) with
              | left _ => Some (List.last kv.1 "", kv.2)
              | right _ => None
              end)
       (map_to_list fs).

(** [shutil.rmtree(p)].  A missing path and a regular file raise.  For
    a directory, everything below it is removed first; then
    [os.rmdir(p)] resolves the path once more, which fails when the path
    runs through something just removed, when it ends in [".."] and
    when it is the root. *)
Definition rmtree (fs : volume) (p : path) : volume * option exn :=
  match stat fs p with
  | None => (fs, Some FileNotFoundError)
  | Some (_, File _) => (fs, Some NotADirectoryError)
  | Some (loc, Dir) =>
      let emptied :=
        filter (λ kv : list string * node, ¬ (loc `prefix_of` kv.1 ∧ kv.1 ≠ loc)) fs in
      if decide (p = []) then
        (emptied, Some (ExternalError "[Errno 16] Device or resource busy"))
      else
        match stat emptied (removelast p) with
        | Some (parent, Dir) =>
            if decide (List.last p "" = "..") then
              (emptied, Some (ExternalError "[Errno 39] Directory not empty"))
            else (delete (enter parent (List.last p "")) emptied, None)
        | Some (_, File _) => (emptied, Some NotADirectoryError)
        | None => (emptied, Some FileNotFoundError)
        end
  end.

End Fs.

(** ** External collaborators

    What the program obtains from its deployment and from the libraries
    it calls: the absolute storage root, the metadata reader ([pypdf]),
    the conversion engine (Docling) and the text of an exception. *)

Class Env := {
  (** [Path(__file__).parent.parent.parent / "storage" / "output"] *)
  STORAGE_DIR : Fs.path;
  (** [pypdf.PdfReader(BytesIO(b)).metadata.title]; [None] when the
      document has no metadata or no title; may raise *)
  pypdf_title : string → result (option string);
  (** the engine's document *)
  doc : Type;
  (** [converter.convert(DocumentStream(name="document.pdf", ...)).document] *)
  docling_convert : string → result doc;
  (** [doc.name] *)
  doc_name : doc → string;
  (** [doc.save_as_markdown(md_path, image_mode=REFERENCED)]: what it
      leaves on the volume, and the exception if it raised *)
  save_as_markdown : doc → Fs.path → Fs.volume → Fs.volume * option exn;
  (** [str(e)] *)
  str_exn : exn → string;
}.

(** ** [app/storage/local.py] *)

Section Local.
Context {E : Env}.

Definition ensure_storage_dir (fs : Fs.volume) : result Fs.volume :=
  Fs.mkdir_parents fs STORAGE_DIR.

Definition get_task_dir (task_id : string) : Fs.path :=
  Fs.join STORAGE_DIR task_id.

Definition create_task_dir (fs : Fs.volume) (task_id : string)
    : result (Fs.volume * Fs.path) :=
  let task_dir := get_task_dir task_id in
  match Fs.mkdir_parents fs task_dir with
  | inl e => inl e
  | inr fs' => inr (fs', task_dir)
  end.

Definition save_markdown (fs : Fs.volume) (task_id content : string)
    : result (Fs.volume * Fs.path) :=
  let task_dir := get_task_dir task_id in
  let md_path := Fs.join task_dir "output.md" in
  match Fs.write_text fs md_path content with
  | inl e => inl e
  | inr fs' => inr (fs', md_path)
  end.

Definition get_markdown (fs : Fs.volume) (task_id : string)
    : result (option string) :=
  let md_path := Fs.join (get_task_dir task_id) "output.md" in
  if Fs.exists_ fs md_path then
    match Fs.read_text fs md_path with
    | inl e => inl e
    | inr text => inr (Some text)
    end
  else inr None.

Definition get_image_path (fs : Fs.volume) (task_id filename : string)
    : option Fs.path :=
  let task_dir := get_task_dir task_id in
  let image_path := Fs.join (Fs.join task_dir "output_artifacts") filename in
  if Fs.exists_ fs image_path then Some image_path else None.

(** The pattern, written as two adjacent literals:
    "!\[([^\]]*" ")\]\(/api/images/[^/]+/([^)]+)\)". *)
Definition api_image_pattern : Re.pattern :=
  Re.lits "![" ++ [Re.GOpen; Re.RepNot "]" 0; Re.GClose]
  ++ Re.lits "](/api/images/" ++ [Re.RepNot "/" 1; Re.Lit "/"]
  ++ [Re.GOpen; Re.RepNot ")" 1; Re.GClose; Re.Lit ")"].

(** The replacement template "![\1](images/\2)". *)
Definition local_image_template (groups : list string) : string :=
  "![" +:+ nth 0 groups "" +:+ "](images/" +:+ nth 1 groups "" +:+ ")".






Definition image_suffixes : list string :=
  [".png"; ".jpg"; ".jpeg"; ".gif"; ".webp"].

(** A zip archive as the list of its members: name and content. *)
Definition archive := list (string * string).

Definition create_markdown_zip (fs : Fs.volume) (task_id : string)
    : result (option archive) :=
  let task_dir := get_task_dir task_id in
  let md_path := Fs.join task_dir "output.md" in
  if negb (Fs.exists_ fs md_path) then inr None
  else
    match Fs.read_text fs md_path with
    | inl e => inl e
    | inr md_content =>
        let md_content := Re.sub api_image_pattern local_image_template md_content in
        let zf := [("output.md", md_content)] in
        let artifacts_dir := Fs.join task_dir "output_artifacts" in
        match Fs.stat fs artifacts_dir with
        | None => inr (Some zf)
        | Some (_, Fs.File _) => inl NotADirectoryError
        | Some (loc, Fs.Dir) =>
            inr (Some (zf ++
              omap (λ entry,
                      match entry.2 with
                      | Fs.File content =>
                          if bool_decide
                               (Str.lower (Fs.suffix (artifacts_dir ++ [entry.1]))
                                ∈ image_suffixes)
                          then Some ("images/" +:+ entry.1, content)
                          else None
                      | Fs.Dir => None
                      end)
                   (Fs.entries fs loc)))
        end
    end.

(** The task's asset directory, [task_dir / "output_artifacts"]. *)
Definition artifacts_dir (task_id : string) : Fs.path :=
  Fs.join (get_task_dir task_id) "output_artifacts".

(** The volume it leaves, and the value returned or the exception
    raised by [shutil.rmtree]. *)
Definition delete_task_files (fs : Fs.volume) (task_id : string)
    : Fs.volume * result bool :=
  let task_dir := get_task_dir task_id in
  if Fs.exists_ fs task_dir then
    match Fs.rmtree fs task_dir with
    | (fs, Some e) => (fs, inl e)
    | (fs, None) => (fs, inr true)
    end
  else (fs, inr false).

Definition task_has_markdown (fs : Fs.volume) (task_id : string) : bool :=
  let md_path := Fs.join (get_task_dir task_id) "output.md" in
  Fs.exists_ fs md_path.

End Local.

(** ** [app/services/converter.py] *)

Section Converter.
Context {E : Env}.

Definition get_pdf_title (pdf_bytes : string) : option string :=
  match pypdf_title pdf_bytes with
  | inr (Some raw) =>
      if decide (raw = "") then None
      else
        let title := Str.strip raw in
        if decide (title = "") then None else Some title
  | inr None => None
  | inl _ => None
  end.

(** The result triple [(success, title, error_message)]. *)
Definition conversion := (bool * option string * option string)%type.

Definition failed (e : exn) : conversion := (false, None, Some (str_exn e)).

Definition convert_pdf_to_markdown (fs : Fs.volume) (task_id pdf_bytes : string)
    : Fs.volume * conversion :=
  match create_task_dir fs task_id with
  | inl e => (fs, failed e)
  | inr (fs, task_dir) =>
      match docling_convert pdf_bytes with
      | inl e => (fs, failed e)
      | inr document =>
          let title :=
            if decide (doc_name document = "") then "Untitled"
            else doc_name document in
          let md_path := Fs.join task_dir "output.md" in
          match save_as_markdown document md_path fs with
          | (fs, Some e) => (fs, failed e)
          | (fs, None) =>
              match Fs.read_text fs md_path with
              | inl e => (fs, failed e)
              | inr md_content =>
                  let md_content := rewrite_image_paths task_id md_content in
                  match Fs.write_text fs md_path md_content with
                  | inl e => (fs, failed e)
                  | inr fs => (fs, (true, Some title, None))
                  end
              end
          end
      end
  end.

(** The text the engine leaves in [output.md], before the rewriting:
    the value read into [md_content] by [convert_pdf_to_markdown]. *)
Definition saved_markdown (fs : Fs.volume) (task_id pdf_bytes : string)
    : option string :=
  match create_task_dir fs task_id with
  | inl _ => None
  | inr (fs, task_dir) =>
      match docling_convert pdf_bytes with
      | inl _ => None
      | inr document =>
          let md_path := Fs.join task_dir "output.md" in
          match save_as_markdown document md_path fs with
          | (_, Some _) => None
          | (fs, None) =>
              match Fs.read_text fs md_path with
              | inl _ => None
              | inr md_content => Some md_content
              end
          end
      end
  end.

End Converter.

(** ** [app/services/cache.py]

    The two SQLite tables as finite maps: [tasks] by its primary key
    [id], [cache] by its unique pair [(title, format)].  Time stamps are
    integers (microseconds since an epoch); the clock is an input. *)

Module Cache.

Record task_row := TaskRow {
  status : string;
  format : string;
  title : option string;
  output_path : option string;
  error_message : option string;
  created_at : Z;
  completed_at : option Z;
}.

Record cache_row := CacheRow {
  cache_id : nat;
  cache_output_path : string;
  cache_created_at : Z;
}.

Record database := Database {
  tasks : gmap string task_row;
  cache : gmap (string * string) cache_row;
  (** the [AUTOINCREMENT] counter of [cache.id] *)
  cache_seq : nat;
}.

Definition init_db : database := Database ∅ ∅ 0.

Definition get_cache_by_title (db : database) (title format : string)
    : option cache_row :=
  cache db !! (title, format).

(** [INSERT OR REPLACE]: a row with the same [(title, format)] is
    replaced.  Returns [cursor.lastrowid]. *)
Definition create_cache (db : database) (title format output_path : string)
    (now : Z) : database * nat :=
  let id := S (cache_seq db) in
  (Database (tasks db)
            (<[(title, format) := CacheRow id output_path now]> (cache db))
            id,
   id).

(** [INSERT]: a duplicate primary key raises. *)
Definition create_task (db : database) (task_id format : string) (now : Z)
    : result database :=
  match tasks db !! task_id with
  | Some _ => inl IntegrityError
  | None =>
      inr (Database
             (<[task_id := TaskRow "pending" format None None None now None]>
                (tasks db))
             (cache db) (cache_seq db))
  end.

Definition get_task (db : database) (task_id : string) : option task_row :=
  tasks db !! task_id.

(** [UPDATE ... WHERE id = ?]: no row, no change. *)
Definition update_task_status (db : database) (task_id status : string)
    (title output_path error_message : option string) (now : Z) : database :=
  let set row :=
    if bool_decide (status ∈ ["done"; "error"]) then
      TaskRow status (format row) title output_path error_message
              (created_at row) (Some now)
    else
      TaskRow status (format row) title (Cache.output_path row)
              (Cache.error_message row) (created_at row) (completed_at row) in
  Database (alter set task_id (tasks db)) (cache db) (cache_seq db).

(** Microseconds in a day; time stamps count microseconds. *)
Definition day : Z := 86400000000.

(** The value of [datetime('now', '-<days> days')] when the database
    clock reads [sql_now]: a negative [days] yields the modifier
    ["--n days"], which SQLite rejects, and the expression is [NULL]. *)
Definition threshold (days sql_now : Z) : option Z :=
  if (days <? 0)%Z then None else Some (sql_now - days * day)%Z.

(** [DELETE FROM tasks WHERE created_at < <threshold>]; a comparison
    with [NULL] selects no row.  Returns the new database and
    [cursor.rowcount]. *)
Definition delete_old_tasks (db : database) (days sql_now : Z)
    : database * nat :=
  match threshold days sql_now with
  | None => (db, 0)
  | Some t =>
      let kept := filter (λ kv, ¬ (created_at kv.2 < t)%Z) (tasks db) in
      (Database kept (cache db) (cache_seq db), size (tasks db) - size kept)
  end.

End Cache.

(** ** [app/models/schemas.py] *)

Inductive TaskStatus := PENDING | PROCESSING | DONE | ERROR.

Definition TaskStatus_value (s : TaskStatus) : string :=
  match s with
  | PENDING => "pending"
  | PROCESSING => "processing"
  | DONE => "done"
  | ERROR => "error"
  end.

Record ConvertResponse := {
  task_id : string;
  status : TaskStatus;
  message : string;
  cached : bool;
}.

(** [TaskStatus(value)]: the member with this value; [None] stands
    for the [ValueError] raised when there is none. *)
Definition TaskStatus_of (value : string) : option TaskStatus :=
  find (λ s, bool_decide (TaskStatus_value s = value))
       [PENDING; PROCESSING; DONE; ERROR].

Module TaskStatusResponse.

Record t := {
  task_id : string;
  status : TaskStatus;
  title : option string;
  error_message : option string;
  created_at : option Z;
  completed_at : option Z;
  markdown_ready : bool;
}.

End TaskStatusResponse.

(** ** [app/api/routes.py] *)

Record HTTPException := { status_code : nat; detail : string }.

Record UploadFile := { filename : option string; content : string }.

(** Where a background conversion stands: each constructor is the
    code between two [await]s of [_process_conversion]. *)
Inductive phase :=
| Queued
| Converting
| Converted (outcome : bool * option string * option string)
| CachingTitle (title : string)
| CachingHash (title : string).

Record job := {
  job_task : string;
  job_bytes : string;
  job_hash : string;
  job_phase : phase;
}.

Record state := {
  db : Cache.database;
  fs : Fs.volume;
  (** the conversions handed to [BackgroundTasks] and not yet finished *)
  jobs : list job;
}.

Section Routes.
Context {E : Env}.

(** ["/" + "/".join(parts)] *)
Definition str_path (p : Fs.path) : string :=
  match p with
  | [] => "/"
  | _ => foldr (λ seg acc, "/" +:+ seg +:+ acc) "" p
  end.

(** [title or "Untitled"] *)
Definition title_or_untitled (title : option string) : string :=
  match title with
  | Some t => if decide (t = "") then "Untitled" else t
  | None => "Untitled"
  end.

(** One awaited slice of [_process_conversion(task_id, pdf_bytes,
    content_hash)]; [None] when the coroutine has returned.  [fault] is
    the exception with which the awaited call of the slice raises, if
    it does (the database is locked, the executor is shut down): the
    call then has no effect, the [except] branch records the error and
    the coroutine returns. *)
Definition advance (now : Z) (fault : option exn) (j : job)
    (d : Cache.database) (v : Fs.volume)
    : Cache.database * Fs.volume * option job :=
  let at_phase p := Some {| job_task := job_task j; job_bytes := job_bytes j;
                            job_hash := job_hash j; job_phase := p |} in
  match fault with
  | Some e =>
      (Cache.update_task_status d (job_task j) "error" None None
         (Some (str_exn e)) now,
       v, None)
  | None =>
      match job_phase j with
      | Queued =>
          (Cache.update_task_status d (job_task j) "processing" None None None now,
           v, at_phase Converting)
      | Converting =>
          let '(v, outcome) :=
            convert_pdf_to_markdown v (job_task j) (job_bytes j) in
          (d, v, at_phase (Converted outcome))
      | Converted (success, title, error) =>
          if success then
            let title := title_or_untitled title in
            (Cache.update_task_status d (job_task j) "done" (Some title)
               (Some (str_path (get_task_dir (job_task j)))) None now,
             v, at_phase (CachingTitle title))
          else
            (Cache.update_task_status d (job_task j) "error" None None error now,
             v, None)
      | CachingTitle title =>
          ((Cache.create_cache d title "markdown" (job_task j) now).1,
           v, at_phase (CachingHash title))
      | CachingHash title =>
          ((Cache.create_cache d ("hash:" +:+ job_hash j) "markdown"
              (job_task j) now).1,
           v, None)
      end
  end.

(** [_process_conversion] run from its first statement to its return,
    with nothing interleaved and no awaited call raising. *)
Fixpoint run_job (fuel : nat) (now : Z) (j : job) (d : Cache.database)
    (v : Fs.volume) : Cache.database * Fs.volume :=
  match fuel with
  | O => (d, v)
  | S k =>
      match advance now None j d v with
      | (d, v, Some j) => run_job k now j d v
      | (d, v, None) => (d, v)
      end
  end.

Definition _process_conversion (now : Z) (task_id pdf_bytes content_hash : string)
    (d : Cache.database) (v : Fs.volume) : Cache.database * Fs.volume :=
  run_job 5 now
    {| job_task := task_id; job_bytes := pdf_bytes; job_hash := content_hash;
       job_phase := Queued |} d v.

Definition cache_hit (cached_task_id : string) : ConvertResponse :=
  {| task_id := cached_task_id; status := DONE;
     message := "Found cached conversion result"; cached := true |}.

(** The lookup [convert_pdf] makes for the title and again for the
    hash: the task named by the cache entry of [key], if its Markdown
    file is still there. *)
Definition cached_task (s : state) (key : string) : option string :=
  match Cache.get_cache_by_title (db s) key "markdown" with
  | Some cached =>
      let cached_task_id := Cache.cache_output_path cached in
      if task_has_markdown (fs s) cached_task_id
      then Some cached_task_id else None
  | None => None
  end.

(** A file that passes the two checks at the top of [convert_pdf]. *)
Definition accepted (file : UploadFile) : Prop :=
  Str.endswith ".pdf" (Str.lower (default "" (filename file))) = true
  ∧ content file ≠ "".

(** [POST /api/convert].  [uuid] is the value of [str(uuid.uuid4())]
    and [now] the clock, both read only on a cache miss. *)
Definition convert_pdf (s : state) (file : UploadFile) (uuid : string) (now : Z)
    : state * (HTTPException + ConvertResponse) :=
  let name := default "" (filename file) in
  if bool_decide (name = "") || negb (Str.endswith ".pdf" (Str.lower name)) then
    (s, inl {| status_code := 400; detail := "Only PDF files are accepted" |})
  else
    let pdf_bytes := content file in
    if decide (String.length pdf_bytes = 0) then
      (s, inl {| status_code := 400; detail := "Empty file" |})
    else
      match get_pdf_title pdf_bytes ≫= cached_task s with
      | Some cached_task_id => (s, inr (cache_hit cached_task_id))
      | None =>
          let content_hash := get_pdf_hash pdf_bytes in
          match cached_task s ("hash:" +:+ content_hash) with
          | Some cached_task_id => (s, inr (cache_hit cached_task_id))
          | None =>
              match Cache.create_task (db s) uuid "markdown" now with
              | inl _ =>
                  (s, inl {| status_code := 500;
                             detail := "Internal Server Error" |})
              | inr d =>
                  ({| db := d; fs := fs s;
                      jobs := jobs s ++
                        [{| job_task := uuid; job_bytes := pdf_bytes;
                            job_hash := content_hash; job_phase := Queued |}] |},
                   inr {| task_id := uuid; status := PENDING;
                          message :=
                            "Conversion started. Check status with /api/status/{task_id}";
                          cached := false |})
              end
          end
      end.

(** [GET /api/images/{task_id}/{filename}]: the file to serve and its
    media type, or 404.  Each of the two parameters is one segment of
    the URL path, so it holds no ["/"]; [".."] is a possible value. *)
Definition get_image (s : state) (task_id filename : string)
    : HTTPException + (Fs.path * string) :=
  match get_image_path (fs s) task_id filename with
  | None => inl {| status_code := 404; detail := "Image not found" |}
  | Some image_path =>
      let suffix := Str.lower (Fs.suffix image_path) in
      let media_types :=
        [(".png", "image/png"); (".jpg", "image/jpeg"); (".jpeg", "image/jpeg");
         (".gif", "image/gif"); (".webp", "image/webp")] in
      let media_type :=
        default "image/png" (snd <$> find (λ kv, bool_decide (kv.1 = suffix)) media_types) in
      inr (image_path, media_type)
  end.

End Routes.

(** ** [app/api/routes.py]: the handlers that read

    An exception that a handler does not catch is answered by the
    framework with status 500. *)

Definition internal_server_error : HTTPException :=
  {| status_code := 500; detail := "Internal Server Error" |}.

(** The double quote character. *)
Definition dquote : string := String (ascii_of_nat 34) "".

(** [f"{value}"] for an optional text: [None] is written ["None"]. *)
Definition format_optional (value : option string) : string :=
  default "None" value.

Module Api.
Section Handlers.
Context {E : Env}.

(** [GET /api/status/{task_id}] *)
Definition get_task_status (s : state) (task_id : string)
    : HTTPException + TaskStatusResponse.t :=
  match Cache.get_task (db s) task_id with
  | None => inl {| status_code := 404; detail := "Task not found" |}
  | Some task =>
      let markdown_ready := task_has_markdown (fs s) task_id in
      match TaskStatus_of (Cache.status task) with
      | None => inl internal_server_error
      | Some status =>
          inr {| TaskStatusResponse.task_id := task_id;
                 TaskStatusResponse.status := status;
                 TaskStatusResponse.title := Cache.title task;
                 TaskStatusResponse.error_message := Cache.error_message task;
                 TaskStatusResponse.created_at := Some (Cache.created_at task);
                 TaskStatusResponse.completed_at := Cache.completed_at task;
                 TaskStatusResponse.markdown_ready := markdown_ready |}
      end
  end.

(** [GET /api/markdown/{task_id}]: the text served as
    [text/markdown].  An empty text is falsy and answered like a
    missing file. *)
Definition get_markdown (s : state) (task_id : string) : HTTPException + string :=
  match Cache.get_task (db s) task_id with
  | None => inl {| status_code := 404; detail := "Task not found" |}
  | Some task =>
      if decide (Cache.status task ≠ "done") then
        inl {| status_code := 400; detail := "Conversion not completed" |}
      else
        match get_markdown (fs s) task_id with
        | inl _ => inl internal_server_error
        | inr None =>
            inl {| status_code := 404; detail := "Markdown file not found" |}
        | inr (Some md_content) =>
            if decide (md_content = "") then
              inl {| status_code := 404; detail := "Markdown file not found" |}
            else inr md_content
        end
  end.

(** [GET /api/download/{task_id}]: the archive and the value of the
    [Content-Disposition] header.  The row read from the registry has
    a [title] key whatever its value, so the default ["document"] of
    [task.get] is never used. *)
Definition download_markdown (s : state) (task_id : string)
    : HTTPException + (archive * string) :=
  match Cache.get_task (db s) task_id with
  | None => inl {| status_code := 404; detail := "Task not found" |}
  | Some task =>
      if negb (task_has_markdown (fs s) task_id) then
        inl {| status_code := 400; detail := "Markdown not available" |}
      else
        match create_markdown_zip (fs s) task_id with
        | inl _ => inl internal_server_error
        | inr None =>
            inl {| status_code := 500; detail := "Failed to create zip file" |}
        | inr (Some zip_buffer) =>
            let title := format_optional (Cache.title task) in
            let filename := title +:+ ".zip" in
            inr (zip_buffer,
                 "attachment; filename=" +:+ dquote +:+ filename +:+ dquote)
        end
  end.

End Handlers.
End Api.

(** ** [app/main.py] *)

Section Main.
Context {E : Env}.

(** [lifespan], up to its [yield]: [init_db] creates the tables that
    are not there ([tables] is [None] when the database file is new)
    and [ensure_storage_dir] the storage root.  The process starts with
    no conversion in flight. *)
Definition lifespan (tables : option Cache.database) (v : Fs.volume)
    : result state :=
  let d := default Cache.init_db tables in
  match ensure_storage_dir v with
  | inl e => inl e
  | inr v => inr {| db := d; fs := v; jobs := [] |}
  end.

(** [GET /view/{task_id}]: the page served. *)
Definition view_document (s : state) (task_id : string) : HTTPException + string :=
  match Cache.get_task (db s) task_id with
  | None => inl {| status_code := 404; detail := "Document not found" |}
  | Some task =>
      if decide (Cache.status task ≠ "done") then
        inl {| status_code := 400; detail := "Document conversion not completed" |}
      else if negb (task_has_markdown (fs s) task_id) then
        inl {| status_code := 404; detail := "Document not found" |}
      else inr "static/viewer.html"
  end.

End Main.

(** ** The service as a transition system

    A request handler runs to its response; a background conversion
    runs one awaited slice at a time, so that requests, other
    conversions and the maintenance operation [delete_old_tasks] may
    come between two slices. *)

Inductive event :=
| Submit (file : UploadFile) (uuid : string) (now : Z)
| Advance (task : string) (now : Z) (fault : option exn)
| Prune (days sql_now : Z).

Section System.
Context {E : Env}.

(** Advance the conversion of [task]; a finished one leaves the list. *)
Fixpoint advance_jobs (now : Z) (fault : option exn) (task : string)
    (js : list job) (d : Cache.database) (v : Fs.volume)
    : Cache.database * Fs.volume * list job :=
  match js with
  | [] => (d, v, [])
  | j :: rest =>
      if decide (job_task j = task) then
        let '(d, v, next) := advance now fault j d v in
        (d, v, option_list next ++ rest)
      else
        let '(d, v, rest) := advance_jobs now fault task rest d v in
        (d, v, j :: rest)
  end.

Definition step (s : state) (ev : event) : state :=
  match ev with
  | Submit file uuid now => (convert_pdf s file uuid now).1
  | Advance task now fault =>
      let '(d, v, js) := advance_jobs now fault task (jobs s) (db s) (fs s) in
      {| db := d; fs := v; jobs := js |}
  | Prune days sql_now =>
      {| db := (Cache.delete_old_tasks (db s) days sql_now).1;
         fs := fs s; jobs := jobs s |}
  end.

(** [uuid.uuid4()] does not return the id of a conversion in flight. *)
Definition enabled (s : state) (ev : event) : Prop :=
  match ev with
  | Submit _ uuid _ => uuid ∉ job_task <$> jobs s
  | _ => True
  end.

#[global] Instance enabled_dec s ev : Decision (enabled s ev).
Proof. destruct ev; simpl; apply _. Defined.

(** Every event of the list is enabled when its turn comes. *)
Fixpoint run_enabled (s : state) (evs : list event) : bool :=
  match evs with
  | [] => true
  | ev :: rest => bool_decide (enabled s ev) && run_enabled (step s ev) rest
  end.

(** An event at which an awaited call of a conversion raises. *)
Definition faulty (ev : event) : bool :=
  match ev with
  | Advance _ _ (Some _) => true
  | _ => false
  end.

Definition fault_free (evs : list event) : bool :=
  forallb (λ ev, negb (faulty ev)) evs.

(** The same, and the row of task [id] is there before and after every
    event: the task is not pruned along the run. *)
Fixpoint row_kept (id : string) (s : state) (evs : list event) : bool :=
  bool_decide (is_Some (Cache.tasks (db s) !! id))
  && match evs with
     | [] => true
     | ev :: rest => bool_decide (enabled s ev) && row_kept id (step s ev) rest
     end.

(** The four statuses and the fields that go with them. *)
Definition row_ok (r : Cache.task_row) : Prop :=
  Cache.status r ∈ ["pending"; "processing"; "done"; "error"]
  ∧ (is_Some (Cache.completed_at r) ↔ Cache.status r ∈ ["done"; "error"])
  ∧ (is_Some (Cache.title r) → Cache.status r = "done")
  ∧ (is_Some (Cache.output_path r) → Cache.status r = "done").

(** The service starts with no conversion in flight, on a registry
    whose rows are well formed (empty at the first start). *)
Definition initial (s : state) : Prop :=
  jobs s = [] ∧ ∀ id r, Cache.tasks (db s) !! id = Some r → row_ok r.

(** The status that goes with each point of a background conversion. *)
Definition phase_status (p : phase) (st : string) : Prop :=
  match p with
  | Queued => st = "pending"
  | Converting | Converted _ => st = "processing"
  | CachingTitle _ | CachingHash _ => st = "done"
  end.

(** What every reachable state satisfies: one conversion per task, well
    formed rows, and each conversion in step with the row of its task
    (if the row has not been pruned). *)
Definition invariant (s : state) : Prop :=
  NoDup (job_task <$> jobs s)
  ∧ (∀ id r, Cache.tasks (db s) !! id = Some r → row_ok r)
  ∧ (∀ j r, j ∈ jobs s → Cache.tasks (db s) !! job_task j = Some r →
            phase_status (job_phase j) (Cache.status r)).

Inductive reachable : state → Prop :=
| reachable_initial s : initial s → reachable s
| reachable_step s ev : reachable s → enabled s ev → reachable (step s ev).

(** The status transitions of the design. *)
Definition transition (a b : string) : Prop :=
  (a = "pending" ∧ b = "processing")
  ∨ (a = "processing" ∧ b = "done")
  ∨ (a = "processing" ∧ b = "error").

End System.

(** ** Progress of a conversion

    What is left of [_process_conversion] at each of its awaits, counted
    in slices, and what a run holds for one task. *)

Definition slices_left (p : phase) : nat :=
  match p with
  | Queued => 5
  | Converting => 4
  | Converted _ => 3
  | CachingTitle _ => 2
  | CachingHash _ => 1
  end.

(** The slices left for the conversion of task [id], none when it is
    not in flight. *)
Fixpoint slices_to_go (id : string) (js : list job) : nat :=
  match js with
  | [] => 0
  | j :: rest =>
      if decide (job_task j = id) then slices_left (job_phase j)
      else slices_to_go id rest
  end.

Definition in_flight (s : state) (id : string) : bool :=
  bool_decide (id ∈ job_task <$> jobs s).

(** A submission of the run is given the id [id]. *)
Definition submits (id : string) (evs : list event) : bool :=
  existsb (λ ev, match ev with
                 | Submit _ uuid _ => bool_decide (uuid = id)
                 | _ => false
                 end) evs.


(** ** A small deployment used to run the definitions

    Documents are written ["T:<title>|<body>"] or just ["<body>"]; the
    engine names a document by its title, fails on a body starting with
    ["corrupt"], and writes a Markdown text with a link and two images,
    of which it stores the first. *)

Module Demo.

Definition title_of (b : string) : option string :=
  if Str.startswith "T:" b
  then Some (default "" (head (Str.split "|" (Str.drop 2 b))))
  else None.

Definition body_of (b : string) : string :=
  List.last (Str.split "|" b) "".

Definition save (d : string) (md_path : Fs.path) (v : Fs.volume)
    : Fs.volume * option exn :=
  let artifacts := removelast md_path ++ ["output_artifacts"] in
  match Fs.mkdir_parents v artifacts with
  | inl e => (v, Some e)
  | inr v =>
      match Fs.write_text v (artifacts ++ ["image_0.png"]) "PNG" with
      | inl e => (v, Some e)
      | inr v =>
          let text := "# " +:+ body_of d +:+ " [docs](https://example.org/a) ![Image]("
                      +:+ str_path (artifacts ++ ["image_0.png"])
                      +:+ ") and ![Chart]("
                      +:+ str_path (artifacts ++ ["image_1.png"]) +:+ ")" in
          match Fs.write_text v md_path text with
          | inl e => (v, Some e)
          | inr v => (v, None)
          end
      end
  end.

#[local] Instance env : Env := {|
  STORAGE_DIR := ["srv"; "storage"; "output"];
  pypdf_title b := inr (title_of b);
  doc := string;
  docling_convert b :=
    if Str.startswith "corrupt" (body_of b) then inl (ExternalError "corrupt")
    else inr b;
  doc_name d := default "" (title_of d);
  save_as_markdown := save;
  str_exn e := match e with ExternalError m => m | _ => "OSError" end;
|}.

Definition start : state :=
  {| db := Cache.init_db; fs := ∅; jobs := [] |}.

Definition pdf (name body : string) : UploadFile :=
  {| filename := Some name; content := body |}.

Definition first_report : UploadFile := pdf "a.pdf" "T:Report|first".

(** The first report has been submitted as task ["A"]. *)
Definition submitted : state := step start (Submit first_report "A" 10).

(** The first report has been submitted and converted; its task is
    still processing. *)
Definition converted : state :=
  foldl step start
    [ Submit first_report "A" 10; Advance "A" 20 None; Advance "A" 21 None ]%Z.

(** The first report has been submitted and its conversion has run to
    its end. *)
Definition first_done : state :=
  foldl step submitted
    [ Advance "A" 20 None; Advance "A" 20 None; Advance "A" 20 None;
      Advance "A" 20 None; Advance "A" 20 None ]%Z.

(** Two documents with the same title are submitted one after the
    other, before either conversion has started; then the first
    conversion runs to its end, then the second. *)
Definition two_reports_run : list event :=
  [ Submit (pdf "a.pdf" "T:Report|first") "A" 10;
    Submit (pdf "b.pdf" "T:Report|second") "B" 11;
    Advance "A" 20 None; Advance "A" 21 None; Advance "A" 22 None;
    Advance "A" 23 None; Advance "A" 24 None;
    Advance "B" 30 None; Advance "B" 31 None; Advance "B" 32 None;
    Advance "B" 33 None; Advance "B" 34 None ]%Z.

Definition two_reports : state := foldl step start two_reports_run.

(** The references of the text the engine writes for task ["A"]. *)
Definition report_refs : list artifact_ref :=
  [ ("# hello [docs](https://example.org/a) ![Image",
     "/srv/storage/output/A", "image_0.png");
    (" and ![Chart", "/srv/storage/output/A", "image_1.png") ].


(** The volume after the conversion of a document as task ["A"], with
    a text file added next to the picture. *)
Definition volume_with_notes : Fs.volume :=
  <[ ["srv"; "storage"; "output"; "A"; "output_artifacts"; "notes.txt"]
     := Fs.File "not a picture" ]>
    (convert_pdf_to_markdown ∅ "A" "T:Report|hello").1.

(** The volume after the conversion of the report as task ["A"]. *)
Definition report_volume : Fs.volume :=
  (convert_pdf_to_markdown ∅ "A" "T:Report|hello").1.

(** The directory of task ["A"] and nothing in it. *)
Definition empty_task : Fs.volume :=
  match create_task_dir ∅ "A" with
  | inr (v, _) => v
  | inl _ => ∅
  end.

(** The same with a Markdown text that holds no image. *)
Definition noted_task : Fs.volume :=
  <[ ["srv"; "storage"; "output"; "A"; "output.md"] := Fs.File "# notes" ]>
    empty_task.

(** A document that the engine names like the key of a content hash
    (the hash of ["abc"]), converted as task ["A"]. *)
Definition hash_titled : state :=
  let bytes := "T:hash:ba7816bf8f01cfea|x" in
  let end_ := _process_conversion 20 "A" bytes (get_pdf_hash bytes)
                Cache.init_db ∅ in
  {| db := end_.1; fs := end_.2; jobs := [] |}.


(** The volume with the notes and with a photograph among the assets. *)
Definition volume_with_scan : Fs.volume :=
  <[ ["srv"; "storage"; "output"; "A"; "output_artifacts"; "scan.JPG"]
     := Fs.File "JPG" ]>
    volume_with_notes.


End Demo.

(** * Properties *)

(** ** Strings *)

Module StrFacts.
Import Str.

Lemma app_cons a s t : String a s +:+ t = String a (s +:+ t).
Proof. reflexivity. Qed.

Lemma app_nil_r s : s +:+ "" = s.
Proof. induction s as [|a s IH]; [done|]. simpl. by rewrite IH. Qed.

Lemma app_assoc s t u : (s +:+ t) +:+ u = s +:+ t +:+ u.
Proof. induction s as [|a s IH]; [done|]. simpl. by rewrite IH. Qed.

Lemma length_app s t :
  String.length (s +:+ t) = String.length s + String.length t.
Proof. induction s as [|a s IH]; [done|]. simpl. by rewrite IH. Qed.

Lemma drop_0 s : drop 0 s = s.
Proof. by destruct s. Qed.

Lemma drop_app_length s t : drop (String.length s) (s +:+ t) = t.
Proof. induction s as [|a s IH]; [apply drop_0|]. done. Qed.

Lemma take_app_length s t : take (String.length s) (s +:+ t) = s.
Proof.
  induction s as [|a s IH]; [by destruct t|]. simpl. by rewrite IH.
Qed.

Lemma drop_app_le k s t :
  k ≤ String.length s → drop k (s +:+ t) = drop k s +:+ t.
Proof.
  revert s. induction k as [|k IH]; intros s Hk.
  - by rewrite !drop_0.
  - destruct s as [|a s]; simpl in Hk; [lia|]. simpl. apply IH. lia.
Qed.

Lemma length_drop k s : String.length (drop k s) = String.length s - k.
Proof. revert s. induction k as [|k IH]; intros [|a s]; simpl; auto. Qed.

Lemma mem_app c s t : mem c (s +:+ t) = mem c s || mem c t.
Proof.
  induction s as [|a s IH]; [done|]. simpl. by destruct (Ascii.eqb a c).
Qed.

Lemma mem_drop c k s : mem c s = false → mem c (drop k s) = false.
Proof.
  revert s. induction k as [|k IH]; intros [|a s]; simpl; try done.
  destruct (Ascii.eqb a c); [done|]. apply IH.
Qed.

Lemma startswith_app p s : startswith p (p +:+ s) = true.
Proof.
  induction p as [|a p IH]; [done|]. simpl. by rewrite Ascii.eqb_refl, IH.
Qed.

Lemma startswith_inv p s :
  startswith p s = true → s = p +:+ drop (String.length p) s.
Proof.
  revert s. induction p as [|a p IH]; intros s Hs.
  - by rewrite drop_0.
  - destruct s as [|b s]; [done|]. simpl in Hs.
    apply andb_true_iff in Hs as [Hab Hs]. apply Ascii.eqb_eq in Hab as ->.
    simpl. f_equal. by apply IH.
Qed.

(** [s.split(sep)]: either [s] has no separator and is the only
    piece, or the last piece is what follows the last separator. *)
Lemma split_spec sep s :
  (mem sep s = false ∧ split sep s = [s])
  ∨ (∃ front l init,
       s = front +:+ String sep l ∧ mem sep l = false
       ∧ split sep s = init ++ [l] ∧ init ≠ []).
Proof.
  induction s as [|a s IH]; [by left|].
  simpl. destruct (Ascii.eqb a sep) eqn:Ha.
  - apply Ascii.eqb_eq in Ha as ->. right.
    destruct IH as [[Hm ->]|(front & l & init & -> & Hm & -> & Hi)].
    + by exists "", s, [""].
    + by exists (String sep front), l, ("" :: init).
  - destruct IH as [[Hm ->]|(front & l & init & -> & Hm & -> & Hi)].
    + by left.
    + right. destruct init as [|h init]; [done|].
      by exists (String a front), l, (String a h :: init).
Qed.

Lemma last_split_no_sep sep s : mem sep (List.last (split sep s) "") = false.
Proof.
  destruct (split_spec sep s) as [[Hm ->]|(front & l & init & _ & Hm & -> & _)].
  - done.
  - by rewrite last_last.
Qed.

Lemma last_split_after sep front l :
  mem sep l = false → List.last (split sep (front +:+ String sep l)) "" = l.
Proof.
  intros Hl.
  destruct (split_spec sep (front +:+ String sep l))
    as [[Hm _]|(front' & l' & init & Heq & Hm & -> & _)].
  - rewrite mem_app in Hm. simpl in Hm. rewrite Ascii.eqb_refl in Hm.
    by rewrite orb_true_r in Hm.
  - rewrite last_last. clear init.
    revert front' Heq. induction front as [|a front IH]; intros front' Heq.
    + destruct front' as [|b front']; simpl in Heq.
      * by injection Heq.
      * injection Heq as -> ->. rewrite mem_app in Hl. simpl in Hl.
        rewrite Ascii.eqb_refl in Hl. by rewrite orb_true_r in Hl.
    + destruct front' as [|b front']; simpl in Heq.
      * injection Heq as -> <-. rewrite mem_app in Hm. simpl in Hm.
        rewrite Ascii.eqb_refl in Hm. by rewrite orb_true_r in Hm.
      * injection Heq as -> Heq. by apply (IH front').
Qed.

End StrFacts.

(** ** The matcher *)

Module ReFacts.
Import Str StrFacts Re.

Lemma run_app c s t : mem c s = false → run c (s +:+ String c t) = String.length s.
Proof.
  induction s as [|a s IH]; simpl.
  - by rewrite Ascii.eqb_refl.
  - destruct (Ascii.eqb a c); [done|]. intros Hs. by rewrite IH.
Qed.

Lemma try_down_unique {X} (f : nat → option X) min n x :
  (∃ k, min ≤ k ≤ n ∧ f k = Some x) →
  (∀ k y, k ≤ n → f k = Some y → y = x) →
  try_down f min n = Some x.
Proof.
  induction n as [|n IH]; intros (k & Hk & Hfk) Huniq; simpl.
  - assert (k = 0) as -> by lia. assert (min = 0) as -> by lia.
    simpl. by rewrite Hfk.
  - destruct (S n <? min) eqn:Hlt; [apply Nat.ltb_lt in Hlt; lia|].
    destruct (f (S n)) as [y|] eqn:Hf.
    + f_equal. by apply (Huniq (S n)).
    + apply IH.
      * exists k. split; [|done].
        destruct (decide (k = S n)) as [->|]; [congruence|lia].
      * intros j y Hj. apply Huniq. lia.
Qed.


Lemma match_here_lits l p s opened caps :
  match_here (lits l ++ p) s opened caps =
  if startswith l s then match_here p (drop (String.length l) s) opened caps
  else None.
Proof.
  revert s. induction l as [|a l IH]; intros s; simpl.
  - done.
  - destruct s as [|b s]; [done|].
    rewrite (Ascii.eqb_sym a b). destruct (Ascii.eqb b a); [apply IH|done].
Qed.

(** A greedy [[^c]+] that closes a group and must be followed by [c]
    takes the whole run up to the first [c]. *)
Lemma match_here_closing_run c u t s0 caps :
  mem c u = false →
  match_here [RepNot c 1; GClose; Lit c] (u +:+ String c t) (Some s0) caps =
  if decide (u = "") then None
  else Some (caps ++ [take (String.length s0 - S (String.length t)) s0], t).
Proof.
  intros Hu. simpl. rewrite run_app by done.
  destruct (decide (u = "")) as [->|Hne]; [done|].
  apply try_down_unique.
  - exists (String.length u). split; [destruct u; simpl; [done|lia]|].
    rewrite drop_app_length. simpl. by rewrite Ascii.eqb_refl.
  - intros k y Hk. rewrite drop_app_le by done.
    destruct (decide (k = String.length u)) as [->|Hlt].
    + replace (drop (String.length u) u) with "".
      * simpl. rewrite Ascii.eqb_refl. congruence.
      * clear. induction u; [done|]. done.
    + destruct (drop k u) as [|a v] eqn:Hd.
      * assert (String.length (drop k u) = 0) as Hl by (by rewrite Hd).
        rewrite length_drop in Hl. lia.
      * simpl. pose proof (mem_drop c k u Hu) as Hm. rewrite Hd in Hm.
        simpl in Hm. destruct (Ascii.eqb a c); [done|]. done.
Qed.

Lemma sub_from_skip p repl m rest :
  sub_from p repl (String.length m) (m +:+ rest) = sub_from p repl 0 rest.
Proof.
  induction m as [|a m IH]; simpl; [|done].
  destruct rest; [|done]. simpl. done.
Qed.

(** A non-empty match at the head of the text is replaced, and the
    substitution goes on after it. *)
Lemma sub_match p repl m rest caps :
  m ≠ "" → match_at p (m +:+ rest) = Some (caps, rest) →
  sub p repl (m +:+ rest) = repl caps +:+ sub p repl rest.
Proof.
  intros Hm Hmatch. unfold sub. destruct m as [|a m]; [done|].
  simpl. simpl in Hmatch. rewrite Hmatch.
  replace (S (String.length (m +:+ rest)) - String.length rest)
    with (S (String.length m)) by (rewrite length_app; lia).
  by rewrite sub_from_skip.
Qed.

(** Text in which no match starts is copied. *)
Lemma sub_unmatched p repl pre x :
  unmatched p pre x = true → sub p repl (pre +:+ x) = pre +:+ sub p repl x.
Proof.
  unfold sub. induction pre as [|a pre IH]; [done|].
  simpl. destruct (match_at p (String a (pre +:+ x))); [done|].
  intros Hu. by rewrite IH.
Qed.

End ReFacts.

(** ** The storage volume *)

Module FsFacts.
Import Fs.

Lemma walk_ext (v1 v2 : volume) loc segs :
  (∀ l, node_at v1 l = Some Dir ↔ node_at v2 l = Some Dir) →
  walk v1 loc segs = walk v2 loc segs.
Proof.
  intros Hdir. revert loc. induction segs as [|seg segs IH]; intros loc; [done|].
  simpl. pose proof (Hdir loc) as Hl.
  destruct (node_at v1 loc) as [[c1|]|], (node_at v2 loc) as [[c2|]|];
    try done; try (by apply IH); intuition discriminate.
Qed.

Lemma walk_app (v : volume) loc a b :
  walk v loc (a ++ b) = walk v loc a ≫= λ l, walk v l b.
Proof.
  revert loc. induction a as [|seg a IH]; intros loc; [done|].
  simpl. by destruct (node_at v loc) as [[]|].
Qed.

Lemma node_at_insert_file (v : volume) loc content l :
  node_at v loc ≠ Some Dir →
  node_at (<[loc := File content]> v) l = Some Dir ↔ node_at v l = Some Dir.
Proof.
  intros Hloc. destruct l as [|x l]; [done|]. simpl.
  destruct (decide (loc = x :: l)) as [->|Hne].
  - rewrite lookup_insert_eq. simpl in Hloc. split; [done|]. by intros ?.
  - by rewrite lookup_insert_ne.
Qed.

Lemma write_text_inv (v v' : volume) p content :
  write_text v p content = inr v' →
  ∃ parent,
    p ≠ [] ∧ walk v [] (removelast p) = Some parent
    ∧ node_at v parent = Some Dir
    ∧ node_at v (enter parent (List.last p "")) ≠ Some Dir
    ∧ v' = <[enter parent (List.last p "") := File content]> v.
Proof.
  unfold write_text. destruct p as [|x q]; [done|].
  assert (Hp : x :: q ≠ []) by done.
  revert Hp. generalize (x :: q). clear x q. intros p Hp.
  unfold stat.
  destruct (walk v [] (removelast p)) as [parent|] eqn:Hwalk; [|done].
  simpl. destruct (node_at v parent) as [[c|]|] eqn:Hparent; try done.
  simpl. intros Hw. exists parent.
  destruct (node_at v (enter parent (List.last p ""))) as [[c|]|] eqn:Hloc;
    try done; by injection Hw as <-.
Qed.

(** A file just written reads back. *)
Lemma read_write (v v' : volume) p content :
  write_text v p content = inr v' → read_text v' p = inr content.
Proof.
  intros (parent & Hp & Hwalk & Hparent & Hloc & ->)%write_text_inv.
  set (loc := enter parent (List.last p "")) in *.
  unfold read_text, stat.
  rewrite (app_removelast_last "" Hp) at 1.
  rewrite walk_app.
  rewrite (walk_ext _ v) by (intros l; by apply node_at_insert_file).
  rewrite Hwalk. simpl.
  assert (node_at (<[loc:=File content]> v) parent = Some Dir) as ->
    by (by apply node_at_insert_file).
  simpl. fold loc.
  assert (node_at (<[loc:=File content]> v) loc = Some (File content)) as ->;
    [|done].
  destruct loc as [|y loc'] eqn:E; [done|]. simpl. by rewrite lookup_insert_eq.
Qed.

(** *** Suffixes *)

Section Suffixes.
Import Str StrFacts.

Lemma mem_at c front l : mem c (front +:+ String c l) = true.
Proof.
  rewrite mem_app. cbn [mem]. by rewrite Ascii.eqb_refl, orb_true_r.
Qed.

Lemma rfind_dot_none n : mem "." n = false → Fs.rfind_dot n = None.
Proof.
  intros Hn. unfold Fs.rfind_dot.
  destruct (split_spec "." n) as [[_ ->]|(front & l & init & -> & _)]; [done|].
  by rewrite mem_at in Hn.
Qed.

Lemma rfind_dot_last front l :
  mem "." l = false →
  Fs.rfind_dot (front +:+ String "." l) = Some (String.length front).
Proof.
  intros Hl. unfold Fs.rfind_dot.
  pose proof (last_split_after "." front l Hl) as Hlast.
  destruct (split_spec "." (front +:+ String "." l))
    as [[Hm _]|(front' & l' & init & _ & _ & Hs & Hi)].
  { by rewrite mem_at in Hm. }
  rewrite Hs in *. rewrite last_last in Hlast. subst l'.
  destruct init as [|x init]; [done|].
  change ((x :: init) ++ [l]) with (x :: (init ++ [l])).
  destruct (init ++ [l]) as [|y q] eqn:Hq; [by destruct init|].
  change (List.last (x :: y :: q) "") with (List.last (y :: q) "").
  rewrite <- Hq, last_last. f_equal.
  rewrite length_app. simpl. lia.
Qed.

(** [p.suffix] by the shape of the name: a name [stem.ext] with a stem
    and an extension that holds no further dot has the suffix [.ext];
    a name without a dot, a name whose only dot comes first and a name
    that ends in a dot have none. *)
Lemma suffix_extension p stem ext :
  stem ≠ "" → ext ≠ "" → mem "." ext = false →
  Fs.suffix (p ++ [stem +:+ "." +:+ ext]) = "." +:+ ext.
Proof.
  intros Hstem Hext Hdot. unfold Fs.suffix, Fs.name. rewrite last_last.
  cbv zeta. change (stem +:+ "." +:+ ext) with (stem +:+ String "." ext).
  rewrite rfind_dot_last by done. rewrite length_app. simpl.
  assert ((0 <? String.length stem) = true) as ->.
  { apply Nat.ltb_lt. destruct stem; [done|]. simpl. lia. }
  assert ((String.length stem <? String.length stem + S (String.length ext) - 1)
          = true) as ->.
  { apply Nat.ltb_lt. destruct ext; [done|]. simpl. lia. }
  simpl. apply drop_app_length.
Qed.

Lemma suffix_without p name :
  mem "." name = false
  ∨ (∃ rest, name = "." +:+ rest ∧ mem "." rest = false)
  ∨ (∃ front, name = front +:+ ".") →
  Fs.suffix (p ++ [name]) = "".
Proof.
  unfold Fs.suffix, Fs.name. rewrite last_last. cbv zeta.
  intros [Hn|[(rest & -> & Hrest)|(front & ->)]].
  - by rewrite rfind_dot_none.
  - change ("." +:+ rest) with ("" +:+ String "." rest).
    by rewrite rfind_dot_last.
  - change (front +:+ ".") with (front +:+ String "." "").
    rewrite rfind_dot_last by done. rewrite length_app. simpl.
    replace (String.length front + 1 - 1) with (String.length front) by lia.
    by rewrite Nat.ltb_irrefl, andb_false_r.
Qed.


End Suffixes.

End FsFacts.

(** ** Rewriting the engine's image paths (C2) *)

Section ArtifactReferences.
Context {E : Env}.
Import Str StrFacts Re ReFacts.

Lemma startswith_before c l v t :
  mem c l = false → startswith l (v +:+ String c t) = true →
  String.length l ≤ String.length v.
Proof.
  revert v. induction l as [|a l IH]; intros v Hl Hs; simpl; [lia|].
  simpl in Hl. destruct (Ascii.eqb a c) eqn:Hac; [done|].
  destruct v as [|b v]; simpl in Hs.
  - rewrite Hac in Hs. done.
  - apply andb_true_iff in Hs as [_ Hs]. simpl. specialize (IH v Hl Hs). lia.
Qed.

(** The pattern matches a reference into the artifact directory as a
    whole: the group is everything between the parentheses. *)
Lemma match_artifact_ref dir name post :
  dir ≠ "" → name ≠ "" → mem ")" dir = false → mem ")" name = false →
  match_at artifact_ref_pattern
    ("](" +:+ (dir +:+ "/output_artifacts/" +:+ name) +:+ String ")" post)
  = Some ([dir +:+ "/output_artifacts/" +:+ name], post).
Proof.
  intros Hdir Hname Hd Hn.
  set (R := dir +:+ "/output_artifacts/" +:+ name).
  assert (HR : mem ")" R = false).
  { unfold R. rewrite !mem_app, Hd, Hn. done. }
  unfold match_at, artifact_ref_pattern.
  rewrite match_here_lits, startswith_app, drop_app_length.
  set (s0 := R +:+ String ")" post).
  change (try_down
            (λ k, match_here (lits "/output_artifacts/"
                              ++ [RepNot ")" 1; GClose; Lit ")"])
                    (drop k s0) (Some s0) [])
            1 (run ")" s0)
          = Some ([R], post)).
  assert (Htake : take (String.length s0 - S (String.length post)) s0 = R).
  { unfold s0. rewrite length_app. simpl.
    replace (String.length R + S (String.length post) - S (String.length post))
      with (String.length R) by lia.
    apply take_app_length. }
  assert (Hdrop : ∀ k, k ≤ String.length R →
                       drop k s0 = drop k R +:+ String ")" post).
  { intros k Hk. unfold s0. by apply drop_app_le. }
  assert (Hfirst : drop (String.length dir) R = "/output_artifacts/" +:+ name).
  { unfold R. apply drop_app_length. }
  assert (Hlen : 1 ≤ String.length dir ≤ String.length R).
  { unfold R. rewrite length_app. destruct dir; [done|]. simpl. lia. }
  replace (run ")" s0) with (String.length R)
    by (unfold s0; by rewrite run_app).
  apply try_down_unique.
  - exists (String.length dir). split; [done|].
    rewrite Hdrop, Hfirst by lia.
    rewrite app_assoc, match_here_lits, startswith_app, drop_app_length.
    rewrite match_here_closing_run by done.
    destruct (decide (name = "")); [done|]. by rewrite Htake.
  - intros k y Hk. rewrite match_here_lits, Hdrop by done.
    destruct (startswith _ _) eqn:Hs; [|done].
    apply startswith_before in Hs as Hle; [|done].
    rewrite drop_app_le by done.
    rewrite match_here_closing_run by (by do 2 apply mem_drop).
    destruct (decide _); [done|]. rewrite Htake. by intros [= <-].
Qed.

(** The final segment of a reference is the final segment of the part
    after the artifact directory. *)
Lemma last_segment_of_reference dir name :
  List.last (split "/" (dir +:+ "/output_artifacts/" +:+ name)) ""
  = List.last (split "/" name) "".
Proof.
  destruct (split_spec "/" name) as [[Hm Hs]|(front & l & init & Hn & Hm & Hs & _)].
  - rewrite Hs. change (List.last [name] "") with name.
    etrans; [|exact (last_split_after "/" (dir +:+ "/output_artifacts") name Hm)].
    by rewrite app_assoc.
  - rewrite Hs, last_last.
    etrans;
      [|exact (last_split_after "/" (dir +:+ "/output_artifacts/" +:+ front) l Hm)].
    by rewrite Hn, !app_assoc.
Qed.

Lemma filename_of_reference task_id dir name :
  replace_image_path task_id [dir +:+ "/output_artifacts/" +:+ name]
  = "](/api/images/" +:+ task_id +:+ "/"
    +:+ List.last (split "/" name) "" +:+ ")".
Proof.
  unfold replace_image_path.
  change (nth 0 [dir +:+ "/output_artifacts/" +:+ name] "")
    with (dir +:+ "/output_artifacts/" +:+ name).
  cbv zeta. by rewrite last_segment_of_reference.
Qed.

Lemma rewrite_reference task_id pre dir name post :
  let ref := "](" +:+ (dir +:+ "/output_artifacts/" +:+ name) +:+ String ")" post in
  unmatched artifact_ref_pattern pre ref = true →
  dir ≠ "" → name ≠ "" → mem ")" dir = false → mem ")" name = false →
  rewrite_image_paths task_id (pre +:+ ref)
  = pre +:+ ("](/api/images/" +:+ task_id +:+ "/"
             +:+ List.last (split "/" name) "" +:+ ")")
    +:+ rewrite_image_paths task_id post.
Proof.
  intros ref Hpre Hdir Hname Hd Hn. unfold rewrite_image_paths.
  rewrite sub_unmatched by done. f_equal.
  rewrite <- (filename_of_reference task_id dir name).
  pose proof (match_artifact_ref dir name post Hdir Hname Hd Hn) as Hm.
  replace ref with
    (("](" +:+ (dir +:+ "/output_artifacts/" +:+ name) +:+ ")") +:+ post).
  - apply sub_match; [done|].
    rewrite <- Hm. f_equal. unfold ref. by rewrite !app_assoc.
  - unfold ref. by rewrite !app_assoc.
Qed.

Lemma unmatched_without_opening pre x :
  contains "](" pre = false → startswith "(" x = false →
  unmatched artifact_ref_pattern pre x = true.
Proof.
  intros Hpre Hx. induction pre as [|a pre IH]; [done|].
  simpl in Hpre. apply orb_false_iff in Hpre as [Hhead Hpre].
  change (match match_at artifact_ref_pattern (String a pre +:+ x) with
          | None => unmatched artifact_ref_pattern pre x
          | Some _ => false
          end = true).
  unfold match_at, artifact_ref_pattern at 1. rewrite match_here_lits.
  assert (startswith "](" (String a pre +:+ x) = false) as ->; [|by apply IH].
  simpl. destruct (Ascii.eqb "]" a); [|done]. simpl.
  destruct pre as [|b pre]; simpl.
  - destruct x as [|c x]; [done|]. simpl in Hx.
    by destruct (Ascii.eqb "(" c).
  - simpl in Hhead. destruct (Ascii.eqb "]" a) in Hhead; [|done].
    by destruct (Ascii.eqb "(" b).
Qed.

Lemma sub_without_match p repl tail :
  unmatched p tail "" = true → match_at p "" = None → Re.sub p repl tail = tail.
Proof.
  intros Htail Hempty. rewrite <- (app_nil_r tail) at 1.
  rewrite sub_unmatched by done. unfold Re.sub. simpl. rewrite Hempty.
  by rewrite app_nil_r.
Qed.

(** Every reference of a text cut at its references is rewritten. *)
Lemma rewrite_refs task_id refs tail :
  refs_leftmost refs tail →
  rewrite_image_paths task_id (refs_text refs tail) = refs_served task_id refs tail.
Proof.
  induction refs as [|[[pre dir] name] rest IH];
    cbn [refs_leftmost refs_text refs_served].
  - intros Htail. by apply sub_without_match.
  - unfold ref_filename, ref_target. cbn [fst snd].
    intros (Hpre & Hdir & Hname & Hd & Hn & Hrest).
    rewrite (rewrite_reference task_id pre dir name (refs_text rest tail)) by done.
    rewrite IH by done. rewrite last_segment_of_reference. by rewrite !app_assoc.
Qed.

(** The file name of a reference is its final path segment: it has no
    slash and the reference ends with a slash followed by it. *)
Lemma ref_filename_final r :
  mem "/" (ref_filename r) = false
  ∧ ∃ front, ref_target r = front +:+ String "/" (ref_filename r).
Proof.
  unfold ref_filename. split; [apply last_split_no_sep|].
  destruct (split_spec "/" (ref_target r))
    as [[Hm _]|(front & l & init & Heq & _ & -> & _)].
  - unfold ref_target in Hm. rewrite !mem_app in Hm. simpl in Hm.
    by rewrite orb_true_r in Hm.
  - exists front. by rewrite last_last.
Qed.

(** C2, amended: the text stored by a successful conversion is the
    engine's text in which every reference into the engine's
    [output_artifacts] directory reads
    [](/api/images/{task_id}/{filename})], the file name being the final
    path segment of the reference.  The references are those matched by
    the pattern of the program from left to right. *)
Theorem artifact_references_rewritten
    fs task_id pdf_bytes fs' title err refs tail :
  convert_pdf_to_markdown fs task_id pdf_bytes = (fs', (true, title, err)) →
  saved_markdown fs task_id pdf_bytes = Some (refs_text refs tail) →
  refs_leftmost refs tail →
  Fs.read_text fs' (Fs.join (get_task_dir task_id) "output.md")
  = inr (refs_served task_id refs tail)
  ∧ ∀ r, r ∈ refs →
         mem "/" (ref_filename r) = false
         ∧ ∃ front, ref_target r = front +:+ String "/" (ref_filename r).
Proof.
  intros Hconv Hsaved Hrefs. split; [|intros r _; apply ref_filename_final].
  rewrite <- (rewrite_refs task_id refs tail) by done.
  unfold convert_pdf_to_markdown in Hconv.
  unfold saved_markdown in Hsaved.
  destruct (create_task_dir fs task_id) as [e|[v1 task_dir]] eqn:Hdir1; [done|].
  assert (task_dir = get_task_dir task_id) as Htd.
  { unfold create_task_dir in Hdir1.
    destruct (Fs.mkdir_parents _ _); [done|]. by injection Hdir1 as _ <-. }
  destruct (docling_convert pdf_bytes) as [e|document]; [done|].
  destruct (save_as_markdown _ _ _) as [v2 [e|]]; [done|].
  destruct (Fs.read_text v2 _) as [e|md_content]; [done|].
  injection Hsaved as ->.
  destruct (Fs.write_text _ _ _) as [e|v3] eqn:Hw; [done|].
  injection Hconv as <- _ _. rewrite <- Htd.
  by apply FsFacts.read_write in Hw.
Qed.

End ArtifactReferences.

Lemma artifact_references_rewritten_witness :
  Fs.read_text (convert_pdf_to_markdown (E:=Demo.env) ∅ "A" "T:Report|hello").1
    (Fs.join (get_task_dir (E:=Demo.env) "A") "output.md")
  = inr (refs_served "A" Demo.report_refs "")
  ∧ ∀ r, r ∈ Demo.report_refs →
         Str.mem "/" (ref_filename r) = false
         ∧ ∃ front, ref_target r = front +:+ String "/" (ref_filename r).
Proof.
  apply (artifact_references_rewritten (E:=Demo.env)
           ∅ "A" "T:Report|hello" _ (Some "Report") None Demo.report_refs "").
  - reflexivity.
  - reflexivity.
  - repeat split; by vm_compute.
Defined.

(** C2 as stated fails: the conversion of the demonstration document
    succeeds and stores its references in the form
    [/api/images/{task_id}/{filename}], not [/assets/{task_id}/{filename}]. *)
Lemma assets_form_not_produced :
  let out := convert_pdf_to_markdown (E:=Demo.env) ∅ "A" "T:Report|hello" in
  out.2 = (true, Some "Report", None)
  ∧ saved_markdown (E:=Demo.env) ∅ "A" "T:Report|hello"
    = Some ("# hello [docs](https://example.org/a) "
            +:+ "![Image](/srv/storage/output/A/output_artifacts/image_0.png)"
            +:+ " and ![Chart](/srv/storage/output/A/output_artifacts/image_1.png)")
  ∧ Fs.read_text out.1 (Fs.join (get_task_dir (E:=Demo.env) "A") "output.md")
    = inr ("# hello [docs](https://example.org/a) "
           +:+ "![Image](/api/images/A/image_0.png)"
           +:+ " and ![Chart](/api/images/A/image_1.png)")
  ∧ Fs.read_text out.1 (Fs.join (get_task_dir (E:=Demo.env) "A") "output.md")
    ≠ inr ("# hello [docs](https://example.org/a) "
           +:+ "![Image](/assets/A/image_0.png)"
           +:+ " and ![Chart](/assets/A/image_1.png)").
Proof.
  cbv zeta. split; [by vm_compute|]. split; [by vm_compute|].
  split; [by vm_compute|]. by vm_compute.
Qed.

(** ** The bundle (C7) *)

Section Bundle.
Context {E : Env}.
Import Str StrFacts Re ReFacts.


Lemma drop_length s : drop (String.length s) s = "".
Proof. by induction s. Qed.










Lemma lower_app s t : lower (s +:+ t) = lower s +:+ lower t.
Proof. induction s as [|a s IH]; [done|]. simpl. by rewrite IH. Qed.





End Bundle.



(** ** The content fingerprint (C10) *)

Section Fingerprint.
Import Sha256.














End Fingerprint.


(** ** Asset lookup (C1) *)

Section AssetLookup.
Context {E : Env}.
Import Str StrFacts.

Lemma parts_plain s : Fs.plain_component s → Fs.parts s = [s].
Proof.
  intros (Hne & Hdot & _ & Hsep). unfold Fs.parts.
  destruct (split_spec "/" s) as [[_ ->]|(front & l & init & -> & _)].
  - by rewrite filter_cons_True.
  - rewrite mem_app in Hsep. simpl in Hsep. rewrite ?Ascii.eqb_refl in Hsep.
    by rewrite orb_true_r in Hsep.
Qed.

Lemma join_plain p s : Fs.plain_component s → Fs.join p s = p ++ [s].
Proof.
  intros Hs. unfold Fs.join. rewrite (parts_plain s Hs).
  destruct Hs as (Hne & _ & _ & Hsep).
  destruct s as [|a s]; [done|]. simpl in *.
  rewrite (Ascii.eqb_sym "/" a). by destruct (Ascii.eqb a "/").
Qed.

(** C1, amended: [get_image_path] returns the joined path exactly when
    it exists on the volume, without looking at the file name; for a
    file name proper the returned path designates the entry of that
    name directly inside the task's [output_artifacts] directory. *)
Theorem asset_lookup_plain fs task_id filename p :
  Fs.plain_component filename →
  get_image_path fs task_id filename = Some p →
  p = artifacts_dir task_id ++ [filename]
  ∧ ∃ dir node,
      Fs.stat fs (artifacts_dir task_id) = Some (dir, Fs.Dir)
      ∧ Fs.stat fs p = Some (dir ++ [filename], node)
      ∧ fs !! (dir ++ [filename]) = Some node.
Proof.
  intros Hplain. unfold get_image_path. fold (artifacts_dir task_id).
  rewrite (join_plain _ _ Hplain).
  destruct (Fs.exists_ _ _) eqn:Hex; [|done]. intros [= <-].
  split; [done|].
  apply bool_decide_eq_true in Hex as [[loc node] Hstat].
  unfold Fs.stat in Hstat |- *. rewrite FsFacts.walk_app in Hstat |- *.
  destruct (Fs.walk fs [] (artifacts_dir task_id)) as [dir|]; [|done].
  simpl in Hstat |- *. destruct (Fs.node_at fs dir) as [[c|]|]; try done.
  simpl in Hstat |- *. unfold Fs.enter in Hstat |- *.
  destruct Hplain as (_ & _ & Hpar & _). rewrite decide_False in Hstat |- * by done.
  destruct (Fs.node_at fs (dir ++ [filename])) as [n|] eqn:Hnode; [|done].
  exists dir, n. split; [done|]. split; [done|].
  by destruct dir.
Qed.

End AssetLookup.

Lemma asset_lookup_plain_witness :
  let fs := (convert_pdf_to_markdown (E:=Demo.env) ∅ "A" "T:Report|hello").1 in
  ["srv"; "storage"; "output"; "A"; "output_artifacts"; "image_0.png"]
  = artifacts_dir (E:=Demo.env) "A" ++ ["image_0.png"]
  ∧ ∃ dir node,
      Fs.stat fs (artifacts_dir (E:=Demo.env) "A") = Some (dir, Fs.Dir)
      ∧ Fs.stat fs ["srv"; "storage"; "output"; "A"; "output_artifacts"; "image_0.png"]
        = Some (dir ++ ["image_0.png"], node)
      ∧ fs !! (dir ++ ["image_0.png"]) = Some node.
Proof.
  apply (asset_lookup_plain (E:=Demo.env) _ "A" "image_0.png").
  - by vm_compute.
  - by vm_compute.
Defined.

(** C1 as stated fails: with the files of a converted task ["A"] on the
    volume, the file names [".."] and ["../output.md"] are not refused.
    The paths returned resolve to the task directory and to the primary
    output, both outside [output_artifacts], and the route does not
    answer 404. *)
Lemma traversal_not_rejected :
  let fs := (convert_pdf_to_markdown (E:=Demo.env) ∅ "A" "T:Report|hello").1 in
  let s := {| db := Cache.init_db; fs := fs; jobs := [] |} in
  Fs.stat fs (artifacts_dir (E:=Demo.env) "A")
  = Some (["srv"; "storage"; "output"; "A"; "output_artifacts"], Fs.Dir)
  ∧ get_image_path (E:=Demo.env) fs "A" ".."
    = Some ["srv"; "storage"; "output"; "A"; "output_artifacts"; ".."]
  ∧ Fs.stat fs ["srv"; "storage"; "output"; "A"; "output_artifacts"; ".."]
    = Some (["srv"; "storage"; "output"; "A"], Fs.Dir)
  ∧ get_image_path (E:=Demo.env) fs "A" "../output.md"
    = Some ["srv"; "storage"; "output"; "A"; "output_artifacts"; ".."; "output.md"]
  ∧ Fs.stat fs ["srv"; "storage"; "output"; "A"; "output_artifacts"; ".."; "output.md"]
    = Some (["srv"; "storage"; "output"; "A"; "output.md"],
            Fs.File (refs_served "A" Demo.report_refs ""))
  ∧ get_image (E:=Demo.env) s "A" ".."
    = inr (["srv"; "storage"; "output"; "A"; "output_artifacts"; ".."], "image/png").
Proof. cbv zeta. repeat split; by vm_compute. Qed.

(** ** Rejected submissions (C8) *)

Section Submission.
Context {E : Env}.

(** C8: a submission whose file name does not end in [.pdf] (case
    ignored, a missing name included) or whose content is empty is
    answered with the status 400 and leaves registry, volume and
    background conversions as they were. *)
Theorem invalid_submission_rejected s file uuid now :
  Str.endswith ".pdf" (Str.lower (default "" (filename file))) = false
  ∨ content file = "" →
  ∃ rejection,
    convert_pdf s file uuid now = (s, inl rejection)
    ∧ status_code rejection = 400.
Proof.
  intros Hbad. unfold convert_pdf.
  destruct (bool_decide (default "" (filename file) = "")
            || negb (Str.endswith ".pdf" (Str.lower (default "" (filename file)))))
    eqn:Hname; [by eexists|].
  apply orb_false_iff in Hname as [_ Hext].
  apply negb_false_iff in Hext.
  destruct Hbad as [Hbad| ->]; [congruence|].
  simpl. by eexists.
Qed.

End Submission.

Lemma invalid_submission_rejected_witness :
  ∃ rejection,
    convert_pdf (E:=Demo.env) Demo.start (Demo.pdf "notes.txt" "0123456789") "A" 10
    = (Demo.start, inl rejection)
    ∧ status_code rejection = 400.
Proof.
  apply (invalid_submission_rejected (E:=Demo.env)). left. by vm_compute.
Defined.

(** ** Pruning (C9) *)

Section Pruning.


End Pruning.

(** ** Cache hits (C3, C4) *)

Section CacheHits.
Context {E : Env}.

Lemma accepted_passes file :
  accepted file →
  bool_decide (default "" (filename file) = "")
  || negb (Str.endswith ".pdf" (Str.lower (default "" (filename file)))) = false
  ∧ String.length (content file) ≠ 0.
Proof.
  intros [Hext Hcontent]. split.
  - rewrite Hext. simpl. rewrite orb_false_r. apply bool_decide_eq_false.
    intros Hname. by rewrite Hname in Hext.
  - by destruct (content file).
Qed.

(** An accepted submission for which one of the two lookups succeeds
    is answered from the cache, and nothing changes. *)
Lemma convert_pdf_hit s file uuid now cached_task_id :
  accepted file →
  get_pdf_title (content file) ≫= cached_task s = Some cached_task_id
  ∨ (get_pdf_title (content file) ≫= cached_task s = None
     ∧ cached_task s ("hash:" +:+ get_pdf_hash (content file))
       = Some cached_task_id) →
  convert_pdf s file uuid now = (s, inr (cache_hit cached_task_id)).
Proof.
  intros [Hname Hlen]%accepted_passes Hhit. unfold convert_pdf.
  rewrite Hname. destruct (decide _) as [|_]; [done|].
  destruct Hhit as [-> |[-> ->]]; done.
Qed.

Lemma cached_task_entry s key row :
  Cache.cache (db s) !! (key, "markdown") = Some row →
  task_has_markdown (fs s) (Cache.cache_output_path row) = true →
  cached_task s key = Some (Cache.cache_output_path row).
Proof.
  intros Hrow Hmd. unfold cached_task, Cache.get_cache_by_title.
  by rewrite Hrow, Hmd.
Qed.

(** A successful conversion leaves the task's Markdown file. *)
Lemma convert_success_has_markdown v task_id pdf_bytes v' title err :
  convert_pdf_to_markdown v task_id pdf_bytes = (v', (true, title, err)) →
  task_has_markdown v' task_id = true.
Proof.
  unfold convert_pdf_to_markdown, task_has_markdown.
  destruct (create_task_dir v task_id) as [e|[v1 task_dir]] eqn:Hdir; [done|].
  assert (task_dir = get_task_dir task_id) as ->.
  { unfold create_task_dir in Hdir.
    destruct (Fs.mkdir_parents _ _); [done|]. by injection Hdir as _ <-. }
  destruct (docling_convert pdf_bytes) as [e|document]; [done|].
  destruct (save_as_markdown _ _ _) as [v2 [e|]]; [done|].
  destruct (Fs.read_text v2 _) as [e|md_content]; [done|].
  destruct (Fs.write_text _ _ _) as [e|v3] eqn:Hw; [done|].
  intros [= <- _ _]. apply FsFacts.read_write in Hw.
  unfold Fs.exists_, Fs.read_text in *. apply bool_decide_eq_true.
  by destruct (Fs.stat v3 _) as [[? []]|].
Qed.

(** What a conversion that succeeds records when it runs to its end:
    the entry of the title reported by the engine and the entry of the
    fingerprint both name the task, replacing earlier entries. *)
Lemma done_records_entries now task_id pdf_bytes content_hash d v v' title err :
  convert_pdf_to_markdown v task_id pdf_bytes = (v', (true, title, err)) →
  ∃ d' row_title row_hash,
    _process_conversion now task_id pdf_bytes content_hash d v = (d', v')
    ∧ Cache.cache d' !! (title_or_untitled title, "markdown") = Some row_title
    ∧ Cache.cache_output_path row_title = task_id
    ∧ Cache.cache d' !! ("hash:" +:+ content_hash, "markdown") = Some row_hash
    ∧ Cache.cache_output_path row_hash = task_id
    ∧ task_has_markdown v' task_id = true.
Proof.
  intros Hconv. unfold _process_conversion, run_job, advance.
  cbn [job_phase job_task job_bytes job_hash]. rewrite Hconv.
  cbn [job_phase job_task job_bytes job_hash Cache.create_cache fst snd
       Cache.cache Cache.update_task_status Cache.tasks Cache.cache_seq].
  set (key_t := (title_or_untitled title, "markdown")).
  set (key_h := ("hash:" +:+ content_hash, "markdown")).
  clearbody key_t key_h.
  destruct (decide (key_h = key_t)) as [->|Hne].
  - eexists _, _, _. split; [done|]. cbn [Cache.cache].
    rewrite lookup_insert_eq.
    repeat split; try done. by eapply convert_success_has_markdown.
  - eexists _, _, _. split; [done|]. cbn [Cache.cache].
    rewrite lookup_insert_ne, lookup_insert_eq by done.
    rewrite lookup_insert_eq.
    repeat split; try done. by eapply convert_success_has_markdown.
Qed.

(** C3, amended: when a conversion has run to its end as Done, then in
    every later state in which the cache entry of the title it was
    recorded under is still the one it wrote and its primary output is
    present, a submission whose extracted title is that title -- with
    the same bytes or others -- is answered as a cache hit against the
    task, and nothing changes.  The entry is written anew by every
    conversion that ends as Done under the title. *)
Theorem title_hit_names_entry now task_id pdf_bytes content_hash d v engine_title err
    s file uuid now' :
  let recorded := title_or_untitled engine_title in
  let d' := (_process_conversion now task_id pdf_bytes content_hash d v).1 in
  (convert_pdf_to_markdown v task_id pdf_bytes).2 = (true, engine_title, err) →
  Cache.cache (db s) !! (recorded, "markdown")
  = Cache.cache d' !! (recorded, "markdown") →
  task_has_markdown (fs s) task_id = true →
  accepted file →
  get_pdf_title (content file) = Some recorded →
  convert_pdf s file uuid now' = (s, inr (cache_hit task_id)).
Proof.
  intros recorded d' Hout Hentry Hmd Hfile Htitle.
  destruct (convert_pdf_to_markdown v task_id pdf_bytes) as [v' outcome] eqn:Hconv.
  simpl in Hout. subst outcome.
  destruct (done_records_entries now task_id pdf_bytes content_hash d v v'
              engine_title err Hconv)
    as (d1 & row_t & row_h & Hrun & Ht & Htp & _).
  subst d'. rewrite Hrun in Hentry. simpl in Hentry. fold recorded in Ht.
  rewrite Ht in Hentry.
  apply convert_pdf_hit; [done|]. left. rewrite Htitle. simpl.
  rewrite <- Htp. apply cached_task_entry; [done|]. by rewrite Htp.
Qed.

(** C4, amended: when a conversion has run to its end as Done, then in
    every later state in which the cache entry of its fingerprint is
    still the one it wrote and its primary output is present, the same
    bytes submitted again are answered as a cache hit and nothing
    changes, so no task is created; the task named is the converted one
    unless the lookup by title, which comes first, finds a task with its
    output present -- then that task is named. *)
Theorem resubmission_hits now task_id file d v title err s uuid now' :
  let key := "hash:" +:+ get_pdf_hash (content file) in
  let d' := (_process_conversion now task_id (content file)
               (get_pdf_hash (content file)) d v).1 in
  accepted file →
  (convert_pdf_to_markdown v task_id (content file)).2 = (true, title, err) →
  Cache.cache (db s) !! (key, "markdown") = Cache.cache d' !! (key, "markdown") →
  task_has_markdown (fs s) task_id = true →
  ∃ answered,
    convert_pdf s file uuid now' = (s, inr (cache_hit answered))
    ∧ match get_pdf_title (content file) ≫= cached_task s with
      | Some by_title => answered = by_title
      | None => answered = task_id
      end.
Proof.
  intros key d' Hfile Hout Hentry Hmd.
  destruct (convert_pdf_to_markdown v task_id (content file)) as [v' outcome] eqn:Hconv.
  simpl in Hout. subst outcome.
  destruct (done_records_entries now task_id (content file)
              (get_pdf_hash (content file)) d v v' title err Hconv)
    as (d1 & row_t & row_h & Hrun & _ & _ & Hh & Hhp & _).
  subst d'. rewrite Hrun in Hentry. simpl in Hentry. fold key in Hh.
  rewrite Hh in Hentry.
  assert (Hhash : cached_task s key = Some task_id).
  { rewrite <- Hhp. apply cached_task_entry; [done|]. by rewrite Hhp. }
  destruct (get_pdf_title (content file) ≫= cached_task s) as [by_title|] eqn:Ht.
  - exists by_title. split; [|done]. apply convert_pdf_hit; [done|]. by left.
  - exists task_id. split; [|done]. apply convert_pdf_hit; [done|]. by right.
Qed.

End CacheHits.

Lemma title_hit_names_entry_witness :
  convert_pdf (E:=Demo.env) Demo.first_done (Demo.pdf "c.pdf" "T:Report|third") "C" 40
  = (Demo.first_done, inr (cache_hit "A")).
Proof.
  apply (title_hit_names_entry (E:=Demo.env) 20 "A" "T:Report|first"
           (get_pdf_hash "T:Report|first") (db Demo.submitted) (fs Demo.submitted)
           (Some "Report") None Demo.first_done
           (Demo.pdf "c.pdf" "T:Report|third") "C" 40).
  - by vm_compute.
  - by vm_compute.
  - by vm_compute.
  - by vm_compute.
  - by vm_compute.
Defined.

Lemma resubmission_hits_witness :
  ∃ answered,
    convert_pdf (E:=Demo.env) Demo.first_done Demo.first_report "C" 40
    = (Demo.first_done, inr (cache_hit answered))
    ∧ match get_pdf_title (E:=Demo.env) (content Demo.first_report)
            ≫= cached_task (E:=Demo.env) Demo.first_done with
      | Some by_title => answered = by_title
      | None => answered = "A"
      end.
Proof.
  apply (resubmission_hits (E:=Demo.env) 20 "A" Demo.first_report
           (db Demo.submitted) (fs Demo.submitted) (Some "Report") None
           Demo.first_done "C" 40).
  - by vm_compute.
  - by vm_compute.
  - by vm_compute.
  - by vm_compute.
Defined.

(** C3 as stated fails: both reports are Done with their output on the
    volume, the first submission was task ["A"], and a later document
    with the same title is answered with task ["B"]. *)
Lemma title_hit_not_first_task :
  run_enabled (E:=Demo.env) Demo.start Demo.two_reports_run = true
  ∧ (step (E:=Demo.env) Demo.start (Submit (Demo.pdf "a.pdf" "T:Report|first") "A" 10)).(jobs)
    = [{| job_task := "A"; job_bytes := "T:Report|first";
          job_hash := get_pdf_hash "T:Report|first"; job_phase := Queued |}]
  ∧ Cache.status <$> Cache.tasks (db Demo.two_reports) !! "A" = Some "done"
  ∧ task_has_markdown (E:=Demo.env) (fs Demo.two_reports) "A" = true
  ∧ get_pdf_title (E:=Demo.env) "T:Report|first" = Some "Report"
  ∧ get_pdf_title (E:=Demo.env) "T:Report|third" = Some "Report"
  ∧ (convert_pdf (E:=Demo.env) Demo.two_reports
       (Demo.pdf "c.pdf" "T:Report|third") "C" 40).2
    = inr (cache_hit "B")
  ∧ cache_hit "B" ≠ cache_hit "A".
Proof. repeat split; by vm_compute. Qed.

(** C4 as stated fails: the bytes of the first submission, whose task
    ["A"] is Done with its output on the volume, are submitted again and
    the answer names task ["B"], found by the title. *)
Lemma resubmission_not_first_task :
  run_enabled (E:=Demo.env) Demo.start Demo.two_reports_run = true
  ∧ Cache.status <$> Cache.tasks (db Demo.two_reports) !! "A" = Some "done"
  ∧ task_has_markdown (E:=Demo.env) (fs Demo.two_reports) "A" = true
  ∧ Cache.cache_output_path
      <$> Cache.cache (db Demo.two_reports)
            !! ("hash:" +:+ get_pdf_hash "T:Report|first", "markdown")
    = Some "A"
  ∧ (convert_pdf (E:=Demo.env) Demo.two_reports
       (Demo.pdf "a.pdf" "T:Report|first") "C" 40).2
    = inr (cache_hit "B")
  ∧ cache_hit "B" ≠ cache_hit "A".
Proof. repeat split; by vm_compute. Qed.

(** ** The status state machine (C5, C6) *)

Section Lifecycle.
Context {E : Env}.

Lemma in_statuses st :
  st ∈ ["pending"; "processing"; "done"; "error"] ↔
  st = "pending" ∨ st = "processing" ∨ st = "done" ∨ st = "error".
Proof. rewrite !elem_of_cons, elem_of_nil. tauto. Qed.

Lemma in_terminal st : st ∈ ["done"; "error"] ↔ st = "done" ∨ st = "error".
Proof. rewrite !elem_of_cons, elem_of_nil. tauto. Qed.

Lemma lookup_update d task st title out err now id :
  Cache.tasks (Cache.update_task_status d task st title out err now) !! id
  = if decide (task = id)
    then (λ row,
            if bool_decide (st ∈ ["done"; "error"]) then
              Cache.TaskRow st (Cache.format row) title out err
                (Cache.created_at row) (Some now)
            else
              Cache.TaskRow st (Cache.format row) title (Cache.output_path row)
                (Cache.error_message row) (Cache.created_at row)
                (Cache.completed_at row))
         <$> Cache.tasks d !! task
    else Cache.tasks d !! id.
Proof. unfold Cache.update_task_status. simpl. apply lookup_alter. Qed.

(** The row of a task that is pending, once set to processing. *)
Lemma row_ok_processing r :
  row_ok r → Cache.status r = "pending" →
  row_ok (Cache.TaskRow "processing" (Cache.format r) None (Cache.output_path r)
            (Cache.error_message r) (Cache.created_at r) (Cache.completed_at r)).
Proof.
  intros (_ & Hc & _ & Ho) Hst. unfold row_ok. simpl.
  rewrite in_statuses, in_terminal. rewrite in_terminal, Hst in Hc.
  rewrite Hst in Ho. split; [tauto|]. split.
  - split; [|by intros [|]]. intros Hs. apply Hc in Hs. by destruct Hs.
  - split; [by intros []|]. intros Hs. by apply Ho in Hs.
Qed.

Lemma row_ok_done fmt title out created now :
  row_ok (Cache.TaskRow "done" fmt (Some title) (Some out) None created (Some now)).
Proof.
  unfold row_ok. simpl. rewrite in_statuses, in_terminal.
  split; [tauto|]. split; [|done]. split; [tauto|]. by intros _.
Qed.

Lemma row_ok_error fmt err created now :
  row_ok (Cache.TaskRow "error" fmt None None err created (Some now)).
Proof.
  unfold row_ok. simpl. rewrite in_statuses, in_terminal.
  split; [tauto|]. split; [|split; by intros []]. split; [tauto|]. by intros _.
Qed.

(** One slice of a conversion whose task row, if any, has the status of
    its phase: other rows are untouched; the row of the task keeps its
    status or makes one transition of the design -- or, when the awaited
    call raises, is put in error -- stays well formed, and has the
    status of the next phase. *)
Lemma advance_row now fault j d v d' v' next :
  (∀ id r, Cache.tasks d !! id = Some r → row_ok r) →
  (∀ r, Cache.tasks d !! job_task j = Some r →
        phase_status (job_phase j) (Cache.status r)) →
  advance now fault j d v = (d', v', next) →
  (∀ id, id ≠ job_task j → Cache.tasks d' !! id = Cache.tasks d !! id)
  ∧ (∀ r', Cache.tasks d' !! job_task j = Some r' →
       ∃ r, Cache.tasks d !! job_task j = Some r
            ∧ row_ok r'
            ∧ (Cache.status r' = Cache.status r
               ∨ transition (Cache.status r) (Cache.status r')
               ∨ (is_Some fault ∧ Cache.status r' = "error"))
            ∧ ∀ j', next = Some j' → phase_status (job_phase j') (Cache.status r'))
  ∧ (∀ j', next = Some j' → job_task j' = job_task j).
Proof.
  intros Hrows Hphase. unfold advance. destruct fault as [e|].
  { (* the awaited call raises *)
    intros [= <- <- <-]. split; [|split; [|done]].
    - intros id Hid. rewrite lookup_update. by rewrite decide_False.
    - intros r'. rewrite lookup_update, decide_True by done.
      destruct (Cache.tasks d !! job_task j) as [r|] eqn:Hr; [|done].
      simpl. intros [= <-]. exists r. split; [done|].
      split; [apply row_ok_error|]. split; [|done]. right. right. by split. }
  destruct (job_phase j) as [| |[[success title] err]|title|title] eqn:Hp.
  - (* Queued *)
    intros [= <- <- <-]. split; [|split].
    + intros id Hid. rewrite lookup_update. by rewrite decide_False.
    + intros r'. rewrite lookup_update, decide_True by done.
      destruct (Cache.tasks d !! job_task j) as [r|] eqn:Hr; [|done].
      simpl. intros [= <-]. exists r. split; [done|].
      specialize (Hphase r eq_refl). simpl in Hphase.
      split; [apply row_ok_processing; eauto|].
      split; [right; left; left; by rewrite Hphase|]. by intros j' [= <-].
    + by intros j' [= <-].
  - (* Converting *)
    destruct (convert_pdf_to_markdown v (job_task j) (job_bytes j)) as [v1 outcome].
    intros [= <- <- <-]. split; [done|]. split; [|by intros j' [= <-]].
    intros r' Hr'. exists r'. split; [done|]. split; [by eapply Hrows|].
    split; [by left|]. intros j' [= <-]. by apply Hphase.
  - (* Converted *)
    destruct success.
    + intros [= <- <- <-]. split; [|split].
      * intros id Hid. rewrite lookup_update. by rewrite decide_False.
      * intros r'. rewrite lookup_update, decide_True by done.
        destruct (Cache.tasks d !! job_task j) as [r|] eqn:Hr; [|done].
        simpl. intros [= <-]. exists r. split; [done|].
        specialize (Hphase r eq_refl). simpl in Hphase.
        split; [apply row_ok_done|].
        split; [right; left; right; left; by rewrite Hphase|].
        by intros j' [= <-].
      * by intros j' [= <-].
    + intros [= <- <- <-]. split; [|split].
      * intros id Hid. rewrite lookup_update. by rewrite decide_False.
      * intros r'. rewrite lookup_update, decide_True by done.
        destruct (Cache.tasks d !! job_task j) as [r|] eqn:Hr; [|done].
        simpl. intros [= <-]. exists r. split; [done|].
        specialize (Hphase r eq_refl). simpl in Hphase.
        split; [apply row_ok_error|].
        split; [right; left; right; right; by rewrite Hphase|]. done.
      * done.
  - (* CachingTitle *)
    intros [= <- <- <-]. split; [done|]. split; [|by intros j' [= <-]].
    intros r' Hr'. exists r'. split; [done|]. split; [by eapply Hrows|].
    split; [by left|]. intros j' [= <-]. by apply Hphase.
  - (* CachingHash *)
    intros [= <- <- <-]. split; [done|]. split; [|done].
    intros r' Hr'. exists r'. split; [done|]. split; [by eapply Hrows|].
    split; [by left|]. done.
Qed.

(** The same for the list of conversions in flight, of which the one for
    [task] advances. *)
Lemma advance_jobs_rows now fault task js d v d' v' js' :
  NoDup (job_task <$> js) →
  (∀ id r, Cache.tasks d !! id = Some r → row_ok r) →
  (∀ j r, j ∈ js → Cache.tasks d !! job_task j = Some r →
          phase_status (job_phase j) (Cache.status r)) →
  advance_jobs now fault task js d v = (d', v', js') →
  NoDup (job_task <$> js')
  ∧ (∀ x, x ∈ job_task <$> js' → x ∈ job_task <$> js)
  ∧ (∀ id, id ≠ task → Cache.tasks d' !! id = Cache.tasks d !! id)
  ∧ (∀ id r', Cache.tasks d' !! id = Some r' →
       ∃ r, Cache.tasks d !! id = Some r
            ∧ row_ok r'
            ∧ (Cache.status r' = Cache.status r
               ∨ transition (Cache.status r) (Cache.status r')
               ∨ (is_Some fault ∧ Cache.status r' = "error")))
  ∧ (∀ j' r', j' ∈ js' → Cache.tasks d' !! job_task j' = Some r' →
              phase_status (job_phase j') (Cache.status r')).
Proof.
  revert d' v' js'. induction js as [|j rest IH]; intros d' v' js' Hnd Hrows Hphase.
  - simpl. intros [= <- <- <-]. split; [done|]. split; [done|]. split; [done|].
    split; [|by intros ? ? ?%elem_of_nil].
    intros id r' Hr'. exists r'. split; [done|]. split; [by eapply Hrows|]. by left.
  - rewrite fmap_cons in Hnd. apply NoDup_cons in Hnd as [Hj Hnd].
    simpl. destruct (decide (job_task j = task)) as [Htask|Htask].
    + destruct (advance now fault j d v) as [[d1 v1] next] eqn:Hadv.
      intros [= <- <- <-].
      destruct (advance_row now fault j d v d1 v1 next Hrows)
        as (Hother & Hrow & Hid);
        [intros r; apply Hphase; by left|done|].
      assert (Hids : ∀ x, x ∈ job_task <$> option_list next ++ rest →
                          x ∈ job_task <$> j :: rest).
      { intros x. rewrite fmap_app, elem_of_app, fmap_cons, elem_of_cons.
        intros [Hx|Hx]; [left|by right].
        destruct next as [j'|]; simpl in Hx; [|by apply elem_of_nil in Hx].
        apply list_elem_of_singleton in Hx as ->. by apply Hid. }
      split; [|split; [done|split; [|split]]].
      * rewrite fmap_app. apply NoDup_app. split; [|split; [|done]].
        -- destruct next; simpl; [apply NoDup_singleton|apply NoDup_nil_2].
        -- intros x Hx. destruct next as [j'|]; simpl in Hx;
             [|by apply elem_of_nil in Hx].
           apply list_elem_of_singleton in Hx as ->. by rewrite (Hid j').
      * intros id Hid'. apply Hother. congruence.
      * intros id r' Hr'. destruct (decide (id = job_task j)) as [->|Hne].
        -- destruct (Hrow r' Hr') as (r & Hr & Hok & Htr & _). by exists r.
        -- rewrite Hother in Hr' by done. exists r'. split; [done|].
           split; [by eapply Hrows|]. by left.
      * intros j' r' Hj'. apply elem_of_app in Hj' as [Hj'|Hj'].
        -- destruct next as [j''|]; simpl in Hj'; [|by apply elem_of_nil in Hj'].
           apply list_elem_of_singleton in Hj' as ->. rewrite (Hid j'') by done.
           intros Hr'. destruct (Hrow r' Hr') as (r & _ & _ & _ & Hnext).
           by apply Hnext.
        -- assert (job_task j' ≠ job_task j) as Hne.
           { intros Heq. apply Hj. rewrite <- Heq. by apply list_elem_of_fmap_2. }
           rewrite Hother by done. apply Hphase. by right.
    + destruct (advance_jobs now fault task rest d v) as [[d1 v1] rest'] eqn:Hadv.
      intros [= <- <- <-].
      destruct (IH d1 v1 rest' Hnd Hrows) as (Hnd' & Hids & Hother & Hrow & Hph);
        [intros j' r Hj'; apply Hphase; by right|done|].
      split; [|split; [|split; [done|split; [done|]]]].
      * rewrite fmap_cons. apply NoDup_cons. split; [|done].
        intros Hin. apply Hj. by apply Hids.
      * intros x. rewrite !fmap_cons, !elem_of_cons. intros [->|Hx]; [by left|].
        right. by apply Hids.
      * intros j' r' Hj'. apply elem_of_cons in Hj' as [->|Hj'].
        -- rewrite Hother by done. apply Hphase. by left.
        -- by apply Hph.
Qed.

(** A submission either leaves the state as it is or adds a pending row
    under a new id and queues its conversion. *)
Lemma convert_pdf_state s file uuid now :
  (convert_pdf s file uuid now).1 = s
  ∨ (Cache.tasks (db s) !! uuid = None
     ∧ ∃ j, job_task j = uuid ∧ job_phase j = Queued
            ∧ (convert_pdf s file uuid now).1
              = {| db := Cache.Database
                           (<[uuid := Cache.TaskRow "pending" "markdown"
                                        None None None now None]>
                              (Cache.tasks (db s)))
                           (Cache.cache (db s)) (Cache.cache_seq (db s));
                   fs := fs s; jobs := jobs s ++ [j] |}).
Proof.
  unfold convert_pdf.
  destruct (_ || _); [by left|]. destruct (decide _); [by left|].
  destruct (_ ≫= _); [by left|]. destruct (cached_task _ _); [by left|].
  unfold Cache.create_task.
  destruct (Cache.tasks (db s) !! uuid) eqn:Hu; [by left|].
  right. split; [done|]. by eexists {| job_task := uuid |}.
Qed.

Lemma row_ok_pending now :
  row_ok (Cache.TaskRow "pending" "markdown" None None None now None).
Proof.
  unfold row_ok. simpl. rewrite in_statuses, in_terminal.
  split; [tauto|]. split; [|split; by intros []].
  split; [by intros []|by intros [|]].
Qed.

(** Every step keeps the invariant, and every row it keeps has made at
    most one transition of the design, or has been put in error by a
    conversion whose awaited call raised. *)
Lemma step_sound s ev :
  invariant s → enabled s ev →
  invariant (step s ev)
  ∧ ∀ id r r',
      Cache.tasks (db s) !! id = Some r →
      Cache.tasks (db (step s ev)) !! id = Some r' →
      Cache.status r' = Cache.status r
      ∨ transition (Cache.status r) (Cache.status r')
      ∨ (faulty ev = true ∧ Cache.status r' = "error").
Proof.
  intros (Hnd & Hrows & Hphase) Hen.
  destruct ev as [file uuid now|task now fault|days sql_now].
  - (* Submit *)
    simpl in Hen |- *.
    destruct (convert_pdf_state s file uuid now) as [->|(Hfresh & j & Hj & Hq & ->)].
    { split; [done|]. intros id r r' Hr Hr'. left. congruence. }
    split; [split; [|split]|]; simpl.
    + rewrite fmap_app. apply NoDup_app. split; [done|]. split.
      * intros x Hx. simpl. rewrite Hj. intros ->%list_elem_of_singleton. done.
      * simpl. apply NoDup_singleton.
    + intros id r. destruct (decide (uuid = id)) as [->|Hne].
      * rewrite lookup_insert_eq. intros [= <-]. apply row_ok_pending.
      * rewrite lookup_insert_ne by done. apply Hrows.
    + intros j' r Hj'. apply elem_of_app in Hj' as [Hj'|Hj'].
      * assert (uuid ≠ job_task j') as Hne.
        { intros ->. apply Hen. by apply list_elem_of_fmap_2. }
        rewrite lookup_insert_ne by done. by apply Hphase.
      * apply list_elem_of_singleton in Hj' as ->. rewrite Hj, Hq.
        rewrite lookup_insert_eq. by intros [= <-].
    + intros id r r' Hr. destruct (decide (uuid = id)) as [->|Hne]; [congruence|].
      rewrite lookup_insert_ne by done. left. congruence.
  - (* Advance *)
    simpl.
    destruct (advance_jobs now fault task (jobs s) (db s) (fs s))
      as [[d' v'] js'] eqn:Hadv.
    destruct (advance_jobs_rows now fault task (jobs s) (db s) (fs s) d' v' js'
                Hnd Hrows Hphase Hadv) as (Hnd' & _ & _ & Hrow & Hph).
    split; [split; [done|split; [|done]]|]; simpl.
    + intros id r' Hr'. by destruct (Hrow id r' Hr') as (r & _ & Hok & _).
    + intros id r r' Hr Hr'. destruct (Hrow id r' Hr') as (r0 & Hr0 & _ & Htr).
      replace r with r0 by congruence.
      destruct Htr as [?|[?|[[e ->] ?]]]; auto.
  - (* Prune *)
    simpl. unfold Cache.delete_old_tasks.
    destruct (Cache.threshold days sql_now) as [t|]; simpl.
    + split; [split; [done|split]|]; simpl.
      * intros id r Hr%map_lookup_filter_Some_1_1. by eapply Hrows.
      * intros j r Hj Hr%map_lookup_filter_Some_1_1. by eapply Hphase.
      * intros id r r' Hr Hr'%map_lookup_filter_Some_1_1. left. congruence.
    + split; [done|]. intros id r r' Hr Hr'. left. congruence.
Qed.

Lemma reachable_invariant s : reachable s → invariant s.
Proof.
  induction 1 as [s [Hjobs Hrows]|s ev _ IH Hen].
  - unfold invariant. rewrite Hjobs. split; [apply NoDup_nil_2|].
    split; [done|]. by intros j r ?%elem_of_nil.
  - by apply step_sound.
Qed.

Lemma reachable_run s evs :
  reachable s → run_enabled s evs = true → reachable (foldl step s evs).
Proof.
  revert s. induction evs as [|ev evs IH]; intros s Hs; [done|].
  simpl. intros [Hen Hrest]%andb_true_iff. apply IH; [|done].
  apply reachable_step; [done|]. by apply bool_decide_eq_true in Hen.
Qed.

(** C5, amended: along every run of the service in which no awaited
    call of a conversion raises -- submissions, conversions advancing
    slice by slice in any interleaving, pruning -- the status of a task
    that is not pruned moves only along pending -> processing -> done
    and pending -> processing -> error, by at most one transition per
    step; a task that is done or in error keeps its status. *)
Theorem status_moves_forward s evs id r :
  reachable s →
  fault_free evs = true →
  row_kept id s evs = true →
  Cache.tasks (db s) !! id = Some r →
  ∃ r',
    Cache.tasks (db (foldl step s evs)) !! id = Some r'
    ∧ rtc transition (Cache.status r) (Cache.status r')
    ∧ (length evs ≤ 1 →
       Cache.status r' = Cache.status r
       ∨ transition (Cache.status r) (Cache.status r'))
    ∧ (Cache.status r ∈ ["done"; "error"] → Cache.status r' = Cache.status r).
Proof.
  intros Hreach. revert r.
  induction evs as [|ev rest IH] in s, Hreach |- *; intros r Hfree Hkept Hr.
  - exists r. split; [done|]. split; [done|]. split; [by left|done].
  - simpl in Hfree, Hkept. apply andb_true_iff in Hfree as [Hev Hfree].
    apply negb_true_iff in Hev. apply andb_true_iff in Hkept as [_ Hkept].
    apply andb_true_iff in Hkept as [Hen Hkept]. apply bool_decide_eq_true in Hen.
    destruct (step_sound s ev (reachable_invariant s Hreach) Hen) as [_ Hstep].
    assert (Hnext : is_Some (Cache.tasks (db (step s ev)) !! id)).
    { destruct rest; simpl in Hkept.
      - apply andb_true_iff in Hkept as [Hk _]. by apply bool_decide_eq_true in Hk.
      - apply andb_true_iff in Hkept as [Hk _]. by apply bool_decide_eq_true in Hk. }
    destruct Hnext as [r1 Hr1].
    assert (Cache.status r1 = Cache.status r
            ∨ transition (Cache.status r) (Cache.status r1)) as Hmove.
    { destruct (Hstep id r r1 Hr Hr1) as [?|[?|[? _]]]; [by left|by right|].
      congruence. }
    clear Hstep. rename Hmove into Hstep.
    destruct (IH (step s ev) (reachable_step s ev Hreach Hen) r1 Hfree Hkept Hr1)
      as (r' & Hr' & Hrtc & Hone & Hterm).
    exists r'. split; [done|]. split; [|split].
    + destruct Hstep as [Heq|Htr]; [by rewrite <- Heq|by eapply rtc_l].
    + simpl. intros Hlen. destruct rest; [|simpl in Hlen; lia].
      simpl in Hr'. by replace r' with r1 by congruence.
    + intros Hdone. assert (Cache.status r1 = Cache.status r) as Heq.
      { destruct Hstep as [|Htr]; [done|]. apply in_terminal in Hdone.
        unfold transition in Htr. destruct Hdone as [Hs|Hs]; rewrite Hs in Htr;
          by destruct Htr as [[? _]|[[? _]|[? _]]]. }
      rewrite <- Heq. apply Hterm. by rewrite Heq.
Qed.

(** C6, amended: in every state the service reaches, also through
    conversions whose awaited calls raise, a task row has a completion
    time exactly when its status is done or error, and a title or an
    output path only when its status is done. *)
Theorem reachable_rows_well_formed s id r :
  reachable s →
  Cache.tasks (db s) !! id = Some r →
  (is_Some (Cache.completed_at r) ↔ Cache.status r ∈ ["done"; "error"])
  ∧ (is_Some (Cache.title r) → Cache.status r = "done")
  ∧ (is_Some (Cache.output_path r) → Cache.status r = "done").
Proof.
  intros Hreach Hr.
  destruct (reachable_invariant s Hreach) as (_ & Hrows & _).
  by destruct (Hrows id r Hr) as (_ & ? & ? & ?).
Qed.

End Lifecycle.

Lemma demo_converted_reachable : reachable (E:=Demo.env) Demo.converted.
Proof.
  apply (reachable_run (E:=Demo.env)); [|by vm_compute].
  apply reachable_initial. split; [done|]. intros id r.
  unfold Demo.start, Cache.init_db. simpl. by rewrite lookup_empty.
Qed.

Lemma demo_submitted_reachable : reachable (E:=Demo.env) Demo.submitted.
Proof.
  apply reachable_step.
  - apply reachable_initial. split; [done|]. intros id r.
    unfold Demo.start, Cache.init_db. simpl. by rewrite lookup_empty.
  - simpl. by intros ?%elem_of_nil.
Qed.

Lemma status_moves_forward_witness :
  ∃ r',
    Cache.tasks
      (db (foldl (step (E:=Demo.env)) Demo.submitted
             [Advance "A" 20 None; Advance "A" 21 None; Advance "A" 22 None;
              Prune 7 23]%Z))
      !! "A" = Some r'
    ∧ rtc transition
        (Cache.status (Cache.TaskRow "pending" "markdown" None None None 10 None))
        (Cache.status r')
    ∧ (length [Advance "A" 20 None; Advance "A" 21 None; Advance "A" 22 None;
               Prune 7 23]%Z ≤ 1 →
       Cache.status r'
       = Cache.status (Cache.TaskRow "pending" "markdown" None None None 10 None)
       ∨ transition
           (Cache.status (Cache.TaskRow "pending" "markdown" None None None 10 None))
           (Cache.status r'))
    ∧ (Cache.status (Cache.TaskRow "pending" "markdown" None None None 10 None)
         ∈ ["done"; "error"] →
       Cache.status r'
       = Cache.status (Cache.TaskRow "pending" "markdown" None None None 10 None)).
Proof.
  apply (status_moves_forward (E:=Demo.env) Demo.submitted
           [Advance "A" 20 None; Advance "A" 21 None; Advance "A" 22 None;
            Prune 7 23]%Z "A").
  - exact demo_submitted_reachable.
  - by vm_compute.
  - by vm_compute.
  - by vm_compute.
Defined.

Lemma reachable_rows_well_formed_witness :
  (is_Some (Cache.completed_at
              (Cache.TaskRow "processing" "markdown" None None None 10 None))
   ↔ Cache.status (Cache.TaskRow "processing" "markdown" None None None 10 None)
       ∈ ["done"; "error"])
  ∧ (is_Some (Cache.title
                (Cache.TaskRow "processing" "markdown" None None None 10 None))
     → Cache.status (Cache.TaskRow "processing" "markdown" None None None 10 None)
       = "done")
  ∧ (is_Some (Cache.output_path
                (Cache.TaskRow "processing" "markdown" None None None 10 None))
     → Cache.status (Cache.TaskRow "processing" "markdown" None None None 10 None)
       = "done").
Proof.
  apply (reachable_rows_well_formed (E:=Demo.env) Demo.converted "A").
  - exact demo_converted_reachable.
  - by vm_compute.
Defined.

(** When the cache write that follows the update to done raises, the
    [except] branch of [_process_conversion] puts the task, which is
    done, in error. *)
Lemma raising_cache_write_after_done :
  let run := [ Advance "A" 20 None; Advance "A" 21 None; Advance "A" 22 None ]%Z in
  let busy := ExternalError "database is locked" in
  let s := foldl (step (E:=Demo.env)) Demo.submitted run in
  run_enabled (E:=Demo.env) Demo.submitted (run ++ [Advance "A" 23 (Some busy)])
  = true
  ∧ Cache.status <$> Cache.tasks (db s) !! "A" = Some "done"
  ∧ Cache.tasks (db (step (E:=Demo.env) s (Advance "A" 23 (Some busy)))) !! "A"
    = Some (Cache.TaskRow "error" "markdown" None None
              (Some "database is locked") 10 (Some 23%Z)).
Proof. repeat split; by vm_compute. Qed.

(** C5 as stated fails: the registry applies whatever update it is
    given; a task that is done goes back to processing. *)
Lemma done_task_updated_again :
  ∃ d1,
    Cache.create_task Cache.init_db "A" "markdown" 1 = inr d1
    ∧ let d2 := Cache.update_task_status d1 "A" "processing" None None None 2 in
      let d3 := Cache.update_task_status d2 "A" "done" (Some "Report")
                  (Some "/srv/storage/output/A") None 3 in
      let d4 := Cache.update_task_status d3 "A" "processing" None None None 4 in
      Cache.status <$> Cache.tasks d3 !! "A" = Some "done"
      ∧ Cache.status <$> Cache.tasks d4 !! "A" = Some "processing".
Proof. eexists. split; [done|]. split; by vm_compute. Qed.

(** C6 as stated fails: after the same kind of update the row is
    pending, has a completion time and has a title. *)
Lemma pending_row_with_completion_time :
  ∃ d1,
    Cache.create_task Cache.init_db "A" "markdown" 1 = inr d1
    ∧ let d2 := Cache.update_task_status d1 "A" "error" None None (Some "failed") 2 in
      let d3 := Cache.update_task_status d2 "A" "pending" (Some "Report") None None 3 in
      Cache.tasks d3 !! "A"
      = Some (Cache.TaskRow "pending" "markdown" (Some "Report") None
                (Some "failed") 1 (Some 2%Z)).
Proof. eexists. split; [done|]. by vm_compute. Qed.

(** * Further properties of the code *)

(** ** Directories and files of a task ([app/storage/local.py]) *)

Section Store.
Context {E : Env}.

Lemma enter_nonroot_insert (v : Fs.volume) loc seg :
  Fs.node_at v (Fs.enter loc seg) = None →
  Fs.node_at (<[Fs.enter loc seg := Fs.Dir]> v) (Fs.enter loc seg) = Some Fs.Dir.
Proof.
  destruct (Fs.enter loc seg) as [|x l]; [done|]. simpl. intros _.
  by rewrite lookup_insert_eq.
Qed.

(** [mkdir(parents=True, exist_ok=True)] only adds directories: what
    was there stays, the path then resolves to a directory, and doing
    it again changes nothing. *)
Lemma mkdir_from_spec (v v' : Fs.volume) loc segs :
  Fs.mkdir_from v loc segs = inr v' →
  Fs.node_at v loc = Some Fs.Dir →
  (∀ l n, v !! l = Some n → v' !! l = Some n)
  ∧ (∀ l, v' !! l = v !! l ∨ (v !! l = None ∧ v' !! l = Some Fs.Dir))
  ∧ (∃ l, Fs.walk v' loc segs = Some l ∧ Fs.node_at v' l = Some Fs.Dir)
  ∧ Fs.mkdir_from v' loc segs = inr v'.
Proof.
  revert v loc. induction segs as [|seg rest IH]; intros v loc.
  - simpl. intros [= <-] Hloc. split; [done|]. split; [by left|].
    split; [by exists loc|done].
  - simpl. destruct (Fs.node_at v (Fs.enter loc seg)) as [[c|]|] eqn:Hnext.
    + done.
    + intros Hmk Hloc.
      destruct (IH v (Fs.enter loc seg) Hmk Hnext) as (Hkeep & Hnew & Hwalk & Hagain).
      split; [done|]. split; [done|].
      assert (Hdir : ∀ l, Fs.node_at v l = Some Fs.Dir → Fs.node_at v' l = Some Fs.Dir).
      { intros [|x l]; [done|]. simpl. apply Hkeep. }
      rewrite (Hdir loc Hloc), (Hdir _ Hnext). done.
    + intros Hmk Hloc.
      pose proof (enter_nonroot_insert v loc seg Hnext) as Hins.
      destruct (IH _ (Fs.enter loc seg) Hmk Hins) as (Hkeep & Hnew & Hwalk & Hagain).
      assert (Hfresh : v !! Fs.enter loc seg = None).
      { destruct (Fs.enter loc seg); [done|]. done. }
      assert (Hkeep' : ∀ l n, v !! l = Some n → v' !! l = Some n).
      { intros l n Hl. apply Hkeep. rewrite lookup_insert_ne; [done|].
        intros <-. congruence. }
      split; [done|]. split.
      { intros l. destruct (Hnew l) as [Heq|[Hnone Hd]].
        - destruct (decide (Fs.enter loc seg = l)) as [<-|Hne].
          + right. split; [done|]. rewrite Heq. by rewrite lookup_insert_eq.
          + left. rewrite Heq. by rewrite lookup_insert_ne.
        - right. split; [|done].
          destruct (decide (Fs.enter loc seg = l)) as [<-|Hne]; [done|].
          by rewrite lookup_insert_ne in Hnone. }
      assert (Hdir : ∀ l, Fs.node_at v l = Some Fs.Dir → Fs.node_at v' l = Some Fs.Dir).
      { intros [|x l]; [done|]. simpl. apply Hkeep'. }
      assert (Hdir' : Fs.node_at v' (Fs.enter loc seg) = Some Fs.Dir).
      { destruct (Fs.enter loc seg) as [|x l] eqn:He; [done|]. simpl.
        apply Hkeep. by rewrite lookup_insert_eq. }
      rewrite (Hdir loc Hloc), Hdir'. done.
Qed.

Lemma mkdir_from_error (v : Fs.volume) loc segs e :
  Fs.mkdir_from v loc segs = inl e → e = FileExistsError ∨ e = NotADirectoryError.
Proof.
  revert v loc. induction segs as [|seg rest IH]; intros v loc; [done|].
  simpl. destruct (Fs.node_at v (Fs.enter loc seg)) as [[c|]|]; eauto.
  intros [= <-]. destruct rest; auto.
Qed.

(** X1: [create_task_dir] either fails on a regular file standing in
    the way, or leaves the task directory as a directory: everything
    that was on the volume is still there, what is new is a directory,
    and creating the directory again changes nothing. *)
Theorem create_task_dir_makes_directory fs task_id :
  match create_task_dir fs task_id with
  | inr (fs', task_dir) =>
      task_dir = get_task_dir task_id
      ∧ (∃ loc, Fs.stat fs' task_dir = Some (loc, Fs.Dir))
      ∧ (∀ l n, fs !! l = Some n → fs' !! l = Some n)
      ∧ (∀ l, fs' !! l = fs !! l ∨ (fs !! l = None ∧ fs' !! l = Some Fs.Dir))
      ∧ create_task_dir fs' task_id = inr (fs', task_dir)
  | inl e => e = FileExistsError ∨ e = NotADirectoryError
  end.
Proof.
  unfold create_task_dir, Fs.mkdir_parents.
  destruct (Fs.mkdir_from fs [] (get_task_dir task_id)) as [e|fs'] eqn:Hmk.
  - by eapply mkdir_from_error.
  - destruct (mkdir_from_spec fs fs' [] _ Hmk eq_refl)
      as (Hkeep & Hnew & (l & Hwalk & Hl) & Hagain).
    split; [done|]. split.
    { exists l. unfold Fs.stat. rewrite Hwalk. simpl. by rewrite Hl. }
    split; [done|]. split; [done|]. by rewrite Hagain.
Qed.

Lemma join_output_md p : Fs.join p "output.md" = p ++ ["output.md"].
Proof. done. Qed.

Lemma join_output_artifacts p :
  Fs.join p "output_artifacts" = p ++ ["output_artifacts"].
Proof. done. Qed.

Lemma node_at_snoc (v : Fs.volume) dir name :
  Fs.node_at v (dir ++ [name]) = v !! (dir ++ [name]).
Proof. by destruct dir. Qed.

(** X2: when the task directory is there and [output.md] is not a
    directory, [save_markdown] succeeds and returns the path of
    [output.md]; a text without carriage return is what [get_markdown]
    then reads, the task has its Markdown, and nothing else on the
    volume has changed.  (Python writes the text as it is and reads
    every carriage return as a line feed; only text without carriage
    returns comes back unchanged.) *)
Theorem save_markdown_round_trip fs task_id content dir :
  Fs.stat fs (get_task_dir task_id) = Some (dir, Fs.Dir) →
  fs !! (dir ++ ["output.md"]) ≠ Some Fs.Dir →
  Str.mem "013" content = false →
  ∃ fs',
    save_markdown fs task_id content
    = inr (fs', Fs.join (get_task_dir task_id) "output.md")
    ∧ get_markdown fs' task_id = inr (Some content)
    ∧ task_has_markdown fs' task_id = true
    ∧ fs' = <[dir ++ ["output.md"] := Fs.File content]> fs.
Proof.
  intros Hdir Hmd _. unfold save_markdown, get_markdown, task_has_markdown.
  rewrite join_output_md.
  destruct (Fs.write_text fs (get_task_dir task_id ++ ["output.md"]) content)
    as [e|fs'] eqn:Hw.
  { exfalso. unfold Fs.write_text in Hw.
    rewrite removelast_last, last_last, Hdir in Hw.
    destruct (get_task_dir task_id ++ ["output.md"]) eqn:Hp;
      [by destruct (get_task_dir task_id)|].
    unfold Fs.enter in Hw. rewrite decide_False in Hw by done.
    rewrite node_at_snoc in Hw.
    by destruct (fs !! (dir ++ ["output.md"])) as [[|]|]. }
  exists fs'. split; [done|].
  pose proof (FsFacts.read_write _ _ _ _ Hw) as Hread.
  assert (Fs.exists_ fs' (get_task_dir task_id ++ ["output.md"]) = true) as Hex.
  { apply bool_decide_eq_true. unfold Fs.read_text in Hread.
    by destruct (Fs.stat fs' _) as [[? []]|]. }
  rewrite Hex, Hread. split; [done|]. split; [done|].
  apply FsFacts.write_text_inv in Hw as (parent & _ & Hwalk & _ & _ & ->).
  rewrite removelast_last, last_last in *.
  unfold Fs.stat in Hdir. rewrite Hwalk in Hdir. simpl in Hdir.
  destruct (Fs.node_at fs parent); [|done]. injection Hdir as -> _.
  unfold Fs.enter. by rewrite decide_False.
Qed.

Lemma walk_error_app (v : Fs.volume) loc a b l :
  Fs.walk v loc a = Some l → Fs.walk_error v loc (a ++ b) = Fs.walk_error v l b.
Proof.
  revert loc. induction a as [|seg a IH]; intros loc; simpl.
  - by intros [= ->].
  - destruct (Fs.node_at v loc) as [[c|]|]; try done. apply IH.
Qed.

(** A resolution that fails runs into a regular file, or else into
    something missing. *)
Lemma walk_error_cases (v : Fs.volume) loc segs :
  Fs.walk_error v loc segs = FileNotFoundError
  ∨ Fs.walk_error v loc segs = NotADirectoryError
    ∧ ∃ a b l c, segs = a ++ b ∧ Fs.walk v loc a = Some l
                 ∧ Fs.node_at v l = Some (Fs.File c).
Proof.
  revert loc. induction segs as [|seg segs IH]; intros loc; [by left|].
  simpl. destruct (Fs.node_at v loc) as [[c|]|] eqn:Hloc.
  - right. split; [done|]. by exists [], (seg :: segs), loc, c.
  - destruct (IH (Fs.enter loc seg)) as [Hmissing|(Hfile & a & b & l & c & -> & Ha & Hl)];
      [by left|].
    right. split; [done|]. exists (seg :: a), b, l, c.
    split; [done|]. split; [|done]. simpl. by rewrite Hloc.
  - by left.
Qed.

Lemma is_file_walk (v : Fs.volume) p l c :
  Fs.walk v [] p = Some l → Fs.node_at v l = Some (Fs.File c) →
  Fs.is_file v p = true.
Proof.
  intros Hwalk Hl. unfold Fs.is_file, Fs.stat. rewrite Hwalk. simpl.
  by rewrite Hl.
Qed.

(** X3: [save_markdown] does not create the task directory, it
    raises.  When the path of the task directory runs into a regular
    file, at the directory itself or before it, the write raises
    [NotADirectoryError]; when the directory does not exist and no
    regular file stands on the way to it, [FileNotFoundError]. *)
Theorem save_markdown_needs_task_dir fs task_id content :
  (∀ front back,
     get_task_dir task_id = front ++ back → Fs.is_file fs front = true →
     save_markdown fs task_id content = inl NotADirectoryError)
  ∧ (Fs.exists_ fs (get_task_dir task_id) = false →
     (∀ front back,
        get_task_dir task_id = front ++ back → Fs.is_file fs front = false) →
     save_markdown fs task_id content = inl FileNotFoundError).
Proof.
  unfold save_markdown. rewrite join_output_md.
  unfold Fs.write_text. rewrite removelast_last.
  assert (∀ A (x y : A) (p : Fs.path),
            match p ++ ["output.md"] with [] => x | _ :: _ => y end = y) as Hcons.
  { intros A x y p. by destruct p. }
  rewrite !Hcons. split.
  - intros front back Hsplit Hfile. unfold Fs.is_file in Hfile.
    destruct (Fs.stat fs front) as [[l [c|]]|] eqn:Hfront; try done.
    unfold Fs.stat in Hfront.
    destruct (Fs.walk fs [] front) as [l'|] eqn:Hwalk; [|done].
    simpl in Hfront.
    destruct (Fs.node_at fs l') as [n|] eqn:Hnode; [|done].
    injection Hfront as -> ->.
    destruct back as [|seg back].
    + rewrite Hsplit, app_nil_r. unfold Fs.stat. rewrite Hwalk. simpl.
      by rewrite Hnode.
    + assert (Fs.stat fs (get_task_dir task_id) = None) as ->.
      { rewrite Hsplit. unfold Fs.stat. rewrite FsFacts.walk_app, Hwalk.
        simpl. by rewrite Hnode. }
      rewrite Hsplit, (walk_error_app _ _ _ _ _ Hwalk). simpl.
      by rewrite Hnode.
  - intros Hex Hway. apply bool_decide_eq_false in Hex.
    destruct (Fs.stat fs (get_task_dir task_id)) as [st|] eqn:Hst.
    { exfalso. apply Hex. by exists st. }
    destruct (walk_error_cases fs [] (get_task_dir task_id))
      as [->|(_ & a & b & l & c & Hsplit & Hwalk & Hl)]; [done|].
    pose proof (is_file_walk fs a l c Hwalk Hl) as Hfile.
    by rewrite (Hway a b Hsplit) in Hfile.
Qed.

(** Resolution of a path without [".."]: the locations visited are
    the prefixes of the path. *)
Lemma walk_outside (v v' : Fs.volume) gone loc q :
  (∀ l, ¬ gone `prefix_of` l → v' !! l = v !! l) →
  ".." ∉ q → ¬ gone `prefix_of` (loc ++ q) →
  Fs.walk v' loc q = Fs.walk v loc q
  ∧ ∀ l, Fs.walk v loc q = Some l → l = loc ++ q.
Proof.
  intros Hsame. revert loc. induction q as [|seg rest IH]; intros loc Hq Hout.
  - simpl. split; [done|]. intros l [= <-]. by rewrite app_nil_r.
  - apply not_elem_of_cons in Hq as [Hseg Hrest]. simpl.
    assert (Fs.node_at v' loc = Fs.node_at v loc) as ->.
    { destruct loc as [|x loc]; [done|]. simpl. apply Hsame.
      intros Hpre. apply Hout. etrans; [done|]. by apply prefix_app_r. }
    unfold Fs.enter. rewrite decide_False by done.
    destruct (IH (loc ++ [seg]) Hrest) as [Hw Hl].
    { by rewrite <- app_assoc. }
    destruct (Fs.node_at v loc) as [[c|]|]; [done| |done].
    split; [done|]. intros l Hwalk. rewrite (Hl l Hwalk). by rewrite <- app_assoc.
Qed.

Lemma stat_outside (v v' : Fs.volume) gone q :
  (∀ l, ¬ gone `prefix_of` l → v' !! l = v !! l) →
  ".." ∉ q → ¬ gone `prefix_of` q →
  Fs.stat v' q = Fs.stat v q.
Proof.
  intros Hsame Hq Hout. unfold Fs.stat.
  destruct (walk_outside v v' gone [] q Hsame Hq Hout) as [-> Hl].
  destruct (Fs.walk v [] q) as [l|]; [|done]. simpl.
  rewrite (Hl l eq_refl). simpl.
  destruct q as [|x q]; [done|]. simpl. by rewrite Hsame.
Qed.

Lemma stat_plain (v : Fs.volume) q l n :
  ".." ∉ q → Fs.stat v q = Some (l, n) → l = q.
Proof.
  intros Hq. unfold Fs.stat.
  destruct (walk_outside v v (q ++ ["."]) [] q) as [_ Hl]; [done|done| |].
  { intros Hpre%prefix_length. rewrite length_app in Hpre. simpl in *. lia. }
  destruct (Fs.walk v [] q) as [l'|]; [|done]. simpl.
  rewrite (Hl l' eq_refl). simpl. destruct (Fs.node_at v q); [|done].
  by intros [= <- _].
Qed.

(** Nothing resolves through a location that is not there. *)
Lemma stat_through_missing (v : Fs.volume) p l rest :
  Fs.walk v [] p = Some l → Fs.node_at v l = None →
  Fs.stat v (p ++ rest) = None.
Proof.
  intros Hwalk Hl. unfold Fs.stat. rewrite FsFacts.walk_app, Hwalk. simpl.
  destruct rest as [|seg rest]; simpl; by rewrite Hl.
Qed.

(** [shutil.rmtree] on a directory whose path has no [".."]: the
    directory and everything below it is gone, the rest is as before. *)
Lemma rmtree_directory (v : Fs.volume) parent name :
  ".." ∉ parent → name ≠ ".." →
  Fs.stat v (parent ++ [name]) = Some (parent ++ [name], Fs.Dir) →
  ∃ v',
    Fs.rmtree v (parent ++ [name]) = (v', None)
    ∧ ∀ l, v' !! l = if decide (parent ++ [name] `prefix_of` l) then None else v !! l.
Proof.
  intros Hparent Hname Hstat.
  assert (Hshort : ¬ parent ++ [name] `prefix_of` parent).
  { intros Hpre%prefix_length. rewrite length_app in Hpre. simpl in Hpre. lia. }
  assert (Hpar : Fs.stat v parent = Some (parent, Fs.Dir)).
  { unfold Fs.stat in Hstat |- *. rewrite FsFacts.walk_app in Hstat.
    destruct (walk_outside v v (parent ++ [name]) [] parent) as [_ Hl];
      [done|done|done|].
    destruct (Fs.walk v [] parent) as [l|]; [|done]. simpl in Hstat |- *.
    rewrite (Hl l eq_refl) in Hstat |- *. simpl in Hstat |- *.
    by destruct (Fs.node_at v parent) as [[c|]|]. }
  unfold Fs.rmtree. rewrite Hstat.
  rewrite decide_False by (by destruct parent).
  rewrite removelast_last, last_last.
  set (gone := parent ++ [name]) in *.
  set (emptied := filter (λ kv : list string * Fs.node,
                            ¬ (gone `prefix_of` kv.1 ∧ kv.1 ≠ gone)) v).
  assert (Hemptied : ∀ l, ¬ gone `prefix_of` l → emptied !! l = v !! l).
  { intros l Hl. unfold emptied. destruct (v !! l) as [n|] eqn:Hv.
    - apply map_lookup_filter_Some. split; [done|]. simpl. tauto.
    - apply map_lookup_filter_None. by left. }
  rewrite (stat_outside v emptied gone parent Hemptied Hparent Hshort), Hpar.
  rewrite decide_False by done.
  unfold Fs.enter. rewrite decide_False by done. fold gone.
  eexists. split; [done|]. intros l.
  destruct (decide (gone = l)) as [<-|Hne].
  { rewrite decide_True by done. by rewrite lookup_delete_eq. }
  rewrite lookup_delete_ne by done.
  destruct (decide (gone `prefix_of` l)) as [Hpre|Hpre]; [|by apply Hemptied].
  apply map_lookup_filter_None. right. intros n _. simpl. intros Hkeep.
  apply Hkeep. split; [done|]. congruence.
Qed.

Lemma get_task_dir_plain task_id :
  Fs.plain_component task_id → get_task_dir task_id = STORAGE_DIR ++ [task_id].
Proof. apply join_plain. Qed.

Lemma relative_join p s :
  Str.startswith "/" s = false → Fs.join p s = p ++ Fs.parts s.
Proof. unfold Fs.join. by intros ->. Qed.

(** Deleting the files of a task whose directory is there: the call
    returns [True] and nothing resolves through the directory any
    more. *)
Lemma delete_task_files_gone fs task_id :
  ".." ∉ STORAGE_DIR → Fs.plain_component task_id →
  Fs.stat fs (get_task_dir task_id) = Some (get_task_dir task_id, Fs.Dir) →
  ∃ fs',
    delete_task_files fs task_id = (fs', inr true)
    ∧ ∀ rest, Fs.stat fs' (get_task_dir task_id ++ rest) = None.
Proof.
  intros Hroot Hplain Hstat. unfold delete_task_files.
  assert (Fs.exists_ fs (get_task_dir task_id) = true) as ->.
  { apply bool_decide_eq_true. by rewrite Hstat. }
  rewrite (get_task_dir_plain _ Hplain) in *.
  destruct (rmtree_directory fs STORAGE_DIR task_id Hroot) as (fs' & -> & Hfs');
    [by destruct Hplain as (_ & _ & ? & _)|done|].
  exists fs'. split; [done|].
  set (gone := STORAGE_DIR ++ [task_id]) in *.
  assert (Hout : ∀ l, ¬ gone `prefix_of` l → fs' !! l = fs !! l).
  { intros l Hl. rewrite Hfs'. by rewrite decide_False. }
  assert (Hshort : ¬ gone `prefix_of` STORAGE_DIR).
  { intros Hpre%prefix_length. unfold gone in Hpre. rewrite length_app in Hpre.
    simpl in Hpre. lia. }
  intros rest. apply (stat_through_missing fs' gone gone).
  - unfold gone at 1. rewrite FsFacts.walk_app.
    destruct (walk_outside fs fs' gone [] STORAGE_DIR Hout Hroot Hshort)
      as [-> Hl].
    unfold Fs.stat in Hstat. unfold gone in Hstat at 1.
    rewrite FsFacts.walk_app in Hstat.
    destruct (Fs.walk fs [] STORAGE_DIR) as [l|]; [|done].
    rewrite (Hl l eq_refl) in Hstat |- *. simpl in Hstat |- *.
    assert (Fs.node_at fs' STORAGE_DIR = Fs.node_at fs STORAGE_DIR) as ->.
    { destruct STORAGE_DIR as [|x sd] eqn:Hsd; [done|]. simpl. by apply Hout. }
    destruct (Fs.node_at fs STORAGE_DIR) as [[c|]|]; try done.
    unfold Fs.enter. rewrite decide_False; [done|].
    by destruct Hplain as (_ & _ & ? & _).
  - unfold gone. rewrite node_at_snoc, Hfs'. by rewrite decide_True.
Qed.

(** X4: deleting the files of a task whose directory is there removes
    all of it: the call returns [True]; afterwards the task has no
    Markdown, no archive and no image under any relative file name, and
    a second call returns [False] and changes nothing. *)
Theorem delete_task_files_removes_task fs task_id :
  ".." ∉ STORAGE_DIR → Fs.plain_component task_id →
  Fs.stat fs (get_task_dir task_id) = Some (get_task_dir task_id, Fs.Dir) →
  ∃ fs',
    delete_task_files fs task_id = (fs', inr true)
    ∧ task_has_markdown fs' task_id = false
    ∧ get_markdown fs' task_id = inr None
    ∧ create_markdown_zip fs' task_id = inr None
    ∧ (∀ filename, Str.startswith "/" filename = false →
         get_image_path fs' task_id filename = None)
    ∧ delete_task_files fs' task_id = (fs', inr false).
Proof.
  intros Hroot Hplain Hstat.
  destruct (delete_task_files_gone fs task_id Hroot Hplain Hstat)
    as (fs' & Hdel & Hgone).
  exists fs'. split; [done|].
  assert (Hno : ∀ rest, Fs.exists_ fs' (get_task_dir task_id ++ rest) = false).
  { intros rest. apply bool_decide_eq_false. rewrite Hgone. by intros [? ?]. }
  unfold task_has_markdown, get_markdown, create_markdown_zip, get_image_path,
    delete_task_files.
  rewrite join_output_md, join_output_artifacts, !Hno. simpl.
  split; [done|]. split; [done|]. split; [done|]. split.
  - intros filename Hrel. rewrite (relative_join _ _ Hrel), <- app_assoc.
    by rewrite Hno.
  - by rewrite <- (app_nil_r (get_task_dir task_id)), Hno.
Qed.

(** X5: deleting the files of one task, whatever the outcome, leaves
    the other tasks alone: their Markdown and their images are served
    as before, and nothing outside the directory of the task has
    changed. *)
Theorem delete_task_files_keeps_others fs task_id other :
  ".." ∉ STORAGE_DIR → Fs.plain_component task_id →
  Fs.plain_component other → other ≠ task_id →
  let fs' := (delete_task_files fs task_id).1 in
  get_markdown fs' other = get_markdown fs other
  ∧ task_has_markdown fs' other = task_has_markdown fs other
  ∧ (∀ filename, Fs.plain_component filename →
       get_image_path fs' other filename = get_image_path fs other filename)
  ∧ (∀ l, ¬ get_task_dir task_id `prefix_of` l → fs' !! l = fs !! l).
Proof.
  intros Hroot Hplain Hother Hne fs'.
  assert (Hout : ∀ l, ¬ get_task_dir task_id `prefix_of` l → fs' !! l = fs !! l).
  { unfold fs', delete_task_files.
    destruct (Fs.exists_ fs (get_task_dir task_id)) eqn:Hex; [|done].
    apply bool_decide_eq_true in Hex as [[loc n] Hstat].
    unfold Fs.rmtree. rewrite Hstat. destruct n as [c|]; [done|].
    rewrite (get_task_dir_plain _ Hplain) in *.
    assert (loc = STORAGE_DIR ++ [task_id]) as ->.
    { apply (stat_plain fs _ _ Fs.Dir); [|done].
      rewrite not_elem_of_app, not_elem_of_cons. split; [done|]. split; [|apply not_elem_of_nil].
      destruct Hplain as (_ & _ & ? & _). congruence. }
    rewrite decide_False by (by destruct STORAGE_DIR).
    set (gone := STORAGE_DIR ++ [task_id]).
    set (emptied := filter (λ kv : list string * Fs.node,
                              ¬ (gone `prefix_of` kv.1 ∧ kv.1 ≠ gone)) fs).
    assert (Hemptied : ∀ l, ¬ gone `prefix_of` l → emptied !! l = fs !! l).
    { intros l Hl. unfold emptied. destruct (fs !! l) as [n|] eqn:Hv.
      - apply map_lookup_filter_Some. split; [done|]. simpl. tauto.
      - apply map_lookup_filter_None. by left. }
    destruct (rmtree_directory fs STORAGE_DIR task_id Hroot) as (v' & Hrm & Hv');
      [by destruct Hplain as (_ & _ & ? & _)|done|].
    unfold Fs.rmtree in Hrm. rewrite Hstat in Hrm.
    rewrite decide_False in Hrm by (by destruct STORAGE_DIR).
    fold gone in Hrm. fold emptied in Hrm. rewrite Hrm. simpl.
    intros l Hl. rewrite Hv'. by rewrite decide_False. }
  assert (Hstat : ∀ rest, ".." ∉ rest →
            Fs.stat fs' (get_task_dir other ++ rest)
            = Fs.stat fs (get_task_dir other ++ rest)).
  { intros rest Hrest. apply (stat_outside fs fs' (get_task_dir task_id)); [done| |].
    - rewrite (get_task_dir_plain _ Hother), !not_elem_of_app, not_elem_of_cons.
      split; [|done]. split; [done|]. split; [|apply not_elem_of_nil].
      destruct Hother as (_ & _ & ? & _). congruence.
    - rewrite (get_task_dir_plain _ Hother), (get_task_dir_plain _ Hplain).
      rewrite <- !app_assoc. intros Hpre%prefix_app_inv. simpl in Hpre.
      apply prefix_cons_inv_1 in Hpre. congruence. }
  assert (Hex : ∀ rest, ".." ∉ rest →
            Fs.exists_ fs' (get_task_dir other ++ rest)
            = Fs.exists_ fs (get_task_dir other ++ rest)).
  { intros rest Hrest. unfold Fs.exists_. by rewrite Hstat. }
  assert (Hmd : ".." ∉ ["output.md"]).
  { rewrite not_elem_of_cons. split; [done|apply not_elem_of_nil]. }
  unfold get_markdown, task_has_markdown, get_image_path, Fs.read_text.
  rewrite join_output_md, join_output_artifacts, (Hex _ Hmd), (Hstat _ Hmd).
  split; [done|]. split; [done|]. split; [|done].
  intros filename Hfile. rewrite (join_plain _ _ Hfile), <- app_assoc.
  rewrite Hex; [done|]. simpl. rewrite !not_elem_of_cons.
  split; [done|]. split; [|apply not_elem_of_nil].
  destruct Hfile as (_ & _ & ? & _). congruence.
Qed.

End Store.

Lemma save_markdown_round_trip_witness :
  ∃ fs',
    save_markdown (E:=Demo.env) Demo.empty_task "A" "# notes"
    = inr (fs', Fs.join (get_task_dir (E:=Demo.env) "A") "output.md")
    ∧ get_markdown (E:=Demo.env) fs' "A" = inr (Some "# notes")
    ∧ task_has_markdown (E:=Demo.env) fs' "A" = true
    ∧ fs' = <[["srv"; "storage"; "output"; "A"] ++ ["output.md"]
              := Fs.File "# notes"]> Demo.empty_task.
Proof.
  apply (save_markdown_round_trip (E:=Demo.env) Demo.empty_task "A" "# notes"
           ["srv"; "storage"; "output"; "A"]).
  - by vm_compute.
  - by vm_compute.
  - reflexivity.
Defined.

Lemma save_markdown_needs_task_dir_witness :
  save_markdown (E:=Demo.env) Demo.noted_task "A/output.md/x" "text"
  = inl NotADirectoryError
  ∧ save_markdown (E:=Demo.env) Demo.noted_task "B" "text"
    = inl FileNotFoundError.
Proof.
  split.
  - apply (proj1 (save_markdown_needs_task_dir (E:=Demo.env) Demo.noted_task
                    "A/output.md/x" "text")
             ["srv"; "storage"; "output"; "A"; "output.md"] ["x"]).
    + vm_compute. reflexivity.
    + vm_compute. reflexivity.
  - apply (proj2 (save_markdown_needs_task_dir (E:=Demo.env) Demo.noted_task
                    "B" "text")).
    + vm_compute. reflexivity.
    + intros front back Hsplit.
      change (get_task_dir (E:=Demo.env) "B")
        with ["srv"; "storage"; "output"; "B"] in Hsplit.
      do 4 (destruct front as [|? front];
            [vm_compute; reflexivity|injection Hsplit as <- Hsplit]).
      destruct front; [vm_compute; reflexivity|discriminate].
Defined.

Lemma delete_task_files_removes_task_witness :
  ∃ fs',
    delete_task_files (E:=Demo.env) Demo.report_volume "A" = (fs', inr true)
    ∧ task_has_markdown (E:=Demo.env) fs' "A" = false
    ∧ get_markdown (E:=Demo.env) fs' "A" = inr None
    ∧ create_markdown_zip (E:=Demo.env) fs' "A" = inr None
    ∧ (∀ filename, Str.startswith "/" filename = false →
         get_image_path (E:=Demo.env) fs' "A" filename = None)
    ∧ delete_task_files (E:=Demo.env) fs' "A" = (fs', inr false).
Proof.
  apply (delete_task_files_removes_task (E:=Demo.env) Demo.report_volume "A").
  - apply (bool_decide_unpack _). by vm_compute.
  - repeat split; by vm_compute.
  - by vm_compute.
Defined.

Lemma delete_task_files_keeps_others_witness :
  let fs' := (delete_task_files (E:=Demo.env) Demo.report_volume "A").1 in
  get_markdown (E:=Demo.env) fs' "B" = get_markdown (E:=Demo.env) Demo.report_volume "B"
  ∧ task_has_markdown (E:=Demo.env) fs' "B"
    = task_has_markdown (E:=Demo.env) Demo.report_volume "B"
  ∧ (∀ filename, Fs.plain_component filename →
       get_image_path (E:=Demo.env) fs' "B" filename
       = get_image_path (E:=Demo.env) Demo.report_volume "B" filename)
  ∧ (∀ l, ¬ get_task_dir (E:=Demo.env) "A" `prefix_of` l →
          fs' !! l = Demo.report_volume !! l).
Proof.
  apply (delete_task_files_keeps_others (E:=Demo.env) Demo.report_volume "A" "B").
  - apply (bool_decide_unpack _). by vm_compute.
  - repeat split; by vm_compute.
  - repeat split; by vm_compute.
  - by vm_compute.
Defined.

(** ** Titles and conversion results ([app/services/converter.py]) *)

Section Titles.
Context {E : Env}.
Import Str.

Lemma rev_app_acc s t : String.rev_app s t = String.rev s +:+ t.
Proof.
  unfold String.rev. revert t. induction s as [|a s IH]; intros t; [done|].
  simpl. rewrite (IH (String a t)), (IH (String a "")).
  by rewrite StrFacts.app_assoc.
Qed.

Lemma rev_cons a s : String.rev (String a s) = String.rev s +:+ String a "".
Proof. unfold String.rev at 1. simpl. apply rev_app_acc. Qed.

Lemma rev_app s t : String.rev (s +:+ t) = String.rev t +:+ String.rev s.
Proof.
  induction s as [|a s IH].
  - by rewrite StrFacts.app_nil_r.
  - rewrite StrFacts.app_cons, !rev_cons, IH. by rewrite StrFacts.app_assoc.
Qed.

Lemma rev_involutive s : String.rev (String.rev s) = s.
Proof.
  induction s as [|a s IH]; [done|]. rewrite rev_cons, rev_app, IH. done.
Qed.

Lemma length_rev s : String.length (String.rev s) = String.length s.
Proof.
  induction s as [|a s IH]; [done|].
  rewrite rev_cons, StrFacts.length_app, IH. simpl. lia.
Qed.

Lemma made_of_app pieces s t :
  made_of pieces s → made_of pieces t → made_of pieces (s +:+ t).
Proof.
  induction 1 as [|w s Hw Hs IH]; [done|]. intros Ht.
  rewrite StrFacts.app_assoc. constructor; [done|]. by apply IH.
Qed.

Lemma made_of_rev pieces s :
  made_of (map String.rev pieces) s → made_of pieces (String.rev s).
Proof.
  induction 1 as [|w s Hw Hs IH]; [constructor|].
  rewrite rev_app. apply made_of_app; [done|].
  apply list_elem_of_In, in_map_iff in Hw as (w' & <- & Hw').
  rewrite rev_involutive, <- (StrFacts.app_nil_r w').
  constructor; [by apply list_elem_of_In|constructor].
Qed.

Lemma after_space_Some spaces s r :
  after_space spaces s = Some r → ∃ w, w ∈ spaces ∧ s = w +:+ r.
Proof.
  unfold after_space.
  destruct (find (λ w, startswith w s) spaces) as [w|] eqn:Hf; [|done].
  intros [= <-]. apply find_some in Hf as [Hin Hs]. exists w.
  split; [by apply list_elem_of_In|]. by apply StrFacts.startswith_inv.
Qed.

Lemma after_space_None spaces s :
  after_space spaces s = None → ∀ w rest, w ∈ spaces → s ≠ w +:+ rest.
Proof.
  unfold after_space.
  destruct (find (λ w, startswith w s) spaces) eqn:Hf; [done|].
  intros _ w rest Hw ->. apply list_elem_of_In in Hw.
  pose proof (find_none _ _ Hf w Hw) as Hn. simpl in Hn.
  by rewrite StrFacts.startswith_app in Hn.
Qed.

(** What [lstrip_from] takes off is made of [spaces], and what it
    leaves does not begin with one of them. *)
Lemma lstrip_from_spec spaces n s :
  "" ∉ spaces → String.length s ≤ n →
  ∃ lead, made_of spaces lead ∧ s = lead +:+ lstrip_from spaces n s
          ∧ ∀ w rest, w ∈ spaces → lstrip_from spaces n s ≠ w +:+ rest.
Proof.
  intros Hne. revert s. induction n as [|n IH]; intros s Hn.
  - exists "". split; [constructor|]. split; [done|].
    intros w rest Hw Hs. destruct s; [|simpl in Hn; lia]. simpl in Hs.
    destruct w; [done|done].
  - simpl. destruct (after_space spaces s) as [r|] eqn:Ha.
    + apply after_space_Some in Ha as (w & Hw & ->).
      destruct (IH r) as (lead & Hlead & Hr & Hno).
      { rewrite StrFacts.length_app in Hn.
        destruct w; [done|]. simpl in Hn. lia. }
      exists (w +:+ lead). split; [by constructor|]. split; [|done].
      rewrite StrFacts.app_assoc. by rewrite <- Hr.
    + exists "". split; [constructor|]. split; [done|].
      by apply after_space_None.
Qed.

Lemma whitespace_not_empty : "" ∉ whitespace.
Proof. apply (bool_decide_unpack _). by vm_compute. Qed.

Lemma lstrip_spec s :
  ∃ lead, blank lead ∧ s = lead +:+ lstrip s
          ∧ ∀ w rest, w ∈ whitespace → lstrip s ≠ w +:+ rest.
Proof. apply lstrip_from_spec; [apply whitespace_not_empty|done]. Qed.

Lemma rstrip_spec s :
  ∃ trail, blank trail ∧ s = rstrip s +:+ trail
           ∧ ∀ w front, w ∈ whitespace → rstrip s ≠ front +:+ w.
Proof.
  destruct (lstrip_from_spec (map String.rev whitespace) (String.length s)
              (String.rev s)) as (lead & Hlead & Hs & Hno).
  { apply (bool_decide_unpack _). by vm_compute. }
  { by rewrite length_rev. }
  exists (String.rev lead). split; [by apply made_of_rev|]. split.
  - unfold rstrip. rewrite <- rev_app, <- Hs. by rewrite rev_involutive.
  - intros w front Hw Hend. unfold rstrip in Hend.
    apply (f_equal String.rev) in Hend.
    rewrite rev_involutive, rev_app in Hend.
    apply (Hno _ _ (proj2 (list_elem_of_In _ _)
                      (in_map String.rev _ _ (proj1 (list_elem_of_In _ _) Hw)))
             Hend).
Qed.

(** [s.strip()] is [s] without the white space at its two ends. *)
Lemma strip_spec s :
  ∃ lead trail,
    blank lead ∧ blank trail ∧ s = lead +:+ strip s +:+ trail
    ∧ (∀ w rest, w ∈ whitespace → strip s ≠ w +:+ rest)
    ∧ (∀ w front, w ∈ whitespace → strip s ≠ front +:+ w).
Proof.
  destruct (lstrip_spec s) as (lead & Hlead & Hs & Hno).
  destruct (rstrip_spec (lstrip s)) as (trail & Htrail & Hl & Hend).
  exists lead, trail. fold (strip s) in Hl, Hend.
  split; [done|]. split; [done|]. split; [by rewrite <- Hl|].
  split; [|done]. intros w rest Hw Hstart. apply (Hno w (rest +:+ trail) Hw).
  by rewrite Hl, Hstart, StrFacts.app_assoc.
Qed.

(** X6: the title read from the metadata is the metadata title without
    the white space at its two ends, white space being the characters
    of [str.isspace].  A title that is returned is not empty, neither
    begins nor ends with white space, and stands in the metadata title
    between two runs of white space.  No title is returned only when the
    reader raises, when the document has no title and when its title is
    white space only. *)
Theorem get_pdf_title_is_stripped pdf_bytes :
  match get_pdf_title pdf_bytes with
  | Some title =>
      title ≠ ""
      ∧ (∀ w rest, w ∈ whitespace → title ≠ w +:+ rest)
      ∧ (∀ w front, w ∈ whitespace → title ≠ front +:+ w)
      ∧ ∃ lead trail,
          blank lead ∧ blank trail
          ∧ pypdf_title pdf_bytes = inr (Some (lead +:+ title +:+ trail))
  | None =>
      (∃ e, pypdf_title pdf_bytes = inl e)
      ∨ pypdf_title pdf_bytes = inr None
      ∨ ∃ raw, pypdf_title pdf_bytes = inr (Some raw) ∧ blank raw
  end.
Proof.
  unfold get_pdf_title.
  destruct (pypdf_title pdf_bytes) as [e|[raw|]]; [by left; exists e| |by right; left].
  destruct (decide (raw = "")) as [->|Hraw].
  { right. right. exists "". split; [done|constructor]. }
  destruct (strip_spec raw) as (lead & trail & Hlead & Htrail & Hs & Hstart & Hend).
  destruct (decide (strip raw = "")) as [Hempty|Hne].
  - right. right. exists raw. split; [done|].
    rewrite Hs, Hempty. by apply made_of_app.
  - split; [done|]. split; [done|]. split; [done|].
    exists lead, trail. by rewrite <- Hs.
Qed.

End Titles.

Lemma get_pdf_title_is_stripped_witness :
  let raw := Str.utf8 160 +:+ " Report" +:+ Str.utf8 12288
             +:+ String (ascii_of_nat 10) "" in
  get_pdf_title (E:=Demo.env) ("T:" +:+ raw +:+ "|x") = Some "Report"
  ∧ get_pdf_title (E:=Demo.env) ("T:" +:+ Str.utf8 160 +:+ " |x") = None
  ∧ ∃ lead trail,
      Str.blank lead ∧ Str.blank trail
      ∧ pypdf_title (Env:=Demo.env) ("T:" +:+ raw +:+ "|x")
        = inr (Some (lead +:+ "Report" +:+ trail)).
Proof.
  intros raw.
  pose proof (get_pdf_title_is_stripped (E:=Demo.env) ("T:" +:+ raw +:+ "|x"))
    as Htitle.
  assert (get_pdf_title (E:=Demo.env) ("T:" +:+ raw +:+ "|x") = Some "Report")
    as Hreport by (vm_compute; reflexivity).
  rewrite Hreport in Htitle.
  split; [exact Hreport|]. split; [vm_compute; reflexivity|].
  exact (proj2 (proj2 (proj2 Htitle))).
Defined.

(** ** What the conversion returns and writes *)

Section Outcome.
Context {E : Env}.
Import Str StrFacts Re ReFacts.

(** A file that has just been read can be written. *)
Lemma write_after_read (v : Fs.volume) p old new :
  Fs.read_text v p = inr old → ∃ v', Fs.write_text v p new = inr v'.
Proof.
  unfold Fs.read_text, Fs.write_text.
  destruct (Fs.stat v p) as [[loc [c|]]|] eqn:Hstat; try done. intros _.
  destruct p as [|x q] eqn:Hp; [done|]. rewrite <- Hp in *.
  assert (Hne : p ≠ []) by (by rewrite Hp).
  unfold Fs.stat in Hstat |- *.
  rewrite (app_removelast_last "" Hne) in Hstat at 1.
  rewrite FsFacts.walk_app in Hstat.
  destruct (Fs.walk v [] (removelast p)) as [parent|]; [|done].
  simpl in Hstat |- *.
  destruct (Fs.node_at v parent) as [[c'|]|]; try done. simpl in Hstat |- *.
  destruct (Fs.node_at v (Fs.enter parent (List.last p ""))) as [[c'|]|];
    try done; eauto.
Qed.

(** The outcome of a conversion follows from whether the text the
    engine saved can be read back. *)
Lemma conversion_cases fs task_id pdf_bytes :
  match saved_markdown fs task_id pdf_bytes with
  | Some md =>
      ∃ fs' title,
        convert_pdf_to_markdown fs task_id pdf_bytes = (fs', (true, Some title, None))
        ∧ title ≠ ""
        ∧ Fs.read_text fs' (Fs.join (get_task_dir task_id) "output.md")
          = inr (rewrite_image_paths task_id md)
  | None =>
      ∃ fs' message,
        convert_pdf_to_markdown fs task_id pdf_bytes
        = (fs', (false, None, Some message))
  end.
Proof.
  unfold convert_pdf_to_markdown, saved_markdown, failed.
  destruct (create_task_dir fs task_id) as [e|[fs1 task_dir]] eqn:Hdir; [by eauto|].
  assert (task_dir = get_task_dir task_id) as ->.
  { unfold create_task_dir in Hdir. destruct (Fs.mkdir_parents _ _); congruence. }
  destruct (docling_convert pdf_bytes) as [e|document]; [by eauto|].
  destruct (save_as_markdown document _ fs1) as [fs2 [e|]]; [by eauto|].
  destruct (Fs.read_text fs2 _) as [e|md] eqn:Hread; [by eauto|].
  destruct (write_after_read fs2 _ md (rewrite_image_paths task_id md) Hread)
    as [fs3 Hwrite].
  rewrite Hwrite. eexists _, _. split; [done|]. split.
  - by destruct (decide (doc_name document = "")).
  - by eapply FsFacts.read_write.
Qed.

(** X7: a conversion succeeds exactly when the text the engine saved
    can be read back.  It then returns a title that is not empty and
    no error, so that the default title of the caller is never used,
    and [output.md] holds the rewritten text; otherwise it returns no
    title and an error message. *)
Theorem conversion_outcome fs task_id pdf_bytes :
  match convert_pdf_to_markdown fs task_id pdf_bytes with
  | (fs', (true, title, error)) =>
      (∃ t, title = Some t ∧ t ≠ "" ∧ title_or_untitled title = t)
      ∧ error = None
      ∧ ∃ md, saved_markdown fs task_id pdf_bytes = Some md
              ∧ Fs.read_text fs' (Fs.join (get_task_dir task_id) "output.md")
                = inr (rewrite_image_paths task_id md)
  | (fs', (false, title, error)) =>
      title = None ∧ is_Some error
      ∧ saved_markdown fs task_id pdf_bytes = None
  end.
Proof.
  pose proof (conversion_cases fs task_id pdf_bytes) as Hcases.
  destruct (saved_markdown fs task_id pdf_bytes) as [md|].
  - destruct Hcases as (fs' & title & -> & Hne & Hread).
    split; [|split; [done|by exists md]].
    exists title. split; [done|]. split; [done|].
    unfold title_or_untitled. by rewrite decide_False.
  - destruct Hcases as (fs' & message & ->). by eauto.
Qed.

Lemma try_down_Some {X} (f : nat → option X) min n x :
  try_down f min n = Some x → ∃ k, f k = Some x.
Proof.
  induction n as [|n IH]; simpl.
  - destruct (0 <? min); [done|]. destruct (f 0) eqn:Hf; [|done].
    intros [= <-]. by exists 0.
  - destruct (S n <? min); [done|]. destruct (f (S n)) eqn:Hf; [|done].
    intros [= <-]. by exists (S n).
Qed.

Lemma contains_cons sub a s : contains sub s = true → contains sub (String a s) = true.
Proof. intros Hs. simpl. rewrite Hs. by rewrite orb_true_r. Qed.

Lemma contains_drop sub k s : contains sub (drop k s) = true → contains sub s = true.
Proof.
  revert s. induction k as [|k IH]; intros s; [by rewrite drop_0|].
  destruct s as [|a s]; [done|]. simpl drop. intros Hs. apply contains_cons. by apply IH.
Qed.

Lemma contains_here sub s : startswith sub s = true → contains sub s = true.
Proof. intros Hs. destruct s; simpl; by rewrite Hs. Qed.

(** A match of the converter's pattern holds the name of the engine's
    directory between two slashes. *)
Lemma artifact_ref_has_directory s r :
  match_at artifact_ref_pattern s = Some r →
  contains "/output_artifacts/" s = true.
Proof.
  unfold match_at, artifact_ref_pattern. rewrite match_here_lits.
  destruct (startswith "](" s); [|done]. intros Hm.
  change (try_down
            (λ k, match_here (lits "/output_artifacts/"
                              ++ [RepNot ")" 1; GClose; Lit ")"])
                    (drop k (drop 2 s)) (Some (drop 2 s)) [])
            1 (run ")" (drop 2 s)) = Some r) in Hm.
  apply try_down_Some in Hm as (k & Hk).
  rewrite match_here_lits in Hk.
  destruct (startswith "/output_artifacts/" (drop k (drop 2 s))) eqn:Hstart; [|done].
  eapply contains_drop, contains_drop. by apply contains_here.
Qed.

Lemma unmatched_everywhere p s :
  (∀ k, match_at p (drop k s) = None) → unmatched p s "" = true.
Proof.
  induction s as [|a s IH]; [done|]. intros Hno. simpl.
  rewrite app_nil_r. pose proof (Hno 0) as H0. rewrite drop_0 in H0. rewrite H0.
  apply IH. intros k. apply (Hno (S k)).
Qed.

Lemma sub_nowhere p repl s :
  (∀ k, match_at p (drop k s) = None) → Re.sub p repl s = s.
Proof.
  intros Hno. apply sub_without_match; [by apply unmatched_everywhere|].
  specialize (Hno (String.length s)). by rewrite drop_length in Hno.
Qed.

(** X8: a text that does not contain [/output_artifacts/] goes through
    the rewriting of the converter unchanged, so that the Markdown of a
    document without pictures is stored as the engine wrote it. *)
Theorem text_without_artifacts_unchanged task_id md :
  contains "/output_artifacts/" md = false →
  rewrite_image_paths task_id md = md
  ∧ ∀ fs pdf_bytes,
      saved_markdown fs task_id pdf_bytes = Some md →
      Fs.read_text (convert_pdf_to_markdown fs task_id pdf_bytes).1
        (Fs.join (get_task_dir task_id) "output.md") = inr md.
Proof.
  intros Hno.
  assert (Hsame : rewrite_image_paths task_id md = md).
  { apply sub_nowhere. intros k.
    destruct (match_at artifact_ref_pattern (drop k md)) as [r|] eqn:Hm; [|done].
    apply artifact_ref_has_directory, contains_drop in Hm. congruence. }
  split; [done|]. intros fs pdf_bytes Hsaved.
  pose proof (conversion_cases fs task_id pdf_bytes) as Hcases.
  rewrite Hsaved in Hcases. destruct Hcases as (fs' & title & -> & _ & Hread).
  simpl. by rewrite Hread, Hsame.
Qed.

(** A match of the pattern of the archive holds the prefix of the
    images served by the API. *)
Lemma api_image_has_prefix s r :
  match_at api_image_pattern s = Some r →
  contains "](/api/images/" s = true.
Proof.
  unfold match_at, api_image_pattern. rewrite match_here_lits.
  destruct (startswith "![" s); [|done]. intros Hm.
  change (try_down
            (λ k, match_here
                    (lits "](/api/images/"
                     ++ RepNot "/" 1 :: Lit "/"
                        :: [GOpen; RepNot ")" 1; GClose; Lit ")"])
                    (drop k (drop 2 s)) None
                    ([] ++ [take (String.length (drop 2 s)
                                  - String.length (drop k (drop 2 s)))
                                 (drop 2 s)]))
            0 (run "]" (drop 2 s)) = Some r) in Hm.
  apply try_down_Some in Hm as (k & Hk).
  rewrite match_here_lits in Hk.
  destruct (startswith "](/api/images/" (drop k (drop 2 s))) eqn:Hstart; [|done].
  eapply contains_drop, contains_drop. by apply contains_here.
Qed.

(** X9: a text that does not contain [](/api/images/] goes into the
    archive as it is stored: [create_markdown_zip] changes nothing in
    the Markdown of a document without served images. *)
Theorem bundle_keeps_text_without_images fs task_id md :
  Fs.read_text fs (Fs.join (get_task_dir task_id) "output.md") = inr md →
  contains "](/api/images/" md = false →
  Re.sub api_image_pattern local_image_template md = md
  ∧ match create_markdown_zip fs task_id with
    | inr (Some zf) => head zf = Some ("output.md", md)
    | inr None => False
    | inl e => e = NotADirectoryError
    end.
Proof.
  intros Hread Hno.
  assert (Hsame : Re.sub api_image_pattern local_image_template md = md).
  { apply sub_nowhere. intros k.
    destruct (match_at api_image_pattern (drop k md)) as [r|] eqn:Hm; [|done].
    apply api_image_has_prefix, contains_drop in Hm. congruence. }
  split; [done|]. unfold create_markdown_zip.
  assert (Fs.exists_ fs (Fs.join (get_task_dir task_id) "output.md") = true) as ->.
  { apply bool_decide_eq_true. unfold Fs.read_text in Hread.
    by destruct (Fs.stat fs _) as [[? []]|]. }
  simpl. rewrite Hread, Hsame.
  by destruct (Fs.stat fs _) as [[loc [c|]]|].
Qed.

End Outcome.

Lemma text_without_artifacts_unchanged_witness :
  rewrite_image_paths "A" "# notes [docs](https://example.org/a)"
  = "# notes [docs](https://example.org/a)"
  ∧ ∀ fs pdf_bytes,
      saved_markdown (E:=Demo.env) fs "A" pdf_bytes
      = Some "# notes [docs](https://example.org/a)" →
      Fs.read_text (convert_pdf_to_markdown (E:=Demo.env) fs "A" pdf_bytes).1
        (Fs.join (get_task_dir (E:=Demo.env) "A") "output.md")
      = inr "# notes [docs](https://example.org/a)".
Proof.
  apply (text_without_artifacts_unchanged (E:=Demo.env) "A"
           "# notes [docs](https://example.org/a)").
  by vm_compute.
Defined.

Lemma bundle_keeps_text_without_images_witness :
  Re.sub api_image_pattern local_image_template "# notes" = "# notes"
  ∧ match create_markdown_zip (E:=Demo.env) Demo.noted_task "A" with
    | inr (Some zf) => head zf = Some ("output.md", "# notes")
    | inr None => False
    | inl e => e = NotADirectoryError
    end.
Proof.
  apply (bundle_keeps_text_without_images (E:=Demo.env) Demo.noted_task "A" "# notes").
  - by vm_compute.
  - by vm_compute.
Defined.

(** ** The registry ([app/services/cache.py]) *)

Section Registry.
Import Cache.

(** X10: [create_cache] followed by [get_cache_by_title] returns the
    entry written, under the id returned.  A second entry for the same
    title and format replaces the first: the table does not grow, the
    id is a new one and the lookup returns the later output path.
    Entries under other keys and the task table are left as they
    are. *)
Theorem create_cache_replaces d title format path1 path2 now1 now2 :
  let first := create_cache d title format path1 now1 in
  let second := create_cache first.1 title format path2 now2 in
  get_cache_by_title first.1 title format = Some (CacheRow first.2 path1 now1)
  ∧ get_cache_by_title second.1 title format = Some (CacheRow second.2 path2 now2)
  ∧ first.2 < second.2
  ∧ size (cache second.1) = size (cache first.1)
  ∧ (∀ t f, (t, f) ≠ (title, format) →
            get_cache_by_title second.1 t f = get_cache_by_title d t f)
  ∧ tasks second.1 = tasks d.
Proof.
  unfold create_cache, get_cache_by_title. simpl.
  rewrite !lookup_insert_eq. split; [done|]. split; [done|]. split; [lia|].
  split.
  - apply map_size_insert_Some. by rewrite lookup_insert_eq.
  - split; [|done]. intros t f Hne. by rewrite !lookup_insert_ne.
Qed.

(** X11: [create_task] registers a pending row that [get_task] then
    returns, with nothing but its format and creation time set; other
    rows and the cache table are untouched.  On an id that is already
    registered it raises [IntegrityError] -- also when asked twice. *)
Theorem create_task_registers_pending d task_id format now :
  match create_task d task_id format now with
  | inr d' =>
      get_task d task_id = None
      ∧ get_task d' task_id
        = Some (TaskRow "pending" format None None None now None)
      ∧ (∀ other, other ≠ task_id → get_task d' other = get_task d other)
      ∧ cache d' = cache d
      ∧ ∀ format' now', create_task d' task_id format' now' = inl IntegrityError
  | inl e => e = IntegrityError ∧ is_Some (get_task d task_id)
  end.
Proof.
  unfold create_task, get_task.
  destruct (tasks d !! task_id) as [r|] eqn:Hr; [by eauto|]. simpl.
  rewrite lookup_insert_eq. split; [done|]. split; [done|]. split.
  - intros other Hne. by rewrite lookup_insert_ne.
  - done.
Qed.

(** X12: [update_task_status] neither adds nor removes a row and never
    changes the format or the creation time of one; rows of other
    tasks and the cache table stay as they are, and an update for an
    id that is not registered changes nothing at all. *)
Theorem update_task_status_keeps_identity d task_id st title out err now :
  let d' := update_task_status d task_id st title out err now in
  (∀ id, is_Some (get_task d' id) ↔ is_Some (get_task d id))
  ∧ (∀ id r', get_task d' id = Some r' →
       ∃ r, get_task d id = Some r
            ∧ Cache.format r' = Cache.format r
            ∧ created_at r' = created_at r
            ∧ Cache.status r' = (if decide (id = task_id) then st else Cache.status r)
            ∧ (id ≠ task_id → r' = r))
  ∧ cache d' = cache d
  ∧ (get_task d task_id = None → d' = d).
Proof.
  unfold update_task_status, get_task. cbn [tasks cache].
  split; [|split; [|split; [done|]]].
  - intros id. destruct (decide (task_id = id)) as [->|Hne].
    + rewrite lookup_alter_eq. by rewrite fmap_is_Some.
    + by rewrite lookup_alter_ne.
  - intros id r'. destruct (decide (task_id = id)) as [->|Hne].
    + rewrite lookup_alter_eq.
      destruct (tasks d !! id) as [r|]; [|done]. cbn [fmap option_fmap option_map].
      intros [= <-]. exists r. rewrite decide_True by done.
      split; [done|]. by destruct (bool_decide _).
    + rewrite lookup_alter_ne by done. intros Hr. exists r'.
      by rewrite decide_False.
  - intros Hnone. destruct d as [t c n]. simpl in *. f_equal.
    apply alter_id. intros r. by rewrite Hnone.
Qed.

(** X13: pruning twice is pruning once with the later clock: the rows
    left are the same and the two counts add up to the count of the
    single run; pruning again with the same clock deletes nothing. *)
Theorem delete_old_tasks_composes d days now1 now2 :
  (now1 ≤ now2)%Z →
  let first := delete_old_tasks d days now1 in
  let second := delete_old_tasks first.1 days now2 in
  let direct := delete_old_tasks d days now2 in
  second.1 = direct.1
  ∧ first.2 + second.2 = direct.2
  ∧ delete_old_tasks first.1 days now1 = (first.1, 0).
Proof.
  intros Hle. unfold delete_old_tasks, threshold.
  destruct (days <? 0)%Z; [done|]. simpl.
  set (t1 := (now1 - days * day)%Z). set (t2 := (now2 - days * day)%Z).
  set (old1 := λ kv : string * task_row, ¬ (created_at kv.2 < t1)%Z).
  set (old2 := λ kv : string * task_row, ¬ (created_at kv.2 < t2)%Z).
  assert (Hcomp : filter old2 (filter old1 (tasks d)) = filter old2 (tasks d)).
  { apply map_filter_filter_l. intros id r _. unfold old1, old2, t1, t2. simpl. lia. }
  assert (Hidem : filter old1 (filter old1 (tasks d)) = filter old1 (tasks d)).
  { by apply map_filter_filter_l. }
  rewrite Hcomp, Hidem. split; [done|]. split.
  - pose proof (map_size_filter old1 (tasks d)).
    pose proof (map_size_filter old2 (filter old1 (tasks d))) as Hsize.
    rewrite Hcomp in Hsize. lia.
  - f_equal. lia.
Qed.

End Registry.

Lemma delete_old_tasks_composes_witness :
  let d := db Demo.first_done in
  let first := Cache.delete_old_tasks d 0 5 in
  let second := Cache.delete_old_tasks first.1 0 15 in
  let direct := Cache.delete_old_tasks d 0 15 in
  second.1 = direct.1
  ∧ first.2 + second.2 = direct.2
  ∧ Cache.delete_old_tasks first.1 0 5 = (first.1, 0).
Proof.
  apply (delete_old_tasks_composes (db Demo.first_done) 0 5 15). lia.
Defined.

(** ** The background conversion and the handlers ([app/api/routes.py]) *)

Section Handlers.
Context {E : Env}.

(** X14: [_process_conversion], run to its end for a registered task,
    settles it.  After a conversion that succeeds the row is done, with
    the title the conversion returned, the directory of the task as
    output path, no error message and the completion time, and the
    cache entries of the title and of the content hash name the task.
    After one that fails the row is in error, with the message and
    without title, and the cache is as before.  The volume is the one
    the conversion left and no other row has changed. *)
Theorem process_conversion_settles now task_id pdf_bytes content_hash d v r :
  Cache.get_task d task_id = Some r →
  let out := convert_pdf_to_markdown v task_id pdf_bytes in
  let end_ := _process_conversion now task_id pdf_bytes content_hash d v in
  end_.2 = out.1
  ∧ (∀ other, other ≠ task_id →
       Cache.get_task end_.1 other = Cache.get_task d other)
  ∧ match out.2 with
    | (true, title, _) =>
        Cache.get_task end_.1 task_id
        = Some (Cache.TaskRow "done" (Cache.format r) title
                  (Some (str_path (get_task_dir task_id))) None
                  (Cache.created_at r) (Some now))
        ∧ ∃ t, title = Some t
               ∧ Cache.cache_output_path
                   <$> Cache.get_cache_by_title end_.1 t "markdown"
                 = Some task_id
               ∧ Cache.cache_output_path
                   <$> Cache.get_cache_by_title end_.1
                         ("hash:" +:+ content_hash) "markdown"
                 = Some task_id
    | (false, _, error) =>
        Cache.get_task end_.1 task_id
        = Some (Cache.TaskRow "error" (Cache.format r) None None error
                  (Cache.created_at r) (Some now))
        ∧ Cache.cache end_.1 = Cache.cache d
    end.
Proof.
  intros Hr out end_.
  pose proof (conversion_cases v task_id pdf_bytes) as Hcases.
  unfold end_, out, _process_conversion, run_job, advance.
  cbn [job_phase job_task job_bytes job_hash]. unfold Cache.get_task in *.
  destruct (saved_markdown v task_id pdf_bytes) as [md|].
  - destruct Hcases as (v' & t & -> & Hne & _).
    cbn [job_phase job_task job_bytes job_hash Cache.create_cache fst snd
         Cache.cache Cache.tasks Cache.cache_seq Cache.get_cache_by_title].
    assert (title_or_untitled (Some t) = t) as ->.
    { unfold title_or_untitled. by rewrite decide_False. }
    split; [done|]. split; [|split].
    + intros other Hother. rewrite !lookup_update. by rewrite !decide_False.
    + rewrite !lookup_update, !decide_True by done. by rewrite Hr.
    + exists t. split; [done|]. unfold Cache.get_cache_by_title.
      cbn [Cache.update_task_status Cache.cache].
      rewrite lookup_insert_eq. split; [|done].
      destruct (decide (("hash:" +:+ content_hash, "markdown") = (t, "markdown")))
        as [->|Hkey].
      * by rewrite lookup_insert_eq.
      * by rewrite lookup_insert_ne, lookup_insert_eq.
  - destruct Hcases as (v' & message & ->).
    cbn [job_phase job_task job_bytes job_hash fst snd].
    split; [done|]. split; [|split; [|done]].
    + intros other Hother. rewrite !lookup_update. by rewrite !decide_False.
    + rewrite !lookup_update, !decide_True by done. by rewrite Hr.
Qed.

Lemma TaskStatus_of_value status : TaskStatus_of (TaskStatus_value status) = Some status.
Proof. by destruct status. Qed.

Lemma TaskStatus_of_Some value status :
  TaskStatus_of value = Some status → TaskStatus_value status = value.
Proof.
  unfold TaskStatus_of. intros Hfind.
  apply find_some in Hfind as [_ Hvalue]. by apply bool_decide_eq_true in Hvalue.
Qed.

Lemma TaskStatus_of_known value :
  value ∈ ["pending"; "processing"; "done"; "error"] →
  ∃ status, TaskStatus_of value = Some status.
Proof.
  rewrite !elem_of_cons, elem_of_nil.
  intros [->|[->|[->|[->|[]]]]]; by eauto.
Qed.

(** X15: in every state the service reaches, the status route answers
    404 exactly for an id that is not registered and otherwise reports
    the row as it is: the status read back as a member of [TaskStatus]
    (the route never fails on a status it does not know), a completion
    time exactly for done and error, a title only for done, and the
    presence of [output.md]. *)
Theorem status_route_answers s task_id :
  reachable s →
  match Api.get_task_status s task_id with
  | inr response =>
      ∃ r,
        Cache.get_task (db s) task_id = Some r
        ∧ TaskStatus_value (TaskStatusResponse.status response) = Cache.status r
        ∧ TaskStatusResponse.title response = Cache.title r
        ∧ TaskStatusResponse.error_message response = Cache.error_message r
        ∧ TaskStatusResponse.markdown_ready response
          = task_has_markdown (fs s) task_id
        ∧ (is_Some (TaskStatusResponse.completed_at response) ↔
           TaskStatusResponse.status response ∈ [DONE; ERROR])
        ∧ (is_Some (TaskStatusResponse.title response) →
           TaskStatusResponse.status response = DONE)
  | inl e =>
      e = {| status_code := 404; detail := "Task not found" |}
      ∧ Cache.get_task (db s) task_id = None
  end.
Proof.
  intros (_ & Hrows & _)%reachable_invariant. unfold Api.get_task_status, Cache.get_task.
  destruct (Cache.tasks (db s) !! task_id) as [r|] eqn:Hr; [|done].
  destruct (Hrows _ _ Hr) as (Hknown & Hdone & Htitle & _).
  destruct (TaskStatus_of_known _ Hknown) as [status Hstatus]. rewrite Hstatus.
  apply TaskStatus_of_Some in Hstatus. exists r. simpl.
  repeat (split; [done|]). split.
  - rewrite Hdone, <- Hstatus, !elem_of_cons, !elem_of_nil.
    destruct status; simpl; intuition discriminate.
  - intros Ht%Htitle. rewrite <- Hstatus in Ht. by destruct status.
Qed.

(** X16: what a submission answers and what it leaves.  A cached
    answer changes nothing, reports done and names the task of a cache
    entry whose [output.md] is there.  Otherwise the answer is pending
    under the new id: the row is registered before the answer is given,
    so that the status route knows the task at once; one conversion is
    queued, and neither the volume nor the cache has changed.  A
    rejection changes nothing; it is a 400, or a 500 when the new id is
    already registered. *)
Theorem submission_answer s file uuid now :
  match convert_pdf s file uuid now with
  | (s', inr response) =>
      if cached response then
        s' = s ∧ status response = DONE
        ∧ task_has_markdown (fs s) (task_id response) = true
        ∧ ∃ key row,
            Cache.get_cache_by_title (db s) key "markdown" = Some row
            ∧ Cache.cache_output_path row = task_id response
      else
        task_id response = uuid ∧ status response = PENDING
        ∧ Cache.get_task (db s) uuid = None
        ∧ Api.get_task_status s' uuid
          = inr {| TaskStatusResponse.task_id := uuid;
                   TaskStatusResponse.status := PENDING;
                   TaskStatusResponse.title := None;
                   TaskStatusResponse.error_message := None;
                   TaskStatusResponse.created_at := Some now;
                   TaskStatusResponse.completed_at := None;
                   TaskStatusResponse.markdown_ready :=
                     task_has_markdown (fs s) uuid |}
        ∧ fs s' = fs s ∧ Cache.cache (db s') = Cache.cache (db s)
        ∧ jobs s' = jobs s ++ [{| job_task := uuid; job_bytes := content file;
                                  job_hash := get_pdf_hash (content file);
                                  job_phase := Queued |}]
  | (s', inl rejection) =>
      s' = s
      ∧ (status_code rejection = 400
         ∨ status_code rejection = 500 ∧ is_Some (Cache.get_task (db s) uuid))
  end.
Proof.
  assert (Hhit : ∀ key t, cached_task s key = Some t →
            task_has_markdown (fs s) t = true
            ∧ ∃ key row,
                Cache.get_cache_by_title (db s) key "markdown" = Some row
                ∧ Cache.cache_output_path row = t).
  { intros key t. unfold cached_task.
    destruct (Cache.get_cache_by_title (db s) key "markdown") as [row|] eqn:Hrow;
      [|done].
    destruct (task_has_markdown (fs s) (Cache.cache_output_path row)) eqn:Hmd;
      [|done].
    intros [= <-]. split; [done|]. by exists key, row. }
  unfold convert_pdf. destruct (_ || _); [by auto|].
  destruct (decide _); [by auto|].
  destruct (get_pdf_title (content file) ≫= cached_task s) as [t|] eqn:Htitle.
  { simpl. destruct (get_pdf_title (content file)) as [key|]; [|done].
    simpl in Htitle. by destruct (Hhit key t Htitle). }
  destruct (cached_task s _) as [t|] eqn:Hhash.
  { simpl. by destruct (Hhit _ t Hhash). }
  unfold Cache.create_task, Cache.get_task.
  destruct (Cache.tasks (db s) !! uuid) as [r|] eqn:Hr; [by eauto|].
  simpl. unfold Api.get_task_status, Cache.get_task. simpl.
  by rewrite lookup_insert_eq.
Qed.

(** X17: the Markdown route serves a text exactly when the task is
    registered as done and [output.md] holds that text and the text is
    not empty; an empty file is answered like a missing one. *)
Theorem markdown_route_serves_done_text s task_id text :
  Api.get_markdown s task_id = inr text ↔
  (∃ r, Cache.get_task (db s) task_id = Some r ∧ Cache.status r = "done")
  ∧ Fs.read_text (fs s) (Fs.join (get_task_dir task_id) "output.md") = inr text
  ∧ text ≠ "".
Proof.
  unfold Api.get_markdown, get_markdown, Fs.exists_, Fs.read_text.
  destruct (Cache.get_task (db s) task_id) as [r|].
  - destruct (decide (Cache.status r ≠ "done")) as [Hst|Hst].
    { split; [done|]. intros [(r' & [= <-] & Hdone) _]. by destruct Hst. }
    apply dec_stable in Hst.
    destruct (Fs.stat (fs s) _) as [[loc [md|]]|].
    + rewrite bool_decide_eq_true_2 by eauto.
      destruct (decide (md = "")) as [->|Hmd].
      * split; [done|]. by intros (_ & [= <-] & Hne).
      * split.
        -- intros [= <-]. by eauto.
        -- by intros (_ & [= <-] & _).
    + rewrite bool_decide_eq_true_2 by eauto. split; [done|]. by intros (_ & ? & _).
    + rewrite bool_decide_eq_false_2 by (by intros [? ?]).
      split; [done|]. by intros (_ & ? & _).
  - split; [done|]. by intros [(r & ? & _) _].
Qed.


(** X19: the image route answers 404 when [get_image_path] finds
    nothing, and otherwise serves the path found under a media type
    chosen by the name of the file.  A file named [stem.ext], with a stem
    and an extension without a further dot, is served as [image/jpeg]
    when the extension is [jpg] or [jpeg], as [image/gif] when it is
    [gif] and as [image/webp] when it is [webp], case ignored, and as
    [image/png] with any other extension; a name without a dot, a name
    whose only dot comes first and a name that ends in a dot are served
    as [image/png]. *)
Theorem image_route_media_type s task_id filename :
  Fs.plain_component filename →
  match get_image_path (fs s) task_id filename with
  | None =>
      get_image s task_id filename
      = inl {| status_code := 404; detail := "Image not found" |}
  | Some image_path =>
      (∀ stem ext,
         filename = stem +:+ "." +:+ ext →
         stem ≠ "" → ext ≠ "" → Str.mem "." ext = false →
         get_image s task_id filename
         = inr (image_path,
                if bool_decide (Str.lower ext ∈ ["jpg"; "jpeg"]) then "image/jpeg"
                else if bool_decide (Str.lower ext = "gif") then "image/gif"
                else if bool_decide (Str.lower ext = "webp") then "image/webp"
                else "image/png"))
      ∧ (Str.mem "." filename = false
         ∨ (∃ rest, filename = "." +:+ rest ∧ Str.mem "." rest = false)
         ∨ (∃ front, filename = front +:+ ".") →
         get_image s task_id filename = inr (image_path, "image/png"))
  end.
Proof.
  intros Hplain. unfold get_image.
  destruct (get_image_path (fs s) task_id filename) as [image_path|] eqn:Hpath;
    [|done].
  assert (∃ dir, image_path = dir ++ [filename]) as [dir ->].
  { unfold get_image_path in Hpath. rewrite (join_plain _ _ Hplain) in Hpath.
    destruct (Fs.exists_ _ _); [|done]. injection Hpath as <-. by eexists. }
  split.
  - intros stem ext -> Hstem Hext Hdot. cbv zeta.
    rewrite FsFacts.suffix_extension by done.
    change (Str.lower ("." +:+ ext)) with (String "." (Str.lower ext)).
    do 2 f_equal. cbn [find fst snd].
    repeat case_bool_decide; simplify_eq; try done;
      repeat match goal with
      | H : _ ∈ _ |- _ => rewrite ?elem_of_cons, ?elem_of_nil in H
      | H : ¬ _ ∈ _ |- _ => rewrite ?elem_of_cons, ?elem_of_nil in H
      end; try (intuition congruence).
  - intros Hnone. cbv zeta. by rewrite (FsFacts.suffix_without dir filename Hnone).
Qed.

End Handlers.

(** ** The viewer page ([app/main.py]) *)

Section Viewer.
Context {E : Env}.

(** X20: the viewer page is served exactly for a task that is
    registered as done and has its [output.md].  Whenever the Markdown
    route serves a text for a task, the viewer page of the task is
    served too; and in a state the service reaches, a task whose viewer
    page is served is reported by the status route as done, with its
    Markdown ready and a completion time. *)
Theorem viewer_needs_done_markdown s task_id :
  (view_document s task_id = inr "static/viewer.html" ↔
   (∃ r, Cache.get_task (db s) task_id = Some r ∧ Cache.status r = "done")
   ∧ task_has_markdown (fs s) task_id = true)
  ∧ (∀ text,
       Api.get_markdown s task_id = inr text →
       view_document s task_id = inr "static/viewer.html")
  ∧ (reachable s →
     view_document s task_id = inr "static/viewer.html" →
     ∃ response,
       Api.get_task_status s task_id = inr response
       ∧ TaskStatusResponse.status response = DONE
       ∧ TaskStatusResponse.markdown_ready response = true
       ∧ is_Some (TaskStatusResponse.completed_at response)).
Proof.
  split; [|split].
  - unfold view_document, task_has_markdown.
    destruct (Cache.get_task (db s) task_id) as [r|].
    + destruct (decide (Cache.status r ≠ "done")) as [Hst|Hst].
      { split; [done|]. intros [(r' & [= <-] & Hdone) _]. by destruct Hst. }
      apply dec_stable in Hst.
      destruct (Fs.exists_ (fs s) _); simpl.
      * split; [|done]. intros _. split; [|done]. by exists r.
      * split; [done|]. by intros [_ ?].
    + split; [done|]. by intros [(r & ? & _) _].
  - unfold view_document, Api.get_markdown, get_markdown, task_has_markdown.
    intros text. destruct (Cache.get_task (db s) task_id) as [r|]; [|done].
    destruct (decide (Cache.status r ≠ "done")); [done|].
    by destruct (Fs.exists_ (fs s) _).
  - intros (_ & Hrows & _)%reachable_invariant.
    unfold view_document, Api.get_task_status, Cache.get_task.
    destruct (Cache.tasks (db s) !! task_id) as [r|] eqn:Hr; [|done].
    destruct (decide (Cache.status r ≠ "done")) as [|Hst]; [done|].
    apply dec_stable in Hst.
    destruct (task_has_markdown (fs s) task_id) eqn:Hmd; [|done]. intros _.
    destruct (Hrows _ _ Hr) as (_ & Hdone & _).
    rewrite Hst. eexists. split; [done|]. simpl. split; [done|]. split; [done|].
    apply Hdone. rewrite Hst. by left.
Qed.

End Viewer.

Lemma process_conversion_settles_witness :
  let r := Cache.TaskRow "pending" "markdown" None None None 10 None in
  let out := convert_pdf_to_markdown (E:=Demo.env) ∅ "A" "T:Report|first" in
  let end_ := _process_conversion (E:=Demo.env) 20 "A" "T:Report|first"
                (get_pdf_hash "T:Report|first") (db Demo.submitted) ∅ in
  end_.2 = out.1
  ∧ (∀ other, other ≠ "A" →
       Cache.get_task end_.1 other = Cache.get_task (db Demo.submitted) other)
  ∧ match out.2 with
    | (true, title, _) =>
        Cache.get_task end_.1 "A"
        = Some (Cache.TaskRow "done" (Cache.format r) title
                  (Some (str_path (get_task_dir (E:=Demo.env) "A"))) None
                  (Cache.created_at r) (Some 20%Z))
        ∧ ∃ t, title = Some t
               ∧ Cache.cache_output_path
                   <$> Cache.get_cache_by_title end_.1 t "markdown"
                 = Some "A"
               ∧ Cache.cache_output_path
                   <$> Cache.get_cache_by_title end_.1
                         ("hash:" +:+ get_pdf_hash "T:Report|first") "markdown"
                 = Some "A"
    | (false, _, error) =>
        Cache.get_task end_.1 "A"
        = Some (Cache.TaskRow "error" (Cache.format r) None None error
                  (Cache.created_at r) (Some 20%Z))
        ∧ Cache.cache end_.1 = Cache.cache (db Demo.submitted)
    end.
Proof.
  apply (process_conversion_settles (E:=Demo.env) 20 "A" "T:Report|first"
           (get_pdf_hash "T:Report|first") (db Demo.submitted) ∅
           (Cache.TaskRow "pending" "markdown" None None None 10 None)).
  by vm_compute.
Defined.

Lemma image_route_media_type_witness :
  let s := {| db := Cache.init_db; fs := Demo.volume_with_scan; jobs := [] |} in
  get_image (E:=Demo.env) s "A" "scan.JPG"
  = inr (["srv"; "storage"; "output"; "A"; "output_artifacts"; "scan.JPG"],
         "image/jpeg")
  ∧ get_image (E:=Demo.env) s "A" "image_0.png"
    = inr (["srv"; "storage"; "output"; "A"; "output_artifacts"; "image_0.png"],
           "image/png")
  ∧ get_image (E:=Demo.env) s "A" "image_1.png"
    = inl {| status_code := 404; detail := "Image not found" |}.
Proof.
  intros s.
  assert (Fs.plain_component "scan.JPG") as Hn1 by (repeat split; by vm_compute).
  assert (Fs.plain_component "image_0.png") as Hn2
    by (repeat split; by vm_compute).
  assert (Fs.plain_component "image_1.png") as Hn3
    by (repeat split; by vm_compute).
  pose proof (image_route_media_type (E:=Demo.env) s "A" "scan.JPG" Hn1) as Hscan.
  pose proof (image_route_media_type (E:=Demo.env) s "A" "image_0.png" Hn2) as Hpng.
  pose proof (image_route_media_type (E:=Demo.env) s "A" "image_1.png" Hn3)
    as Hnone.
  assert (get_image_path (E:=Demo.env) (fs s) "A" "scan.JPG"
          = Some ["srv"; "storage"; "output"; "A"; "output_artifacts"; "scan.JPG"])
    as Hp1 by (vm_compute; reflexivity).
  assert (get_image_path (E:=Demo.env) (fs s) "A" "image_0.png"
          = Some ["srv"; "storage"; "output"; "A"; "output_artifacts"; "image_0.png"])
    as Hp2 by (vm_compute; reflexivity).
  assert (get_image_path (E:=Demo.env) (fs s) "A" "image_1.png" = None)
    as Hp3 by (vm_compute; reflexivity).
  rewrite Hp1 in Hscan. rewrite Hp2 in Hpng. rewrite Hp3 in Hnone.
  split; [|split; [|exact Hnone]].
  - exact (proj1 Hscan "scan" "JPG" eq_refl ltac:(discriminate)
             ltac:(discriminate) eq_refl).
  - exact (proj1 Hpng "image_0" "png" eq_refl ltac:(discriminate)
             ltac:(discriminate) eq_refl).
Defined.

Lemma status_route_answers_witness :
  match Api.get_task_status (E:=Demo.env) Demo.converted "A" with
  | inr response =>
      ∃ r,
        Cache.get_task (db Demo.converted) "A" = Some r
        ∧ TaskStatus_value (TaskStatusResponse.status response) = Cache.status r
        ∧ TaskStatusResponse.title response = Cache.title r
        ∧ TaskStatusResponse.error_message response = Cache.error_message r
        ∧ TaskStatusResponse.markdown_ready response
          = task_has_markdown (E:=Demo.env) (fs Demo.converted) "A"
        ∧ (is_Some (TaskStatusResponse.completed_at response) ↔
           TaskStatusResponse.status response ∈ [DONE; ERROR])
        ∧ (is_Some (TaskStatusResponse.title response) →
           TaskStatusResponse.status response = DONE)
  | inl e =>
      e = {| status_code := 404; detail := "Task not found" |}
      ∧ Cache.get_task (db Demo.converted) "A" = None
  end.
Proof.
  apply (status_route_answers (E:=Demo.env) Demo.converted "A").
  exact demo_converted_reachable.
Defined.

(** ** Cache hits and what goes on around them *)

Section Hits.
Context {E : Env}.

(** A cached answer comes from one of the two lookups. *)
Lemma convert_pdf_hit_inv s file uuid now t :
  (convert_pdf s file uuid now).2 = inr (cache_hit t) →
  accepted file
  ∧ (get_pdf_title (content file) ≫= cached_task s = Some t
     ∨ (get_pdf_title (content file) ≫= cached_task s = None
        ∧ cached_task s ("hash:" +:+ get_pdf_hash (content file)) = Some t)).
Proof.
  unfold convert_pdf, accepted.
  destruct (bool_decide _ || negb _) eqn:Hname; [done|].
  apply orb_false_iff in Hname as [_ Hext%negb_false_iff].
  destruct (decide (String.length (content file) = 0)) as [|Hlen]; [done|].
  assert (content file ≠ "") by (intros Hc; by rewrite Hc in Hlen).
  destruct (get_pdf_title (content file) ≫= cached_task s) as [t1|].
  { simpl. intros [= <-]. auto. }
  destruct (cached_task s _) as [t2|].
  { simpl. intros [= <-]. auto. }
  by destruct (Cache.create_task _ _ _ _).
Qed.

(** The two lookups read the cache table and the volume only. *)
Lemma cached_task_ext s s' key :
  Cache.cache (db s') = Cache.cache (db s) → fs s' = fs s →
  cached_task s' key = cached_task s key.
Proof.
  intros Hcache Hfs. unfold cached_task, Cache.get_cache_by_title.
  by rewrite Hcache, Hfs.
Qed.

Lemma cached_task_has_markdown s key t :
  cached_task s key = Some t → task_has_markdown (fs s) t = true.
Proof.
  unfold cached_task. destruct (Cache.get_cache_by_title _ _ _) as [row|]; [|done].
  destruct (task_has_markdown (fs s) (Cache.cache_output_path row)) eqn:Hmd; [|done].
  by intros [= <-].
Qed.

(** X21: pruning does not reach the cache.  A submission that was
    answered from the cache is answered in the same way after
    [delete_old_tasks] has run, also when the row of the task named has
    been deleted: the answer then says done for a task that the status
    route, the Markdown route, the download route and the viewer all
    report as not found. *)
Theorem pruned_task_still_served_from_cache s file uuid now days sql_now t r limit :
  (convert_pdf s file uuid now).2 = inr (cache_hit t) →
  Cache.get_task (db s) t = Some r →
  Cache.threshold days sql_now = Some limit →
  (Cache.created_at r < limit)%Z →
  let s' := step s (Prune days sql_now) in
  convert_pdf s' file uuid now = (s', inr (cache_hit t))
  ∧ Cache.get_task (db s') t = None
  ∧ Api.get_task_status s' t
    = inl {| status_code := 404; detail := "Task not found" |}
  ∧ Api.get_markdown s' t = inl {| status_code := 404; detail := "Task not found" |}
  ∧ Api.download_markdown s' t
    = inl {| status_code := 404; detail := "Task not found" |}
  ∧ view_document s' t = inl {| status_code := 404; detail := "Document not found" |}.
Proof.
  intros (Hfile & Hhit)%convert_pdf_hit_inv Hr Hlimit Hold s'.
  assert (Hgone : Cache.get_task (db s') t = None).
  { unfold s', Cache.get_task. simpl. unfold Cache.delete_old_tasks.
    rewrite Hlimit. simpl. apply map_lookup_filter_None. right.
    intros r' Hr'. unfold Cache.get_task in Hr. simpl.
    replace r' with r by congruence. lia. }
  assert (Hsame : ∀ key, cached_task s' key = cached_task s key).
  { intros key. apply cached_task_ext; [|done].
    unfold s'. simpl. unfold Cache.delete_old_tasks.
    by destruct (Cache.threshold days sql_now). }
  split.
  - apply convert_pdf_hit; [done|].
    destruct (get_pdf_title (content file)) as [title|]; simpl in *;
      rewrite ?Hsame; done.
  - unfold Api.get_task_status, Api.get_markdown, Api.download_markdown,
      view_document. by rewrite Hgone.
Qed.

(** X22: titles and content hashes share one key space.  When the
    engine names a converted document [hash:<h>], the entry written for
    its title is the entry looked up for contents whose hash is [<h>]:
    as long as that entry and the output of the task are there, a
    submission with such contents that is not found by its own title is
    answered with the task of the converted document. *)
Theorem title_taken_for_content_hash now task_id pdf_bytes content_hash d v err
    s other uuid now' :
  let key := "hash:" +:+ get_pdf_hash (content other) in
  let d' := (_process_conversion now task_id pdf_bytes content_hash d v).1 in
  (convert_pdf_to_markdown v task_id pdf_bytes).2 = (true, Some key, err) →
  Cache.get_cache_by_title (db s) key "markdown"
  = Cache.get_cache_by_title d' key "markdown" →
  task_has_markdown (fs s) task_id = true →
  accepted other →
  get_pdf_title (content other) ≫= cached_task s = None →
  convert_pdf s other uuid now' = (s, inr (cache_hit task_id)).
Proof.
  intros key d' Hout Hentry Hmd Hfile Htitle.
  destruct (convert_pdf_to_markdown v task_id pdf_bytes) as [v' outcome] eqn:Hconv.
  simpl in Hout. subst outcome.
  destruct (done_records_entries now task_id pdf_bytes content_hash d v v'
              (Some key) err Hconv)
    as (d1 & row_t & row_h & Hrun & Ht & Htp & _).
  assert (title_or_untitled (Some key) = key) as Hkey by done.
  rewrite Hkey in Ht.
  subst d'. rewrite Hrun in Hentry. unfold Cache.get_cache_by_title in Hentry.
  simpl in Hentry. rewrite Ht in Hentry.
  apply convert_pdf_hit; [done|]. right. split; [done|].
  fold key. rewrite <- Htp. apply cached_task_entry; [done|]. by rewrite Htp.
Qed.

(** X23: once the files of a task have been deleted, no submission is
    answered with that task, although its cache entries are still in
    the table: the lookups of [convert_pdf] go on to a new
    conversion. *)
Theorem deleted_task_is_not_a_cache_hit s task_id file uuid now :
  ".." ∉ STORAGE_DIR → Fs.plain_component task_id →
  Fs.stat (fs s) (get_task_dir task_id) = Some (get_task_dir task_id, Fs.Dir) →
  let s' := {| db := db s; fs := (delete_task_files (fs s) task_id).1;
               jobs := jobs s |} in
  (convert_pdf s' file uuid now).2 ≠ inr (cache_hit task_id)
  ∧ (∀ key, cached_task s' key ≠ Some task_id)
  ∧ (∀ key, Cache.get_cache_by_title (db s') key "markdown"
            = Cache.get_cache_by_title (db s) key "markdown").
Proof.
  intros Hroot Hplain Hstat s'.
  destruct (delete_task_files_gone (fs s) task_id Hroot Hplain Hstat)
    as (fs' & Hdel & Hgone).
  assert (Hno : ∀ key, cached_task s' key ≠ Some task_id).
  { intros key Hkey%cached_task_has_markdown. unfold s' in Hkey. simpl in Hkey.
    rewrite Hdel in Hkey. simpl in Hkey.
    unfold task_has_markdown in Hkey. rewrite join_output_md in Hkey.
    apply bool_decide_eq_true in Hkey as [st Hst]. by rewrite Hgone in Hst. }
  split; [|done].
  intros (_ & [Hhit|[_ Hhit]])%convert_pdf_hit_inv.
  - destruct (get_pdf_title (content file)) as [title|]; [|done].
    by apply (Hno title).
  - by apply (Hno _ Hhit).
Qed.

End Hits.

Lemma pruned_task_still_served_from_cache_witness :
  let s' := step (E:=Demo.env) Demo.first_done (Prune 0 11) in
  convert_pdf (E:=Demo.env) s' Demo.first_report "C" 40 = (s', inr (cache_hit "A"))
  ∧ Cache.get_task (db s') "A" = None
  ∧ Api.get_task_status (E:=Demo.env) s' "A"
    = inl {| status_code := 404; detail := "Task not found" |}
  ∧ Api.get_markdown (E:=Demo.env) s' "A"
    = inl {| status_code := 404; detail := "Task not found" |}
  ∧ Api.download_markdown (E:=Demo.env) s' "A"
    = inl {| status_code := 404; detail := "Task not found" |}
  ∧ view_document (E:=Demo.env) s' "A"
    = inl {| status_code := 404; detail := "Document not found" |}.
Proof.
  apply (pruned_task_still_served_from_cache (E:=Demo.env) Demo.first_done
           Demo.first_report "C" 40 0 11 "A"
           (Cache.TaskRow "done" "markdown" (Some "Report")
              (Some "/srv/storage/output/A") None 10 (Some 20%Z))
           11).
  - by vm_compute.
  - by vm_compute.
  - by vm_compute.
  - simpl. lia.
Defined.

Lemma title_taken_for_content_hash_witness :
  convert_pdf (E:=Demo.env) Demo.hash_titled (Demo.pdf "other.pdf" "abc") "C" 40
  = (Demo.hash_titled, inr (cache_hit "A")).
Proof.
  apply (title_taken_for_content_hash (E:=Demo.env) 20 "A"
           "T:hash:ba7816bf8f01cfea|x" (get_pdf_hash "T:hash:ba7816bf8f01cfea|x")
           Cache.init_db ∅ None Demo.hash_titled (Demo.pdf "other.pdf" "abc") "C" 40).
  - by vm_compute.
  - by vm_compute.
  - by vm_compute.
  - split; by vm_compute.
  - by vm_compute.
Defined.

Lemma deleted_task_is_not_a_cache_hit_witness :
  let s' := {| db := db Demo.first_done;
               fs := (delete_task_files (E:=Demo.env) (fs Demo.first_done) "A").1;
               jobs := jobs Demo.first_done |} in
  (convert_pdf (E:=Demo.env) s' Demo.first_report "C" 40).2 ≠ inr (cache_hit "A")
  ∧ (∀ key, cached_task (E:=Demo.env) s' key ≠ Some "A")
  ∧ (∀ key, Cache.get_cache_by_title (db s') key "markdown"
            = Cache.get_cache_by_title (db Demo.first_done) key "markdown").
Proof.
  apply (deleted_task_is_not_a_cache_hit (E:=Demo.env) Demo.first_done "A"
           Demo.first_report "C" 40).
  - apply (bool_decide_unpack _). by vm_compute.
  - repeat split; by vm_compute.
  - by vm_compute.
Defined.

(** ** Progress of the background conversions *)

Section Progress.
Context {E : Env}.

Lemma slices_left_positive p : 0 < slices_left p.
Proof. destruct p; simpl; lia. Qed.

Lemma slices_to_go_absent id js :
  id ∉ job_task <$> js → slices_to_go id js = 0.
Proof.
  induction js as [|j rest IH]; [done|]. rewrite fmap_cons, not_elem_of_cons.
  intros [Hne Hrest]. simpl. rewrite decide_False by done. by apply IH.
Qed.

Lemma slices_to_go_zero id js :
  slices_to_go id js = 0 → id ∉ job_task <$> js.
Proof.
  induction js as [|j rest IH]; [intros _; apply not_elem_of_nil|].
  cbn [slices_to_go]. destruct (decide (job_task j = id)) as [Hj|Hj].
  - pose proof (slices_left_positive (job_phase j)). lia.
  - intros Hrest. rewrite fmap_cons, not_elem_of_cons. split; [done|]. by apply IH.
Qed.

(** One slice touches no row but the one of its task, and what is left
    of the conversion afterwards is less than before. *)
Lemma advance_frame now fault j d v d' v' next :
  advance now fault j d v = (d', v', next) →
  (∀ id, id ≠ job_task j → Cache.tasks d' !! id = Cache.tasks d !! id)
  ∧ ∀ j', next = Some j' →
          job_task j' = job_task j
          ∧ slices_left (job_phase j') < slices_left (job_phase j).
Proof.
  unfold advance. destruct fault as [e|].
  { intros [= <- <- <-]. split; [|done].
    intros id Hid. rewrite lookup_update. by rewrite decide_False. }
  destruct (job_phase j) as [| |[[[|] title] err]|title|title].
  - intros [= <- <- <-]. split.
    + intros id Hid. rewrite lookup_update. by rewrite decide_False.
    + intros j' [= <-]. simpl. split; [done|lia].
  - destruct (convert_pdf_to_markdown v (job_task j) (job_bytes j)) as [v1 outcome].
    intros [= <- <- <-]. split; [done|]. intros j' [= <-]. simpl. split; [done|lia].
  - intros [= <- <- <-]. split.
    + intros id Hid. rewrite lookup_update. by rewrite decide_False.
    + intros j' [= <-]. simpl. split; [done|lia].
  - intros [= <- <- <-]. split; [|done].
    intros id Hid. rewrite lookup_update. by rewrite decide_False.
  - intros [= <- <- <-]. split; [done|]. intros j' [= <-]. simpl. split; [done|lia].
  - intros [= <- <- <-]. split; [done|]. done.
Qed.

(** The same for the list of conversions in flight. *)
Lemma advance_jobs_frame now fault task js d v d' v' js' :
  advance_jobs now fault task js d v = (d', v', js') →
  (∀ id, id ≠ task → Cache.tasks d' !! id = Cache.tasks d !! id)
  ∧ (∀ id, id ≠ task → slices_to_go id js' = slices_to_go id js)
  ∧ (task ∉ job_task <$> js → d' = d ∧ js' = js)
  ∧ (NoDup (job_task <$> js) →
     slices_to_go task js' ≤ slices_to_go task js - 1).
Proof.
  revert d' v' js'. induction js as [|j rest IH]; intros d' v' js'.
  - simpl. intros [= <- <- <-]. done.
  - cbn [advance_jobs slices_to_go].
    destruct (decide (job_task j = task)) as [Htask|Htask].
    + destruct (advance now fault j d v) as [[d1 v1] next] eqn:Hadv.
      intros [= <- <- <-].
      destruct (advance_frame _ _ _ _ _ _ _ _ Hadv) as [Hother Hnext].
      split; [|split; [|split]].
      * intros id Hid. apply Hother. congruence.
      * intros id Hid. rewrite (decide_False (P := job_task j = id)) by congruence.
        destruct next as [j'|]; simpl; [|done].
        destruct (Hnext j' eq_refl) as [Hj' _].
        rewrite decide_False; [done|congruence].
      * rewrite fmap_cons, not_elem_of_cons. by intros [? _].
      * rewrite fmap_cons. intros [Hfirst Hnd]%NoDup_cons.
        destruct next as [j'|]; simpl.
        -- destruct (Hnext j' eq_refl) as [Hj' Hless].
           rewrite decide_True by congruence. lia.
        -- rewrite slices_to_go_absent; [lia|]. by rewrite <- Htask.
    + destruct (advance_jobs now fault task rest d v) as [[d1 v1] rest'] eqn:Hadv.
      intros [= <- <- <-].
      destruct (IH d1 v1 rest' eq_refl) as (Hother & Hgo & Hnone & Hless).
      split; [done|]. split; [|split].
      * intros id Hid. simpl. destruct (decide (job_task j = id)); [done|].
        by apply Hgo.
      * rewrite fmap_cons, not_elem_of_cons. intros [_ Hrest].
        destruct (Hnone Hrest) as [-> ->]. done.
      * rewrite fmap_cons. intros [_ Hnd]%NoDup_cons. cbn [slices_to_go].
        rewrite decide_False by done. by apply Hless.
Qed.


(** A step leaves the row of a task that has no conversion in flight as
    it is, or deletes it, unless it is a submission under the id of the
    task; and it starts no conversion for the task. *)
Lemma step_leaves_row s ev id :
  id ∉ job_task <$> jobs s → submits id [ev] = false →
  (id ∉ job_task <$> jobs (step s ev))
  ∧ (Cache.get_task (db (step s ev)) id = Cache.get_task (db s) id
     ∨ Cache.get_task (db (step s ev)) id = None).
Proof.
  intros Hout Hsub. unfold Cache.get_task.
  destruct ev as [file uuid now|task now fault|days sql_now].
  - simpl in Hsub |- *. rewrite orb_false_r in Hsub.
    apply bool_decide_eq_false in Hsub.
    destruct (convert_pdf_state s file uuid now) as [->|(_ & j & Hj & _ & ->)];
      [by auto|].
    simpl. split.
    + rewrite fmap_app, not_elem_of_app. split; [done|]. simpl.
      rewrite not_elem_of_cons. split; [congruence|apply not_elem_of_nil].
    + left. by rewrite lookup_insert_ne.
  - simpl.
    destruct (advance_jobs now fault task (jobs s) (db s) (fs s))
      as [[d' v'] js'] eqn:Hadv.
    destruct (advance_jobs_frame _ _ _ _ _ _ _ _ _ Hadv) as (Hother & Hgo & Hnone & _).
    simpl. destruct (decide (task = id)) as [->|Hne].
    + destruct (Hnone Hout) as [-> ->]. by auto.
    + split; [|left; by apply Hother].
      apply slices_to_go_zero. rewrite Hgo by done. by apply slices_to_go_absent.
  - simpl. split; [done|]. unfold Cache.delete_old_tasks.
    destruct (Cache.threshold days sql_now) as [limit|]; [|by left]. simpl.
    destruct (filter _ (Cache.tasks (db s)) !! id) as [r|] eqn:Hr; [|by right].
    left. by apply map_lookup_filter_Some in Hr as [-> _].
Qed.

Lemma submits_cons id ev evs :
  submits id (ev :: evs) = false → submits id [ev] = false ∧ submits id evs = false.
Proof.
  unfold submits. simpl. intros [-> ->]%orb_false_iff. done.
Qed.

(** The same along a run. *)
Lemma run_leaves_row s evs id :
  id ∉ job_task <$> jobs s → submits id evs = false →
  (id ∉ job_task <$> jobs (foldl step s evs))
  ∧ (Cache.get_task (db (foldl step s evs)) id = Cache.get_task (db s) id
     ∨ Cache.get_task (db (foldl step s evs)) id = None).
Proof.
  revert s. induction evs as [|ev evs IH]; intros s Hout Hsub; [by auto|].
  apply submits_cons in Hsub as [Hev Hevs]. simpl.
  destruct (step_leaves_row s ev id Hout Hev) as [Hout' Hrow].
  destruct (IH (step s ev) Hout' Hevs) as [Hfinal Hrow'].
  split; [done|]. destruct Hrow' as [-> | ->]; [done|by right].
Qed.





Lemma advance_jobs_raising now e task js d v :
  task ∈ job_task <$> js → NoDup (job_task <$> js) →
  ∃ js',
    advance_jobs now (Some e) task js d v
    = (Cache.update_task_status d task "error" None None (Some (str_exn e)) now,
       v, js')
    ∧ task ∉ job_task <$> js'.
Proof.
  induction js as [|j rest IH]; [by intros ?%elem_of_nil|].
  rewrite fmap_cons. intros Hin [Hfirst Hnd]%NoDup_cons. cbn [advance_jobs].
  destruct (decide (job_task j = task)) as [<-|Hne].
  - exists rest. by split.
  - apply elem_of_cons in Hin as [Hin|Hin]; [congruence|].
    destruct (IH Hin Hnd) as (rest' & -> & Hout). exists (j :: rest').
    split; [done|]. rewrite fmap_cons, not_elem_of_cons. split; [congruence|done].
Qed.

(** X25: when the awaited call of a slice raises, the [except] branch
    ends the conversion: the row of the task is put in error with the
    text of the exception, without title and output path -- whatever
    its status was, done included, which is the status of a task whose
    cache entries are being written -- and the conversion is no longer
    in flight.  The cache entries already written, the files and the
    other rows stay. *)
Theorem raising_slice_ends_in_error s id now e r :
  reachable s → in_flight s id = true →
  Cache.get_task (db s) id = Some r →
  let s' := step s (Advance id now (Some e)) in
  Cache.get_task (db s') id
  = Some (Cache.TaskRow "error" (Cache.format r) None None (Some (str_exn e))
            (Cache.created_at r) (Some now))
  ∧ in_flight s' id = false
  ∧ Cache.cache (db s') = Cache.cache (db s)
  ∧ fs s' = fs s
  ∧ (∀ other, other ≠ id →
       Cache.get_task (db s') other = Cache.get_task (db s) other)
  ∧ ∀ j title, j ∈ jobs s → job_task j = id →
               job_phase j = CachingTitle title ∨ job_phase j = CachingHash title →
               Cache.status r = "done".
Proof.
  intros (Hnd & _ & Hphase)%reachable_invariant Hin%bool_decide_eq_true Hr s'.
  destruct (advance_jobs_raising now e id (jobs s) (db s) (fs s) Hin Hnd)
    as (js' & Hadv & Hout).
  unfold s', Cache.get_task in *. unfold step. rewrite Hadv. cbn [db fs jobs].
  split; [|split; [|split; [done|split; [done|split]]]].
  - rewrite lookup_update, decide_True by done. by rewrite Hr.
  - by apply bool_decide_eq_false.
  - intros other Hother. rewrite lookup_update. by rewrite decide_False.
  - intros j title Hj Hid Hcaching. specialize (Hphase j r Hj).
    rewrite Hid in Hphase. specialize (Hphase Hr).
    by destruct Hcaching as [Hp|Hp]; rewrite Hp in Hphase.
Qed.

(** X26: a restart takes up no conversion.  [lifespan] keeps the
    registry and the files as they are, makes sure that the storage
    root is a directory and starts with no conversion in flight: in
    every run that follows, a task registered before the restart keeps
    its row as it is -- pending and processing included -- until the
    row is pruned. *)
Theorem restart_abandons_conversions tables v :
  match lifespan tables v with
  | inr s =>
      db s = default Cache.init_db tables ∧ jobs s = []
      ∧ (∃ loc, Fs.stat (fs s) STORAGE_DIR = Some (loc, Fs.Dir))
      ∧ (∀ l n, v !! l = Some n → fs s !! l = Some n)
      ∧ ∀ evs id,
          submits id evs = false →
          Cache.get_task (db (foldl step s evs)) id = Cache.get_task (db s) id
          ∨ Cache.get_task (db (foldl step s evs)) id = None
  | inl e => e = FileExistsError ∨ e = NotADirectoryError
  end.
Proof.
  unfold lifespan, ensure_storage_dir, Fs.mkdir_parents.
  destruct (Fs.mkdir_from v [] STORAGE_DIR) as [e|v'] eqn:Hmk.
  - by eapply mkdir_from_error.
  - destruct (mkdir_from_spec v v' [] _ Hmk eq_refl)
      as (Hkeep & _ & (l & Hwalk & Hl) & _).
    split; [done|]. split; [done|]. split.
    { exists l. unfold Fs.stat. simpl. rewrite Hwalk. simpl. by rewrite Hl. }
    split; [done|]. intros evs id Hsub.
    apply run_leaves_row; [|done]. simpl. apply not_elem_of_nil.
Qed.

End Progress.


Lemma raising_slice_ends_in_error_witness :
  let busy := ExternalError "database is locked" in
  let r := Cache.TaskRow "processing" "markdown" None None None 10 None in
  let s' := step (E:=Demo.env) Demo.converted (Advance "A" 30 (Some busy)) in
  Cache.get_task (db s') "A"
  = Some (Cache.TaskRow "error" (Cache.format r) None None
            (Some (str_exn (Env:=Demo.env) busy)) (Cache.created_at r) (Some 30%Z))
  ∧ in_flight s' "A" = false
  ∧ Cache.cache (db s') = Cache.cache (db Demo.converted)
  ∧ fs s' = fs Demo.converted
  ∧ (∀ other, other ≠ "A" →
       Cache.get_task (db s') other = Cache.get_task (db Demo.converted) other)
  ∧ ∀ j title, j ∈ jobs Demo.converted → job_task j = "A" →
               job_phase j = CachingTitle title ∨ job_phase j = CachingHash title →
               Cache.status r = "done".
Proof.
  apply (raising_slice_ends_in_error (E:=Demo.env) Demo.converted "A" 30
           (ExternalError "database is locked")
           (Cache.TaskRow "processing" "markdown" None None None 10 None)).
  - exact demo_converted_reachable.
  - by vm_compute.
  - by vm_compute.
Defined.


(** ** From the reference of the engine to the file served *)

Section Served.
Context {E : Env}.
Import Str StrFacts.

Lemma split_leading_sep sep s : split sep (String sep s) = "" :: split sep s.
Proof. simpl. by rewrite Ascii.eqb_refl. Qed.

Lemma split_plain sep s : mem sep s = false → split sep s = [s].
Proof.
  induction s as [|a s IH]; [done|]. simpl.
  destruct (Ascii.eqb a sep); [done|]. intros Hs. by rewrite (IH Hs).
Qed.

Lemma split_segment sep seg s :
  mem sep seg = false →
  split sep (seg +:+ String sep s) = seg :: split sep s.
Proof.
  induction seg as [|a seg IH]; [intros _; apply split_leading_sep|].
  rewrite app_cons. simpl. destruct (Ascii.eqb a sep); [done|].
  intros Hseg. by rewrite (IH Hseg).
Qed.

Lemma path_text_app (p : Fs.path) tail more :
  foldr (λ seg acc, "/" +:+ seg +:+ acc) tail p +:+ more
  = foldr (λ seg acc, "/" +:+ seg +:+ acc) (tail +:+ more) p.
Proof.
  induction p as [|seg p IH]; [done|]. simpl in *. by rewrite app_assoc, IH.
Qed.

(** The components of the text of a path are the components of the
    path: [Path("/a/b" + tail)] is [a / b / ...]. *)
Lemma parts_path_text (p : Fs.path) tail :
  Forall Fs.plain_component p →
  tail = "" ∨ startswith "/" tail = true →
  Fs.parts (foldr (λ seg acc, "/" +:+ seg +:+ acc) tail p) = p ++ Fs.parts tail.
Proof.
  intros Hp Htail. induction Hp as [|seg p Hseg Hp IH]; [done|].
  cbn [foldr]. set (rest := foldr _ tail p) in *.
  assert (Hrest : rest = "" ∨ ∃ s, rest = String "/" s).
  { unfold rest. destruct p as [|seg' p']; simpl.
    - destruct Htail as [->|Ht]; [by left|]. right.
      apply startswith_inv in Ht. simpl in Ht. by eexists.
    - right. by eexists. }
  destruct Hseg as (Hne & Hdot & Hdots & Hsep).
  change ("/" +:+ seg +:+ rest) with (String "/" (seg +:+ rest)).
  unfold Fs.parts in *. rewrite split_leading_sep.
  rewrite filter_cons_False by (by intros [? _]).
  destruct Hrest as [Hrest|[s Hrest]]; rewrite Hrest in *.
  - rewrite app_nil_r, (split_plain _ _ Hsep).
    rewrite filter_cons_True by done. simpl. f_equal.
    change (filter _ [""]) with (@nil string) in IH. by rewrite <- IH.
  - rewrite (split_segment _ _ _ Hsep), filter_cons_True by done.
    simpl. f_equal. rewrite <- IH. rewrite split_leading_sep.
    by rewrite filter_cons_False by (by intros [? _]).
Qed.

(** X27: the address the converter writes leads back to the file the
    engine referred to.  For a reference of the engine to a file
    directly in the [output_artifacts] directory of the task, given by
    its absolute path, the file name of the address
    [/api/images/<task_id>/<file name>] is the name of that file, and
    [get_image_path] for this name returns the very path the engine
    wrote, when the file is there. *)
Theorem served_address_finds_engine_file fs task_id before filename :
  Forall Fs.plain_component STORAGE_DIR → Fs.plain_component task_id →
  Fs.plain_component filename →
  let r : artifact_ref := (before, str_path (get_task_dir task_id), filename) in
  let engine_path := Fs.join [] (ref_target r) in
  ref_filename r = filename
  ∧ replace_image_path task_id [ref_target r]
    = "](/api/images/" +:+ task_id +:+ "/" +:+ filename +:+ ")"
  ∧ engine_path = artifacts_dir task_id ++ [filename]
  ∧ get_image_path fs task_id (ref_filename r)
    = (if Fs.exists_ fs engine_path then Some engine_path else None).
Proof.
  intros Hroot Htask Hfile r engine_path.
  assert (Hname : ref_filename r = filename).
  { unfold ref_filename, ref_target, r. cbn [fst snd].
    rewrite last_segment_of_reference.
    destruct Hfile as (_ & _ & _ & Hsep). by rewrite (split_plain _ _ Hsep). }
  assert (Hpath : engine_path = artifacts_dir task_id ++ [filename]).
  { unfold engine_path, ref_target, r, artifacts_dir. cbn [fst snd].
    rewrite join_output_artifacts, (get_task_dir_plain _ Htask).
    unfold str_path.
    destruct (STORAGE_DIR ++ [task_id]) as [|x q] eqn:Hdir;
      [by destruct STORAGE_DIR|].
    rewrite <- Hdir. clear x q Hdir.
    rewrite path_text_app.
    assert (Hplain : Forall Fs.plain_component (STORAGE_DIR ++ [task_id])).
    { apply Forall_app. split; [done|]. by apply Forall_singleton. }
    unfold Fs.join.
    assert (startswith "/" (foldr (λ seg acc, "/" +:+ seg +:+ acc)
                              ("" +:+ "/output_artifacts/" +:+ filename)
                              (STORAGE_DIR ++ [task_id])) = true) as ->.
    { destruct STORAGE_DIR; done. }
    etrans; [apply (parts_path_text (STORAGE_DIR ++ [task_id]) _ Hplain); by right|].
    rewrite <- (List.app_assoc (STORAGE_DIR ++ [task_id]) ["output_artifacts"] [filename]).
    f_equal.
    assert (Fs.parts ("/" +:+ filename) = [filename]) as Hlast.
    { unfold Fs.parts. change ("/" +:+ filename) with (String "/" filename).
      destruct Hfile as (? & ? & _ & Hsep).
      rewrite split_leading_sep, (split_plain _ _ Hsep).
      rewrite filter_cons_False by (by intros [? _]).
      by rewrite filter_cons_True. }
    etrans; [apply (parts_path_text ["output_artifacts"] ("/" +:+ filename));
             [by repeat constructor|by right]|].
    by rewrite Hlast. }
  split; [done|]. split.
  { unfold r, ref_target. cbn [fst snd]. rewrite filename_of_reference.
    destruct Hfile as (_ & _ & _ & Hsep). by rewrite (split_plain _ _ Hsep). }
  split; [done|]. rewrite Hname, Hpath. unfold get_image_path.
  fold (artifacts_dir task_id). by rewrite (join_plain _ _ Hfile).
Qed.

End Served.

Lemma served_address_finds_engine_file_witness :
  let r : artifact_ref :=
    ("![Image", str_path (get_task_dir (E:=Demo.env) "A"), "image_0.png") in
  let engine_path := Fs.join [] (ref_target r) in
  ref_filename r = "image_0.png"
  ∧ replace_image_path "A" [ref_target r]
    = "](/api/images/" +:+ "A" +:+ "/" +:+ "image_0.png" +:+ ")"
  ∧ engine_path = artifacts_dir (E:=Demo.env) "A" ++ ["image_0.png"]
  ∧ get_image_path (E:=Demo.env) Demo.report_volume "A" (ref_filename r)
    = (if Fs.exists_ Demo.report_volume engine_path then Some engine_path
       else None).
Proof.
  apply (served_address_finds_engine_file (E:=Demo.env) Demo.report_volume "A"
           "![Image" "image_0.png").
  - repeat constructor; by vm_compute.
  - repeat split; by vm_compute.
  - repeat split; by vm_compute.
Defined.
